(** * Vehicle counter: backend.py (the counter) and app.py (the dashboard)

    A shallow embedding of the two Python programs and the properties of
    their counting, persistence and query logic.  The file has three parts:
    the programs, the vocabulary in which the properties are stated, and
    the properties.

    Conventions of the embedding.
    - numpy floats that carry measurements (box coordinates, confidences,
      [time.time()]) are the rationals [Q] that they denote; the one
      arithmetic operation on them whose result is rounded, the float32 sum
      in the centre of a box, is rounded in the model too ([Np.float32]).
      Infinities and NaN are outside the model.  Track identities and class
      indices, which the tracker delivers as integral floats, are integers
      [Z], so [int(box_id)] and [int(cls)] are the identity.
    - the module globals of backend.py are the fields of [State]; the log
      file, the database connection and the console are fields of [State]
      too, and every effect that succeeded is appended to [trace].
    - what the outside world answers (the clocks, the content of the
      location file, the tracker's boxes, a failing write, a key press) is
      part of the input.  The detector, the camera and SQLite's date
      functions are not modelled beyond that.
    - an uncaught Python exception ends the process: [Raised].  The signal
      handlers, which run [cleanup] at an arbitrary point, are outside the
      model; [cleanup] is reached through the ESC key. *)

From Stdlib Require Import ZArith QArith Qround Qabs Lqa Lia Ascii String.
From stdpp Require Import base gmap strings list fin_maps pretty sorting.

(** * The programs *)

(** ** Python values *)

Module Py.

(** [int(x)] on a float: truncation towards zero. *)
Definition int_of_float (x : Q) : Z := Z.quot (Qnum x) (Z.pos (Qden x)).

(** [a < b] on floats. *)
Definition float_lt (a b : Q) : bool :=
  match Qcompare a b with Lt => true | _ => false end.

(** The ASCII characters for which [str.isspace] holds.  The texts of the
    model are ASCII; the blanks of Unicode beyond ASCII, which [strip]
    removes as well, do not occur in them. *)
Definition isspace (c : ascii) : bool :=
  let n := nat_of_ascii c in
  ((9 <=? n) && (n <=? 13)) || ((28 <=? n) && (n <=? 32)).

Fixpoint lstrip (s : string) : string :=
  match s with
  | String c s' => if isspace c then lstrip s' else s
  | EmptyString => EmptyString
  end.

(** [rstrip] drops a character exactly when it is a space and all that
    follows it has been dropped. *)
Fixpoint rstrip (s : string) : string :=
  match s with
  | String c s' =>
      match rstrip s' with
      | EmptyString => if isspace c then EmptyString else String c EmptyString
      | r => String c r
      end
  | EmptyString => EmptyString
  end.

(** [s.strip()] *)
Definition strip (s : string) : string := rstrip (lstrip s).

(** Truth value of a string: [if s:] holds for the non-empty ones. *)
Definition truthy (s : string) : bool :=
  match s with EmptyString => false | String _ _ => true end.

(** [int(s)] on a text: the number that a non-empty run of ASCII digits
    denotes; [None] stands for the ValueError on any other text (signs,
    blanks and underscores, which Python also accepts, do not occur in the
    texts that the programs convert). *)
Definition digit_of (c : ascii) : option nat :=
  let n := nat_of_ascii c in
  if (48 <=? n) && (n <=? 57) then Some (n - 48) else None.

Fixpoint int_digits (acc : nat) (s : string) : option nat :=
  match s with
  | EmptyString => Some acc
  | String c s' =>
      match digit_of c with
      | Some d => int_digits (10 * acc + d) s'
      | None => None
      end
  end.

Definition int_of_str (s : string) : option nat :=
  match s with
  | EmptyString => None
  | _ => int_digits 0 s
  end.

End Py.

(** ** numpy values *)

Module Np.

(** The float32 arithmetic of the box coordinates.  A finite float32 number
    is [n * 2 ^ e] with [|n| < 2 ^ 24] and [-149 <= e]; an operation answers
    with the number of this form that is nearest to the exact result, a tie
    going to the even [n].  The model puts no upper limit on [e]: a result
    beyond the largest float32 number, [2 ^ 128 - 2 ^ 104], which numpy
    replaces by an infinity, is recognised by [overflows]. *)

(** Rounding to the nearest integer, a tie to the even one. *)
Definition rint (y : Q) : Z :=
  let f := Qfloor y in
  match Qcompare (y - inject_Z f) (1 # 2) with
  | Lt => f
  | Eq => if Z.even f then f else (f + 1)%Z
  | Gt => (f + 1)%Z
  end.

(** A magnitude, in units of [2 ^ -149], rounded to 24 significant bits. *)
Definition round24 (m : Q) : Z :=
  let shift := Z.max (Z.log2 (Qfloor m) - 23) 0 in
  (rint (m / inject_Z (2 ^ shift)) * 2 ^ shift)%Z.

(** The float32 number nearest to [x]. *)
Definition float32 (x : Q) : Q :=
  let n := round24 (Qabs x * inject_Z (2 ^ 149)) in
  (if Qle_bool 0 x then inject_Z n else - inject_Z n) / inject_Z (2 ^ 149).

(** [a + b] on float32 numbers. *)
Definition add32 (a b : Q) : Q := float32 (a + b).

(** The float32 result for [x] is an infinity. *)
Definition overflows (x : Q) : bool :=
  Qle_bool (inject_Z (2 ^ 128)) (Qabs (float32 x)).

End Np.

(** ** backend.py: configuration *)

Definition DEFAULT_CAMERA_LOCATION_ID : string := "jodhpur".
Definition count_line_position : Z := 270.
Definition offset : Z := 20.
Definition LOCATION_CHECK_INTERVAL : Q := 5.

(** ** backend.py: data *)

(** One element of [zip(ids, classes, coords, confs)]. *)
Record Detection : Type := {
  box_id : Z;
  cls : Z;
  coord : Q * Q * Q * Q;
  conf : Q
}.

(** The four values written for a counted vehicle, in the order of the CSV
    columns and of the INSERT statement. *)
Record Row : Type := {
  timestamp : string;
  vehicle_type : string;
  vehicle_id : Z;
  location_id : string
}.

#[global] Instance Row_eq_dec : EqDecision Row.
Proof. solve_decision. Defined.

Inductive CsvLine : Type :=
  | Header
  | Event (r : Row).

Inductive Message : Type :=
  | MsgLocationUpdated (old new : string)
  | MsgLocationReadError
  | MsgGrabFailed
  | MsgCounted (r : Row)
  | MsgExiting.

(** The places where a write of the persistence path can fail. *)
Inductive Fault : Type :=
  | CsvWriteFails
  | CsvFlushFails
  | DbExecuteFails
  | DbCommitFails.

#[global] Instance Fault_eq_dec : EqDecision Fault.
Proof. solve_decision. Defined.

(** Exceptions: [FileError] and [WriteError] are subclasses of [Exception]
    (OSError, csv.Error, sqlite3.Error); [SystemExit] is not. *)
Inductive Exn : Type :=
  | FileError
  | WriteError (f : Fault)
  | SystemExit.

Definition is_Exception (e : Exn) : bool :=
  match e with SystemExit => false | _ => true end.

(** Effects that took place, oldest first. *)
Inductive Effect : Type :=
  | Print (m : Message)
  | CsvWriterow (l : CsvLine)
  | CsvFlush
  | CsvClose
  | DbExecute (r : Row)
  | DbCommit
  | DbClose
  | CapRelease
  | DestroyAllWindows
  | DrawBox (label : string) (id : Z)
  | ShowFrame (cars bikes trucks : nat).

(** What the world answers while one detection is handled:
    [datetime.now().strftime(...)] and which write, if any, fails. *)
Record World : Type := {
  now : string;
  fault : option Fault
}.

(** Reading the location file: [os.path.exists] is false, or [open]/[read]
    raises, or the text is read. *)
Inductive FileRead : Type :=
  | NoFile
  | ReadFails
  | Contents (text : string).

(** The [vehicles] table: committed rows in insertion order (the
    autoincrement [id] is the position), and the rows of the open
    transaction. *)
Record Db : Type := {
  db_table : list Row;
  db_pending : list Row
}.

Definition db_execute (r : Row) (d : Db) : Db :=
  {| db_table := db_table d; db_pending := db_pending d ++ [r] |}.

Definition db_commit (d : Db) : Db :=
  {| db_table := db_table d ++ db_pending d; db_pending := [] |}.

(** The log file, opened in append mode: the lines this process has put on
    disk, and the lines still in the writer's buffer. *)
Record Csv : Type := {
  csv_disk : list CsvLine;
  csv_buffer : list CsvLine
}.

Definition csv_writerow (l : CsvLine) (c : Csv) : Csv :=
  {| csv_disk := csv_disk c; csv_buffer := csv_buffer c ++ [l] |}.

Definition csv_flush (c : Csv) : Csv :=
  {| csv_disk := csv_disk c ++ csv_buffer c; csv_buffer := [] |}.

Record State : Type := {
  CAMERA_LOCATION_ID : string;
  counted_ids : gset Z;
  count_cars : nat;
  count_bikes : nat;
  count_trucks : nat;
  csv_file : Csv;
  db_conn : Db;
  frame_count : nat;
  last_location_check_time : Q;
  trace : list Effect
}.

(** ** backend.py: a state and exception monad *)

Inductive Result (A : Type) : Type :=
  | Ok (a : A) (s : State)
  | Raised (e : Exn) (s : State).
Arguments Ok {A} a s.
Arguments Raised {A} e s.

Definition M (A : Type) : Type := State → Result A.

#[global] Instance M_ret : MRet M := λ A a s, Ok a s.

#[global] Instance M_bind : MBind M :=
  λ A B k m s, match m s with
               | Ok a s' => k a s'
               | Raised e s' => Raised e s'
               end.

Definition raise {A} (e : Exn) : M A := λ s, Raised e s.

Definition get : M State := λ s, Ok s s.

Definition modify (f : State → State) : M unit := λ s, Ok tt (f s).

(** [try: body except Exception as e: handler] *)
Definition try_except {A} (body : M A) (handler : Exn → M A) : M A :=
  λ s, match body s with
       | Ok a s' => Ok a s'
       | Raised e s' => if is_Exception e then handler e s' else Raised e s'
       end.

(** [for x in l: body] *)
Fixpoint for_each {X} (body : X → M unit) (l : list X) : M unit :=
  match l with
  | [] => mret tt
  | x :: l' => body x ;; for_each body l'
  end.

Definition final_state {A} (r : Result A) : State :=
  match r with Ok _ s => s | Raised _ s => s end.

(** Field updates. *)
Definition set_location (l : string) (s : State) : State :=
  {| CAMERA_LOCATION_ID := l; counted_ids := counted_ids s;
     count_cars := count_cars s; count_bikes := count_bikes s;
     count_trucks := count_trucks s; csv_file := csv_file s;
     db_conn := db_conn s; frame_count := frame_count s;
     last_location_check_time := last_location_check_time s;
     trace := trace s |}.

Definition set_counted (c : gset Z) (s : State) : State :=
  {| CAMERA_LOCATION_ID := CAMERA_LOCATION_ID s; counted_ids := c;
     count_cars := count_cars s; count_bikes := count_bikes s;
     count_trucks := count_trucks s; csv_file := csv_file s;
     db_conn := db_conn s; frame_count := frame_count s;
     last_location_check_time := last_location_check_time s;
     trace := trace s |}.

Definition set_counts (c b t : nat) (s : State) : State :=
  {| CAMERA_LOCATION_ID := CAMERA_LOCATION_ID s; counted_ids := counted_ids s;
     count_cars := c; count_bikes := b;
     count_trucks := t; csv_file := csv_file s;
     db_conn := db_conn s; frame_count := frame_count s;
     last_location_check_time := last_location_check_time s;
     trace := trace s |}.

Definition set_csv (c : Csv) (s : State) : State :=
  {| CAMERA_LOCATION_ID := CAMERA_LOCATION_ID s; counted_ids := counted_ids s;
     count_cars := count_cars s; count_bikes := count_bikes s;
     count_trucks := count_trucks s; csv_file := c;
     db_conn := db_conn s; frame_count := frame_count s;
     last_location_check_time := last_location_check_time s;
     trace := trace s |}.

Definition set_db (d : Db) (s : State) : State :=
  {| CAMERA_LOCATION_ID := CAMERA_LOCATION_ID s; counted_ids := counted_ids s;
     count_cars := count_cars s; count_bikes := count_bikes s;
     count_trucks := count_trucks s; csv_file := csv_file s;
     db_conn := d; frame_count := frame_count s;
     last_location_check_time := last_location_check_time s;
     trace := trace s |}.

Definition set_frame_count (n : nat) (s : State) : State :=
  {| CAMERA_LOCATION_ID := CAMERA_LOCATION_ID s; counted_ids := counted_ids s;
     count_cars := count_cars s; count_bikes := count_bikes s;
     count_trucks := count_trucks s; csv_file := csv_file s;
     db_conn := db_conn s; frame_count := n;
     last_location_check_time := last_location_check_time s;
     trace := trace s |}.

Definition set_last_check (t : Q) (s : State) : State :=
  {| CAMERA_LOCATION_ID := CAMERA_LOCATION_ID s; counted_ids := counted_ids s;
     count_cars := count_cars s; count_bikes := count_bikes s;
     count_trucks := count_trucks s; csv_file := csv_file s;
     db_conn := db_conn s; frame_count := frame_count s;
     last_location_check_time := t;
     trace := trace s |}.

Definition log_effect (e : Effect) (s : State) : State :=
  {| CAMERA_LOCATION_ID := CAMERA_LOCATION_ID s; counted_ids := counted_ids s;
     count_cars := count_cars s; count_bikes := count_bikes s;
     count_trucks := count_trucks s; csv_file := csv_file s;
     db_conn := db_conn s; frame_count := frame_count s;
     last_location_check_time := last_location_check_time s;
     trace := trace s ++ [e] |}.

(** An effect that cannot fail in the model. *)
Definition emit (e : Effect) : M unit := modify (log_effect e).

Definition print (m : Message) : M unit := emit (Print m).

(** A write of the persistence path: it raises when the world says that this
    write fails, and otherwise changes the state and is recorded. *)
Definition faulty (w : World) (f : Fault) (e : Effect) (upd : State → State)
  : M unit :=
  λ s, match fault w with
       | Some f' => if decide (f' = f) then Raised (WriteError f) s
                    else Ok tt (log_effect e (upd s))
       | None => Ok tt (log_effect e (upd s))
       end.

(** ** backend.py: [read_current_location] *)

Definition os_path_exists (f : FileRead) : bool :=
  match f with NoFile => false | _ => true end.

(** [with open(LOCATION_CONFIG_FILE, 'r') as f: f.read()] *)
Definition open_read (f : FileRead) : M string :=
  match f with
  | Contents text => mret text
  | _ => raise FileError
  end.

Definition read_current_location (f : FileRead) : M unit :=
  try_except
    (if os_path_exists f then
       text ← open_read f;
       let new_location := Py.strip text in
       s ← get;
       if Py.truthy new_location
          && negb (String.eqb new_location (CAMERA_LOCATION_ID s))
       then
         print (MsgLocationUpdated (CAMERA_LOCATION_ID s) new_location) ;;
         modify (set_location new_location)
       else mret tt
     else mret tt)
    (λ _, print MsgLocationReadError) ;;
  s ← get;
  if negb (Py.truthy (CAMERA_LOCATION_ID s))
  then modify (set_location DEFAULT_CAMERA_LOCATION_ID)
  else mret tt.

(** ** backend.py: the main loop *)

(** [a < c < b] *)
Definition in_zone (line off c : Z) : bool :=
  (line - off <? c)%Z && (c <? line + off)%Z.

(** [int((y1 + y2) / 2)]: [y1] and [y2] are float32 numbers and so is their
    sum, which is rounded.  The quotient by 2 is exact in float64; in
    float32 it is exact but for a quotient below [2 ^ -126], whose integer
    part is 0 either way.  When the sum is an infinity [int] raises; the
    boxes of the model are those whose sum is finite. *)
Definition center_y (d : Detection) : Z :=
  let '(x1, y1, x2, y2) := coord d in
  Py.int_of_float (Np.add32 y1 y2 / 2).

(** [label in ["car", "motorcycle", "truck"]] *)
Definition counted_label (label : string) : bool :=
  bool_decide (label ∈ ["car"; "motorcycle"; "truck"]).

Definition bump (label : string) (s : State) : State :=
  if String.eqb label "car" then
    set_counts (S (count_cars s)) (count_bikes s) (count_trucks s) s
  else if String.eqb label "motorcycle" then
    set_counts (count_cars s) (S (count_bikes s)) (count_trucks s) s
  else if String.eqb label "truck" then
    set_counts (count_cars s) (count_bikes s) (S (count_trucks s)) s
  else s.

(** One pass of the main loop reads the wall clock, may poll the location
    file, grabs a frame, and on a processed frame receives the tracker's
    boxes ([None] when [boxes.id is None]) and a key press. *)
Record Tick : Type := {
  time_time : Q;
  location_file : FileRead;
  cap_read : bool;
  boxes : option (list (Detection * World));
  waitKey : Z
}.

(** The first statement of the loop body: the location file is read again
    when [LOCATION_CHECK_INTERVAL] seconds have passed since the last read. *)
Definition poll_location (t : Tick) : M unit :=
  s ← get;
  if Qle_bool LOCATION_CHECK_INTERVAL
       (time_time t - last_location_check_time s)
  then read_current_location (location_file t) ;;
       modify (set_last_check (time_time t))
  else mret tt.

Section Backend.

(** [model.names], the detector's table from class index to label. *)
Variable names : Z → string.

(** The body of [for box_id, cls, coord, conf in zip(...)]. *)
Definition handle_detection (dw : Detection * World) : M unit :=
  let '(d, w) := dw in
  let label := names (cls d) in
  if counted_label label && Py.float_lt (1 # 2) (conf d) then
    emit (DrawBox label (box_id d)) ;;
    s ← get;
    if in_zone count_line_position offset (center_y d)
       && bool_decide (box_id d ∉ counted_ids s)
    then
      modify (set_counted ({[box_id d]} ∪ counted_ids s)) ;;
      let timestamp := now w in
      s1 ← get;
      let r1 := {| timestamp := timestamp; vehicle_type := label;
                   vehicle_id := box_id d;
                   location_id := CAMERA_LOCATION_ID s1 |} in
      faulty w CsvWriteFails (CsvWriterow (Event r1))
        (λ s, set_csv (csv_writerow (Event r1) (csv_file s)) s) ;;
      faulty w CsvFlushFails CsvFlush
        (λ s, set_csv (csv_flush (csv_file s)) s) ;;
      s2 ← get;
      let r2 := {| timestamp := timestamp; vehicle_type := label;
                   vehicle_id := box_id d;
                   location_id := CAMERA_LOCATION_ID s2 |} in
      faulty w DbExecuteFails (DbExecute r2)
        (λ s, set_db (db_execute r2 (db_conn s)) s) ;;
      faulty w DbCommitFails DbCommit
        (λ s, set_db (db_commit (db_conn s)) s) ;;
      s3 ← get;
      print (MsgCounted {| timestamp := timestamp; vehicle_type := label;
                           vehicle_id := box_id d;
                           location_id := CAMERA_LOCATION_ID s3 |}) ;;
      modify (bump label)
    else mret tt
  else mret tt.

(** [cleanup]: close the log (which flushes it), release the camera, close
    the connection (an open transaction is dropped), close the windows,
    [sys.exit(0)]. *)
Definition cleanup : M unit :=
  print MsgExiting ;;
  modify (λ s, set_csv (csv_flush (csv_file s)) s) ;; emit CsvClose ;;
  emit CapRelease ;;
  modify (λ s, set_db {| db_table := db_table (db_conn s);
                         db_pending := [] |} s) ;;
  emit DbClose ;;
  emit DestroyAllWindows ;;
  raise SystemExit.

(** The body of [while True]. *)
Definition loop_body (t : Tick) : M unit :=
  poll_location t ;;
  if negb (cap_read t) then print MsgGrabFailed
  else
    modify (λ s, set_frame_count (S (frame_count s)) s) ;;
    s ← get;
    if negb (frame_count s `mod` 2 =? 0) then mret tt
    else
      (match boxes t with
       | Some bs => for_each handle_detection bs
       | None => mret tt
       end) ;;
      s ← get;
      emit (ShowFrame (count_cars s) (count_bikes s) (count_trucks s)) ;;
      if (waitKey t =? 27)%Z then cleanup else mret tt.

(** The state after the module's top-level statements up to the first
    [read_current_location()]: [csv_new] says that the log file was absent
    or empty, [db0] is the content of the table found on disk. *)
Definition module_init (csv_new : bool) (db0 : list Row) : State :=
  {| CAMERA_LOCATION_ID := DEFAULT_CAMERA_LOCATION_ID;
     counted_ids := ∅;
     count_cars := 0; count_bikes := 0; count_trucks := 0;
     csv_file := {| csv_disk := [];
                    csv_buffer := if csv_new then [Header] else [] |};
     db_conn := {| db_table := db0; db_pending := [] |};
     frame_count := 0;
     last_location_check_time := 0;
     trace := if csv_new then [CsvWriterow Header] else [] |}.

(** The process from the initial read of the location on: [t0] is the
    clock when the loop is entered, [ticks] the passes of the loop. *)
Definition main (f0 : FileRead) (t0 : Q) (ticks : list Tick) : M unit :=
  read_current_location f0 ;;
  modify (set_last_check t0) ;;
  for_each loop_body ticks.

End Backend.

(** ** app.py: data *)

(** The values of the [LOCATIONS] dictionary. *)
Record LocationInfo : Type := { name : string }.

Definition LOCATIONS : gmap string LocationInfo :=
  {[ "Kudi" := {| name := "Kudi, Jodhpur" |};
     "Shastri Nagar" := {| name := "Shastri Nagar, Jodhpur" |};
     "Ratanada" := {| name := "Ratanada, Jodhpur" |} ]}.

Inductive JValue : Type :=
  | JInt (n : nat)
  | JStr (s : string).

(** What a view function returns: a text, a rendered template with its
    arguments, [jsonify] of a dictionary, or a redirect to [url_for] of an
    endpoint. *)
Inductive Body : Type :=
  | Text (s : string)
  | Template (file : string) (args : list (string * string))
  | Json (j : gmap string JValue)
  | Redirect (endpoint : string) (location_id : string).

Record Response : Type := {
  status : nat;
  body : Body
}.

(** What Flask answers when a view function raises. *)
Definition internal_server_error : Response :=
  {| status := 500; body := Text "Internal Server Error" |}.

Definition jsonify (j : gmap string JValue) : Response :=
  {| status := 200; body := Json j |}.

(** What the clock of the web process answers during one request:
    [today] is [now.strftime("%Y-%m-%d")], [week_start] the same for
    [now - timedelta(days=now.weekday())], [current_hour] is
    [now.strftime("%H")], [days_ago i] the date [i] days before now,
    [sqlite_week_ago] is SQLite's [date('now', '-7 days')], and
    [weekday_abbr] maps a date to its [%a] name. *)
Record Clock : Type := {
  today : string;
  week_start : string;
  current_hour : string;
  days_ago : nat → string;
  sqlite_week_ago : string;
  weekday_abbr : string → string
}.

(** ** SQLite's date and time functions

    [DATE(x)] and [strftime('%H', x)] parse the text [x] as a time value and
    are NULL ([None]) when it is none; the hour of a time value is below 24. *)
Class SQLiteDate : Type := {
  sql_date : string → option string;
  sql_hour : string → option nat;
  sql_hour_lt ts h : sql_hour ts = Some h → h < 24;
  sql_date_hour ts : is_Some (sql_date ts) ↔ is_Some (sql_hour ts)
}.

(** [f"{n:02d}"] *)
Definition fmt02d (n : nat) : string :=
  if n <? 10 then "0" +:+ pretty n else pretty n.

(** [f"{hour:02d}:00"] *)
Definition hour_key (hour : nat) : string := fmt02d hour +:+ ":00".

Section Queries.

Context `{SQLiteDate}.

(** [strftime('%H', timestamp)] *)
Definition strftime_H (ts : string) : option string :=
  fmt02d <$> sql_hour ts.

(** [DATE(timestamp) = ? AND location_id = ? AND vehicle_type != 'bus'] *)
Definition on_day (date location : string) (r : Row) : bool :=
  bool_decide (sql_date (timestamp r) = Some date)
  && String.eqb (location_id r) location
  && negb (String.eqb (vehicle_type r) "bus").

(** [DATE(timestamp) >= ? AND location_id = ? AND vehicle_type != 'bus'],
    the comparison being that of texts. *)
Definition since_day (start location : string) (r : Row) : bool :=
  match sql_date (timestamp r) with
  | Some d => String.leb start d
  | None => false
  end
  && String.eqb (location_id r) location
  && negb (String.eqb (vehicle_type r) "bus").

(** [strftime('%H', timestamp) = ? AND DATE(timestamp) = ? AND ...] *)
Definition in_hour (hour date location : string) (r : Row) : bool :=
  bool_decide (strftime_H (timestamp r) = Some hour)
  && on_day date location r.

(** [SELECT key, COUNT( * ) ... GROUP BY key]: one row for each distinct key,
    with the number of selected rows that have it.  SQL leaves the order of
    the groups open; the model lists them in the order of [remove_dups]. *)
Definition occurrences {K} `{EqDecision K} (k : K) (keys : list K) : nat :=
  length (List.filter (λ k', bool_decide (k' = k)) keys).

Definition group_count {K} `{EqDecision K} (keys : list K) : list (K * nat) :=
  (λ k, (k, occurrences k keys)) <$> remove_dups keys.

(** [ORDER BY COUNT( * ) DESC LIMIT 1] followed by [fetchone()]: a group of
    maximal count, the earliest such in the model's order.  Among groups of
    the same count SQLite is free to answer with another one. *)
Fixpoint largest {K} (groups : list (K * nat)) : option (K * nat) :=
  match groups with
  | [] => None
  | g :: groups' =>
      match largest groups' with
      | Some g' => if g.2 <? g'.2 then Some g' else Some g
      | None => Some g
      end
  end.

(** *** [summary_data] *)

Definition summary_data (c : Clock) (location_id : string) (db : list Row)
  : Response :=
  let today := today c in
  let week_start := week_start c in
  let total_today := length (List.filter (on_day today location_id) db) in
  let total_week :=
    length (List.filter (since_day week_start location_id) db) in
  let row :=
    largest
      (group_count
         (strftime_H ∘ timestamp
            <$> List.filter (on_day today location_id) db)) in
  let current :=
    length (List.filter (in_hour (current_hour c) today location_id) db) in
  let summary peak : gmap string JValue :=
    {[ "total_today" := JInt total_today; "total_week" := JInt total_week;
       "peak_hour" := JStr peak; "current_hour" := JInt current ]} in
  match row with
  | None => jsonify (summary "00:00")
  | Some (hour, _) =>
      match hour ≫= Py.int_of_str with
      | Some h => jsonify (summary (hour_key h))
      | None => internal_server_error
      end
  end.

(** *** [vehicle_types_data] *)

(** The dictionary after the loop over [cursor.fetchall()]. *)
Definition vehicle_counts (today location_id : string) (db : list Row)
  : gmap string nat :=
  let results :=
    group_count (vehicle_type <$> List.filter (on_day today location_id) db) in
  foldl (λ (counts : gmap string nat) '(vehicle_type, count),
           if bool_decide (is_Some (counts !! vehicle_type))
           then <[vehicle_type := count]> counts
           else counts)
        {[ "car" := 0; "truck" := 0; "motorcycle" := 0 ]} results.

Definition vehicle_types_data (c : Clock) (location_id : string)
    (db : list Row) : Response :=
  jsonify (JInt <$> vehicle_counts (today c) location_id db).

(** *** [hourly] *)

(** The dictionary after the loop over [cursor.fetchall()]; [None] when
    [int(hour)] raises. *)
Definition hourly_data (date location_id : string) (db : list Row)
  : option (gmap string nat) :=
  let results :=
    group_count
      (strftime_H ∘ timestamp <$> List.filter (on_day date location_id) db) in
  foldl (λ (data : option (gmap string nat)) '(hour, count),
           data ← data;
           h ← hour ≫= Py.int_of_str;
           Some (<[hour_key h := count]> data))
        (Some (list_to_map ((λ hour, (hour_key hour, 0)) <$> seq 0 24)))
        results.

(** [date_arg] is [request.args.get("date")]. *)
Definition hourly (c : Clock) (date_arg : option string)
    (location_id : string) (db : list Row) : Response :=
  let date := default (today c) date_arg in
  match hourly_data date location_id db with
  | Some data => jsonify (JInt <$> data)
  | None => internal_server_error
  end.

(** *** [daily] *)

Definition str_le (a b : string) : Prop := String.leb a b = true.

#[global] Instance str_le_dec : RelDecision str_le.
Proof. intros a b. unfold str_le. apply _. Defined.

Definition daily (c : Clock) (location_id : string) (db : list Row)
  : Response :=
  let daily_data : gmap string nat :=
    foldl (λ data i, <[days_ago c i := 0]> data) ∅ (seq 0 7) in
  let results :=
    group_count
      (sql_date ∘ timestamp
         <$> List.filter (since_day (sqlite_week_ago c) location_id) db) in
  let daily_data :=
    foldl (λ (data : gmap string nat) '(date, count),
             match date with
             | Some date =>
                 if bool_decide (is_Some (data !! date))
                 then <[date := count]> data
                 else data
             | None => data
             end)
          daily_data results in
  let sorted_dates := merge_sort str_le (elements (dom daily_data)) in
  let day_names : gmap string nat :=
    foldl (λ names date, <[weekday_abbr c date := daily_data !!! date]> names)
          ∅ sorted_dates in
  jsonify (JInt <$> day_names).

End Queries.

(** *** The routes that do not read the table *)

Inductive AppMessage : Type :=
  | MsgLocationWritten (location_id : string)
  | MsgLocationWriteError.

(** How one call of [write_current_location_to_file] goes: [open(..., 'w')]
    raises, and the file is as it was; or it succeeds, which empties the
    file, and then [write] or the closing of the file raises, with the
    first [kept] characters of the text in the file; or the text is
    written. *)
Inductive FileWrite : Type :=
  | OpenFails
  | WriteFails (kept : nat)
  | Written.

(** [write_current_location_to_file]: the new content of the location file
    ([None]: no file) and what is printed. *)
Definition write_current_location_to_file (writing : FileWrite)
    (location_id : string) (file : option string)
  : option string * AppMessage :=
  match writing with
  | OpenFails => (file, MsgLocationWriteError)
  | WriteFails kept =>
      (Some (substring 0 kept location_id), MsgLocationWriteError)
  | Written => (Some location_id, MsgLocationWritten location_id)
  end.

Definition select_location : Response :=
  {| status := 200; body := Template "selection.html" [] |}.

Definition set_active_location (writing : FileWrite) (location_id : string)
    (file : option string) : option string * Response :=
  if bool_decide (LOCATIONS !! location_id = None)
  then (file, {| status := 404; body := Text "Location not found" |})
  else
    let '(file', _) :=
      write_current_location_to_file writing location_id file in
    (file', {| status := 302; body := Redirect "dashboard" location_id |}).

Definition dashboard (location_id : string) : Response :=
  match LOCATIONS !! location_id with
  | None => {| status := 404; body := Text "Location not found" |}
  | Some info =>
      {| status := 200;
         body := Template "dashboard.html"
                   [("location_id", location_id);
                    ("location_name", name info)] |}
  end.

(** *** The HTTP surface *)

Inductive Request : Type :=
  | GetRoot
  | GetSetLocation (location_id : string)
  | GetDashboard (location_id : string)
  | GetSummary (location_id : string)
  | GetVehicleTypes (location_id : string)
  | GetHourly (location_id : string) (date : option string)
  | GetDaily (location_id : string).

(** The location identifier that a request's URL carries. *)
Definition url_location (q : Request) : option string :=
  match q with
  | GetRoot => None
  | GetSetLocation l | GetDashboard l | GetSummary l | GetVehicleTypes l
  | GetHourly l _ | GetDaily l => Some l
  end.

(** One request served by the web process: [db] is the content of the
    [vehicles] table, [file] that of the location file. *)
Definition serve `{SQLiteDate} (c : Clock) (writing : FileWrite)
    (db : list Row)
    (file : option string) (q : Request) : option string * Response :=
  match q with
  | GetRoot => (file, select_location)
  | GetSetLocation l => set_active_location writing l file
  | GetDashboard l => (file, dashboard l)
  | GetSummary l => (file, summary_data c l db)
  | GetVehicleTypes l => (file, vehicle_types_data c l db)
  | GetHourly l date => (file, hourly c date l db)
  | GetDaily l => (file, daily c l db)
  end.

(** *** The event store as the web process sees it *)

(** The [INSERT] and [commit] that the counter performs for one event. *)
Definition db_append (r : Row) (d : Db) : Db := db_commit (db_execute r d).

Definition db_append_all (rs : list Row) (d : Db) : Db :=
  foldl (λ d r, db_append r d) d rs.

(** *** The web process from its start *)

(** One request as the web process meets it: the clock, the content of the
    table and how a write of the location file goes at that moment. *)
Record Hit : Type := {
  hit_clock : Clock;
  hit_table : list Row;
  hit_write : FileWrite;
  hit_request : Request
}.

(** [app.run]: the requests are served one after the other; the location
    file is what the earlier ones left. *)
Fixpoint app_run `{SQLiteDate} (hits : list Hit) (file : option string)
  : option string * list Response :=
  match hits with
  | [] => (file, [])
  | h :: hits' =>
      let '(file', r) :=
        serve (hit_clock h) (hit_write h) (hit_table h) file
          (hit_request h) in
      let '(file'', rs) := app_run hits' file' in
      (file'', r :: rs)
  end.

Inductive AppExn : Type :=
  | KeyError (key : string).

(** The [__main__] block after [init_database()], [find_free_port()] and
    the two prints: the location file is initialised when it does not
    exist, then the server runs.  The result is the location file in the
    end and the answers, or the exception that ended the process. *)
Definition app_main `{SQLiteDate} (writing : FileWrite)
    (file : option string) (hits : list Hit)
  : (option string * list Response) + AppExn :=
  match file with
  | None =>
      match LOCATIONS !! "jodhpur" with
      | Some info =>
          let '(file', _) :=
            write_current_location_to_file writing (name info) file in
          inl (app_run hits file')
      | None => inr (KeyError "jodhpur")
      end
  | Some _ => inl (app_run hits file)
  end.

(** * The vocabulary of the properties *)

(** ** Events of a run *)

Definition emitted_of (e : Effect) : option Row :=
  match e with CsvWriterow (Event r) => Some r | _ => None end.

Definition inserted_of (e : Effect) : option Row :=
  match e with DbExecute r => Some r | _ => None end.

(** The count events written to the log, and those sent to the table, by
    this process, oldest first. *)
Definition emitted (s : State) : list Row := omap emitted_of (trace s).
Definition inserted (s : State) : list Row := omap inserted_of (trace s).

(** [s'] differs from [s] at most in the active location and in what was
    printed. *)
Definition console_only (s s' : State) : Prop :=
  counted_ids s' = counted_ids s ∧
  count_cars s' = count_cars s ∧ count_bikes s' = count_bikes s ∧
  count_trucks s' = count_trucks s ∧
  csv_file s' = csv_file s ∧ db_conn s' = db_conn s ∧
  frame_count s' = frame_count s ∧
  last_location_check_time s' = last_location_check_time s ∧
  ∃ ms, trace s' = trace s ++ (Print <$> ms).

(** [s'] has the same counted set, log and table as [s], and no further
    event: nothing was counted between them. *)
Definition not_counted (s s' : State) : Prop :=
  counted_ids s' = counted_ids s ∧
  emitted s' = emitted s ∧ inserted s' = inserted s ∧
  csv_file s' = csv_file s ∧ db_conn s' = db_conn s.

(** Between [s] and [s'] exactly the event [r] was counted: it is in the
    counted set, on disk in the log and committed in the table. *)
Definition counted_as (r : Row) (s s' : State) : Prop :=
  counted_ids s' = {[vehicle_id r]} ∪ counted_ids s ∧
  emitted s' = emitted s ++ [r] ∧ inserted s' = inserted s ++ [r] ∧
  csv_file s' = csv_flush (csv_writerow (Event r) (csv_file s)) ∧
  db_conn s' = db_commit (db_execute r (db_conn s)).

(** The exact midpoint of the box, before the sum is rounded and [int]
    truncates the quotient. *)
Definition exact_center (d : Detection) : Q :=
  let '(x1, y1, x2, y2) := coord d in (y1 + y2) / 2.

(** The float32 sum of the two ordinates is finite. *)
Definition finite_center (d : Detection) : Prop :=
  let '(x1, y1, x2, y2) := coord d in Np.overflows (y1 + y2) = false.

(** The location that a poll without news resolves to. *)
Definition resolved (previous : string) : string :=
  if Py.truthy previous then previous else DEFAULT_CAMERA_LOCATION_ID.

(** The poll leaves the location unchanged, or resolves it to the default,
    when the file gives nothing new. *)
Definition no_update (f : FileRead) : Prop :=
  f = NoFile ∨ f = ReadFails
  ∨ ∃ text, f = Contents text ∧ Py.strip text = "".

(** *** The states of one detection *)

(** The first test of the loop body: class and confidence. *)
Definition passes_filter (names : Z → string) (d : Detection) : bool :=
  counted_label (names (cls d)) && Py.float_lt (1 # 2) (conf d).

(** The row written for [d] when the active location is that of [s]. *)
Definition row_of (names : Z → string) (d : Detection) (w : World)
    (s : State) : Row :=
  {| timestamp := now w; vehicle_type := names (cls d);
     vehicle_id := box_id d; location_id := CAMERA_LOCATION_ID s |}.

(** The state after the box and its caption are drawn. *)
Definition annotated (names : Z → string) (d : Detection) (s : State)
  : State :=
  log_effect (DrawBox (names (cls d)) (box_id d)) s.

(** The state in which the writes of a counted detection start. *)
Definition committed (names : Z → string) (d : Detection) (s : State)
  : State :=
  set_counted ({[box_id d]} ∪ counted_ids s) (annotated names d s).

Definition csv_written (r : Row) (s : State) : State :=
  log_effect (CsvWriterow (Event r))
    (set_csv (csv_writerow (Event r) (csv_file s)) s).

Definition csv_flushed (s : State) : State :=
  log_effect CsvFlush (set_csv (csv_flush (csv_file s)) s).

Definition db_executed (r : Row) (s : State) : State :=
  log_effect (DbExecute r) (set_db (db_execute r (db_conn s)) s).

Definition db_committed (s : State) : State :=
  log_effect DbCommit (set_db (db_commit (db_conn s)) s).

(** The state after a counted detection all of whose writes succeeded. *)
Definition counted_state (names : Z → string) (d : Detection) (w : World)
    (s : State) : State :=
  let r := row_of names d w s in
  bump (names (cls d))
    (log_effect (Print (MsgCounted r))
       (db_committed
          (db_executed r
             (csv_flushed (csv_written r (committed names d s)))))).

(** No track identity occurs twice among the events written to the log, nor
    among those sent to the table, and each of them is in the counted set. *)
Definition deduplicated (s : State) : Prop :=
  NoDup (vehicle_id <$> emitted s)
  ∧ NoDup (vehicle_id <$> inserted s)
  ∧ (∀ i, i ∈ vehicle_id <$> emitted s → i ∈ counted_ids s)
  ∧ (∀ i, i ∈ vehicle_id <$> inserted s → i ∈ counted_ids s).

(** The lines that this process has given to the log file, flushed or not
    yet. *)
Definition csv_lines (s : State) : list CsvLine :=
  csv_disk (csv_file s) ++ csv_buffer (csv_file s).

(** The sinks hold what the process wrote.  The log consists of the header,
    when the process wrote one ([csv_new]), and of the emitted events.  The
    table consists of the rows [db0] found at the start and of rows that,
    followed by those of the open transaction, were sent to it in this
    order. *)
Definition sinks_agree (csv_new : bool) (db0 : list Row) (s : State) : Prop :=
  csv_lines s = (if csv_new then [Header] else []) ++ (Event <$> emitted s)
  ∧ ∃ added,
      db_table (db_conn s) = db0 ++ added
      ∧ added ++ db_pending (db_conn s) `sublist_of` inserted s.

(** A step of the process: the counted set only grows and the invariants are
    kept. *)
Definition extends (s s' : State) : Prop :=
  counted_ids s ⊆ counted_ids s'
  ∧ (deduplicated s → deduplicated s')
  ∧ (∀ csv_new db0, sinks_agree csv_new db0 s → sinks_agree csv_new db0 s').

(** A computation all of whose runs, normal or raising, are such steps. *)
Definition stable {A} (m : M A) : Prop :=
  ∀ s, extends s (final_state (m s)).

(** The events of the track [tid] in a list of rows. *)
Definition events_of (tid : Z) (rs : list Row) : list Row :=
  List.filter (λ r, (vehicle_id r =? tid)%Z) rs.

(** *** The queries *)

(** The events of a location on a day that the queries count. *)
Definition day_event `{SQLiteDate} (date location : string) (r : Row)
  : Prop :=
  sql_date (timestamp r) = Some date
  ∧ location_id r = location
  ∧ vehicle_type r ≠ "bus".

(** The number of rows of a vehicle type. *)
Definition count_type (ty : string) (rs : list Row) : nat :=
  length (filter (λ r, vehicle_type r = ty) rs).

#[global] Instance day_event_dec `{SQLiteDate} date location r :
  Decision (day_event date location r).
Proof. unfold day_event. apply _. Defined.

(** The sum of the values of a dictionary. *)
Definition map_sum (m : gmap string nat) : nat :=
  map_fold (λ _ v acc, v + acc) 0 m.

(** The 24 keys of the histogram. *)
Definition hour_keys : list string := hour_key <$> seq 0 24.

(** *** A model of the interface: timestamps as the counter writes them

    The texts [YYYY-MM-DD HH:MM:SS] of [strftime("%Y-%m-%d %H:%M:%S")]: 19
    characters, the hour at positions 11 and 12, the date in the first 10. *)

Definition iso_hour (ts : string) : option nat :=
  if String.length ts =? 19 then
    h ← Py.int_of_str (substring 11 2 ts);
    if h <? 24 then Some h else None
  else None.

Definition iso_date (ts : string) : option string :=
  match iso_hour ts with
  | Some _ => Some (substring 0 10 ts)
  | None => None
  end.

Lemma iso_hour_lt ts h : iso_hour ts = Some h → h < 24.
Proof.
  unfold iso_hour. destruct (String.length ts =? 19); [|done].
  destruct (Py.int_of_str _) as [n|]; simpl; [|done].
  destruct (n <? 24) eqn:E; [|done]. intros [= <-]. by apply Nat.ltb_lt.
Defined.

Lemma iso_date_hour ts : is_Some (iso_date ts) ↔ is_Some (iso_hour ts).
Proof.
  unfold iso_date. destruct (iso_hour ts); split; intros [? ?]; by eauto.
Defined.

Definition iso_timestamps : SQLiteDate :=
  {| sql_date := iso_date; sql_hour := iso_hour;
     sql_hour_lt := iso_hour_lt; sql_date_hour := iso_date_hour |}.

(** The labels of the classes 2, 3, 5 and 7 of the detector's vocabulary,
    for the examples. *)
Definition coco_names (c : Z) : string :=
  if (c =? 2)%Z then "car"
  else if (c =? 3)%Z then "motorcycle"
  else if (c =? 5)%Z then "bus"
  else if (c =? 7)%Z then "truck"
  else "person".

(** ** Data of the examples *)

(** A car whose box is centred on the line, seen with confidence 0.9. *)
Definition car_on_line : Detection :=
  {| box_id := 7; cls := 2; coord := (100, 260, 180, 280)%Q; conf := 9 # 10 |}.

Definition quiet_world : World :=
  {| now := "2024-01-01 08:00:00"; fault := None |}.

(** Three cars near the edges of the band.  The exact midpoint of the first
    is 250.5.  That of the second is [251 - 2 ^ -17]: its upper ordinate is
    the float32 number next below 251, and the float32 sum of the two is
    502.  That of the third is 289.5. *)
Definition car_at_250_5 : Detection :=
  {| box_id := 11; cls := 2; coord := (100, 249, 180, 252)%Q;
     conf := 9 # 10 |}.

Definition car_under_251 : Detection :=
  {| box_id := 12; cls := 2;
     coord := (100, 16449535 # 65536, 180, 251)%Q; conf := 9 # 10 |}.

Definition car_at_289_5 : Detection :=
  {| box_id := 13; cls := 2; coord := (100, 289, 180, 290)%Q;
     conf := 9 # 10 |}.

(** A bus on the line, seen with confidence 0.9. *)
Definition bus_on_line : Detection :=
  {| box_id := 1; cls := 5; coord := (0, 260, 10, 280)%Q; conf := 9 # 10 |}.

(** A pass in which frame 2 shows one car on the line; the insert of its
    event fails.  Frame 4 shows a truck on the line. *)
Definition failing_insert : World :=
  {| now := "2024-01-01 08:00:00"; fault := Some DbExecuteFails |}.

Definition truck_on_line : Detection :=
  {| box_id := 8; cls := 7; coord := (200, 255, 300, 285)%Q; conf := 8 # 10 |}.

Definition frame (bs : list (Detection * World)) : Tick :=
  {| time_time := 1; location_file := NoFile; cap_read := true;
     boxes := Some bs; waitKey := 0 |}.

Definition four_frames : list Tick :=
  [frame []; frame [(car_on_line, failing_insert)];
   frame []; frame [(truck_on_line, quiet_world)]].

(** The three events of one morning at one location. *)
Definition morning_events : list Row :=
  [ {| timestamp := "2024-01-01 08:00:00"; vehicle_type := "car";
       vehicle_id := 1; location_id := "Kudi" |};
    {| timestamp := "2024-01-01 08:15:00"; vehicle_type := "car";
       vehicle_id := 2; location_id := "Kudi" |};
    {| timestamp := "2024-01-01 09:00:00"; vehicle_type := "truck";
       vehicle_id := 3; location_id := "Kudi" |} ].

(** A clock on the first of January 2024, a Monday, shortly after eight. *)
Definition new_year_clock : Clock :=
  {| today := "2024-01-01"; week_start := "2024-01-01";
     current_hour := "08";
     days_ago := λ i, nth i ["2024-01-01"; "2023-12-31"; "2023-12-30";
                             "2023-12-29"; "2023-12-28"; "2023-12-27";
                             "2023-12-26"] "";
     sqlite_week_ago := "2023-12-25";
     weekday_abbr := λ d,
       if String.eqb d "2024-01-01" then "Mon"
       else if String.eqb d "2023-12-31" then "Sun"
       else if String.eqb d "2023-12-30" then "Sat"
       else if String.eqb d "2023-12-29" then "Fri"
       else if String.eqb d "2023-12-28" then "Thu"
       else if String.eqb d "2023-12-27" then "Wed"
       else "Tue" |}.

(** ** Further vocabulary *)

(** A computation that keeps [P] while it runs and ends in [R] when it
    raises. *)
Definition inv {A} (P : State → Prop) (R : Exn → State → Prop) (m : M A)
  : Prop :=
  ∀ s, P s → match m s with Ok _ s' => P s' | Raised e s' => R e s' end.

(** The log and the table hold the same events: the log is the header, when
    the process wrote it, and the emitted events; the table is its initial
    rows and the same events, all committed. *)
Definition in_sync (csv_new : bool) (db0 : list Row) (s : State) : Prop :=
  csv_lines s = (if csv_new then [Header] else []) ++ (Event <$> emitted s)
  ∧ db_conn s = {| db_table := db0 ++ emitted s; db_pending := [] |}.

(** The log is one event ahead of the table. *)
Definition log_ahead (csv_new : bool) (db0 : list Row) (s : State) : Prop :=
  csv_lines s = (if csv_new then [Header] else []) ++ (Event <$> emitted s)
  ∧ ∃ events r,
      emitted s = events ++ [r]
      ∧ db_table (db_conn s) = db0 ++ events.
(** [cleanup] as a function of the state. *)
Definition closed (s : State) : State :=
  log_effect DestroyAllWindows
    (log_effect DbClose
       (set_db {| db_table := db_table (db_conn s); db_pending := [] |}
          (log_effect CapRelease
             (log_effect CsvClose
                (set_csv (csv_flush (csv_file s))
                   (log_effect (Print MsgExiting) s)))))).

(** The three counters are the numbers of cars, motorcycles and trucks among
    the rows [events]. *)
Definition tallied (events : list Row) (s : State) : Prop :=
  count_cars s = count_type "car" events
  ∧ count_bikes s = count_type "motorcycle" events
  ∧ count_trucks s = count_type "truck" events.

(** Every row has one of the three counted labels. *)
Definition counted_rows (events : list Row) : Prop :=
  Forall (λ r, counted_label (vehicle_type r) = true) events.

(** The effects of [cleanup], in their order. *)
Definition closing_effects : list Effect :=
  [Print MsgExiting; CsvClose; CapRelease; DbClose; DestroyAllWindows].

(** A pass of the loop in which ESC is pressed. *)
Definition esc_frame (bs : list (Detection * World)) : Tick :=
  {| time_time := 1; location_file := NoFile; cap_read := true;
     boxes := Some bs; waitKey := 27 |}.

(** What the loop body does with a frame that it looks at: the detections,
    the display, the key. *)
Definition look (names : Z → string) (t : Tick) : M unit :=
  (match boxes t with
   | Some bs => for_each (handle_detection names) bs
   | None => mret tt
   end) ;;
  s ← get;
  emit (ShowFrame (count_cars s) (count_bikes s) (count_trucks s)) ;;
  if (waitKey t =? 27)%Z then cleanup else mret tt.

(** The part of the loop body after the poll of the location. *)
Definition frame_step (names : Z → string) (t : Tick) : M unit :=
  if negb (cap_read t) then print MsgGrabFailed
  else
    modify (λ s, set_frame_count (S (frame_count s)) s) ;;
    s ← get;
    if negb (frame_count s `mod` 2 =? 0) then mret tt
    else look names t.

(** A pass with the same clock, file and grab, without boxes and key. *)
Definition blind (t : Tick) : Tick :=
  {| time_time := time_time t; location_file := location_file t;
     cap_read := cap_read t; boxes := None; waitKey := 0 |}.

(** The passes as the counter sees them when [n] frames have been grabbed
    before: the boxes and the key of a pass count only when its grab
    succeeds and gives a frame of even number. *)
Fixpoint sampled (n : nat) (ticks : list Tick) : list Tick :=
  match ticks with
  | [] => []
  | t :: ticks' =>
      if cap_read t
      then (if S n `mod` 2 =? 0 then t else blind t) :: sampled (S n) ticks'
      else blind t :: sampled n ticks'
  end.

(** The location is [l], and the events emitted since the log held [before]
    carry it. *)
Definition located (l : string) (before : list Row) (s : State) : Prop :=
  CAMERA_LOCATION_ID s = l
  ∧ ∃ new, emitted s = before ++ new ∧ Forall (λ r, location_id r = l) new.

(** What the counter finds when it reads, without error, the location file
    as the web process left it. *)
Definition file_seen (file : option string) : FileRead :=
  match file with
  | Some text => Contents text
  | None => NoFile
  end.

(** A pass, six seconds after the start, in which the location file holds
    the text Ratanada and the frame shows a car on the line. *)
Definition frame_after_selection : Tick :=
  {| time_time := 6; location_file := Contents "Ratanada"; cap_read := true;
     boxes := Some [(car_on_line, quiet_world)]; waitKey := 0 |}.

(** The rows that a query of a location can select: those of that location
    whose type is not bus and whose timestamp is a time value. *)
Definition visible `{SQLiteDate} (location : string) (r : Row) : bool :=
  bool_decide (is_Some (sql_date (timestamp r)))
  && String.eqb (location_id r) location
  && negb (String.eqb (vehicle_type r) "bus").

(** Rows that no query of Kudi selects: another location, a bus, and a
    timestamp that is no time value. *)
Definition foreign_events : list Row :=
  [ {| timestamp := "2024-01-01 08:05:00"; vehicle_type := "car";
       vehicle_id := 4; location_id := "Ratanada" |};
    {| timestamp := "2024-01-01 08:10:00"; vehicle_type := "bus";
       vehicle_id := 5; location_id := "Kudi" |};
    {| timestamp := "yesterday"; vehicle_type := "truck";
       vehicle_id := 6; location_id := "Kudi" |} ].

(** The number of rows that the queries select for one hour of a day. *)
Definition hour_count `{SQLiteDate} (h : nat) (date location : string)
    (db : list Row) : nat :=
  length (List.filter (in_hour (fmt02d h) date location) db).

(** The number of rows that the daily query selects for one date. *)
Definition day_count `{SQLiteDate} (c : Clock) (date location : string)
    (db : list Row) : nat :=
  length (List.filter
            (λ r, bool_decide (sql_date (timestamp r) = Some date)
                  && since_day (sqlite_week_ago c) location r) db).

(** The header line, when this process wrote it. *)
Definition log_header (csv_new : bool) : list CsvLine :=
  if csv_new then [Header] else [].

(** Every event of the log is on disk.  Before the first event nothing is:
    the header waits in the buffer. *)
Definition flushed (csv_new : bool) (s : State) : Prop :=
  csv_file s
  = if decide (emitted s = [])
    then {| csv_disk := []; csv_buffer := log_header csv_new |}
    else {| csv_disk := log_header csv_new ++ (Event <$> emitted s);
            csv_buffer := [] |}.

(** How the log file is left when the process ends by an exception. *)
Definition left_behind (csv_new : bool) (e : Exn) (s : State) : Prop :=
  match e with
  | SystemExit =>
      csv_file s
      = {| csv_disk := log_header csv_new ++ (Event <$> emitted s);
           csv_buffer := [] |}
  | WriteError CsvFlushFails =>
      ∃ events r,
        emitted s = events ++ [r]
        ∧ csv_disk (csv_file s) ++ csv_buffer (csv_file s)
          = log_header csv_new ++ (Event <$> emitted s)
        ∧ csv_disk (csv_file s)
          = if decide (events = []) then []
            else log_header csv_new ++ (Event <$> events)
  | _ => flushed csv_new s
  end.

(** Two passes at the default location: the second frame shows a car and a
    truck on the line. *)
Definition two_on_the_line : list Tick :=
  [frame []; frame [(car_on_line, quiet_world); (truck_on_line, quiet_world)]].

(** The text that a write of [l] leaves in the location file, when it
    opened the file. *)
Definition left_by (writing : FileWrite) (l : string) : option string :=
  match writing with
  | OpenFails => None
  | WriteFails kept => Some (substring 0 kept l)
  | Written => Some l
  end.

(** The texts that the requests leave in the location file, one after the
    other: those of the requests to [/set_location] of a known location
    that open the file. *)
Definition file_texts (hits : list Hit) : list string :=
  omap (λ h, match hit_request h with
             | GetSetLocation l =>
                 if bool_decide (is_Some (LOCATIONS !! l))
                 then left_by (hit_write h) l else None
             | _ => None
             end) hits.

(** The counted set is the set of the identities in the log, each of which
    is there once. *)
Definition logged_ids (s : State) : Prop :=
  counted_ids s = list_to_set (vehicle_id <$> emitted s)
  ∧ NoDup (vehicle_id <$> emitted s).

(** The same, but for one identity that may be counted without event. *)
Definition logged_ids_but_one (s : State) : Prop :=
  NoDup (vehicle_id <$> emitted s)
  ∧ (counted_ids s = list_to_set (vehicle_id <$> emitted s)
     ∨ ∃ i, (i ∉ vehicle_id <$> emitted s)
            ∧ counted_ids s = {[i]} ∪ list_to_set (vehicle_id <$> emitted s)).

(** The detection has a counted label, enough confidence and its centre in
    the zone. *)
Definition qualifies (names : Z → string) (d : Detection) : bool :=
  passes_filter names d && in_zone count_line_position offset (center_y d).

(** The track identities that a pass shows in the zone. *)
Definition in_zone_ids (names : Z → string) (t : Tick) : list Z :=
  match boxes t with
  | Some bs => box_id <$> List.filter (qualifies names) (fst <$> bs)
  | None => []
  end.

(** * Properties *)

(** ** Properties of [read_current_location] *)

Lemma console_only_refl s : console_only s s.
Proof.
  repeat split. exists []. simpl. by rewrite app_nil_r.
Qed.

Lemma omap_prints ms :
  omap emitted_of (Print <$> ms) = [] ∧ omap inserted_of (Print <$> ms) = [].
Proof. induction ms as [|m ms [IH1 IH2]]; [done|]. by split. Qed.

Lemma emitted_print s ms t :
  trace t = trace s ++ (Print <$> ms) →
  emitted t = emitted s ∧ inserted t = inserted s.
Proof.
  intros E. unfold emitted, inserted. rewrite E, !omap_app.
  destruct (omap_prints ms) as [-> ->]. by rewrite !app_nil_r.
Qed.

Ltac console_only_with ms :=
  repeat split; exists ms; simpl; rewrite ?app_nil_r; reflexivity.

Lemma read_current_location_ok f s :
  ∃ s', read_current_location f s = Ok tt s' ∧ console_only s s'.
Proof.
  unfold read_current_location, try_except, mbind, M_bind, open_read, print, emit,
    modify, get, mret, M_ret, raise.
  destruct f as [| |text]; simpl.
  - destruct (Py.truthy (CAMERA_LOCATION_ID s)); simpl;
      eexists; (split; [reflexivity|]); console_only_with (@nil Message).
  - destruct (Py.truthy (CAMERA_LOCATION_ID s)); simpl;
      eexists; (split; [reflexivity|]);
      console_only_with [MsgLocationReadError].
  - destruct (Py.truthy (Py.strip text)
              && negb (Py.strip text =? CAMERA_LOCATION_ID s)%string) eqn:E; simpl.
    + destruct (Py.truthy (Py.strip text)); simpl;
        eexists; (split; [reflexivity|]);
        console_only_with [MsgLocationUpdated (CAMERA_LOCATION_ID s) (Py.strip text)].
    + destruct (Py.truthy (CAMERA_LOCATION_ID s)); simpl;
        eexists; (split; [reflexivity|]); console_only_with (@nil Message).
Qed.

Lemma read_current_location_no_update f s :
  no_update f →
  CAMERA_LOCATION_ID (final_state (read_current_location f s))
  = resolved (CAMERA_LOCATION_ID s).
Proof.
  unfold read_current_location, try_except, mbind, M_bind, open_read, print, emit,
    modify, get, mret, M_ret, raise, resolved.
  intros [-> | [-> | (text & -> & E)]]; simpl.
  - by destruct (Py.truthy (CAMERA_LOCATION_ID s)).
  - by destruct (Py.truthy (CAMERA_LOCATION_ID s)).
  - rewrite E. simpl. by destruct (Py.truthy (CAMERA_LOCATION_ID s)).
Qed.

(** The poll of the loop returns normally, whatever the file and the clock. *)
Lemma poll_location_ok t s : ∃ s', poll_location t s = Ok tt s'.
Proof.
  unfold poll_location, mbind, M_bind, get, modify.
  destruct (Qle_bool _ _); [|by eexists].
  destruct (read_current_location_ok (location_file t) s) as (s' & -> & _).
  by eexists.
Qed.

(** ** Properties of the detection loop *)

Ltac run_handle :=
  unfold handle_detection, faulty, mbind, M_bind, print, emit, modify, get,
    mret, M_ret, raise.

Lemma handle_filtered names d w s :
  passes_filter names d = false → handle_detection names (d, w) s = Ok tt s.
Proof. unfold passes_filter. intros E. run_handle. by rewrite E. Qed.

Lemma handle_outside_or_counted names d w s :
  passes_filter names d = true →
  in_zone count_line_position offset (center_y d)
    && bool_decide (box_id d ∉ counted_ids s) = false →
  handle_detection names (d, w) s = Ok tt (annotated names d s).
Proof.
  unfold passes_filter. intros E1 E2. run_handle. rewrite E1. simpl.
  by rewrite E2.
Qed.

(** The result of the loop body on a detection that passes all four
    tests, by the write that fails. *)
Lemma handle_accepted names d w s :
  passes_filter names d = true →
  in_zone count_line_position offset (center_y d) = true →
  box_id d ∉ counted_ids s →
  handle_detection names (d, w) s =
    let r := row_of names d w s in
    match fault w with
    | None => Ok tt (counted_state names d w s)
    | Some CsvWriteFails =>
        Raised (WriteError CsvWriteFails) (committed names d s)
    | Some CsvFlushFails =>
        Raised (WriteError CsvFlushFails) (csv_written r (committed names d s))
    | Some DbExecuteFails =>
        Raised (WriteError DbExecuteFails)
          (csv_flushed (csv_written r (committed names d s)))
    | Some DbCommitFails =>
        Raised (WriteError DbCommitFails)
          (db_executed r (csv_flushed (csv_written r (committed names d s))))
    end.
Proof.
  unfold passes_filter. intros E1 E2 E3. run_handle. rewrite E1. simpl.
  rewrite E2, bool_decide_eq_true_2 by done. simpl.
  destruct (fault w) as [[]|];
    unfold counted_state, db_committed, db_executed, csv_flushed,
      csv_written, committed, annotated, row_of; simpl; reflexivity.
Qed.


(** ** Arithmetic of the tests *)

Lemma float_lt_spec a b : Py.float_lt a b = true ↔ (a < b)%Q.
Proof.
  unfold Py.float_lt. rewrite Qlt_alt. destruct (a ?= b)%Q; split; congruence.
Qed.

Lemma float_lt_false a b : (b <= a)%Q → Py.float_lt a b = false.
Proof.
  intros L. destruct (Py.float_lt a b) eqn:E; [|done].
  apply float_lt_spec in E. by apply Qle_not_lt in L.
Qed.

Lemma counted_label_spec label :
  counted_label label = true ↔
  label = "car" ∨ label = "motorcycle" ∨ label = "truck".
Proof.
  unfold counted_label. rewrite bool_decide_eq_true, !elem_of_cons, elem_of_nil.
  tauto.
Qed.

Lemma in_zone_spec line off c :
  in_zone line off c = true ↔ (line - off < c < line + off)%Z.
Proof. unfold in_zone. rewrite andb_true_iff, !Z.ltb_lt. tauto. Qed.

Lemma in_zone_boundary line off :
  (0 < off)%Z →
  in_zone line off (line + off) = false
  ∧ in_zone line off (line - off) = false
  ∧ in_zone line off line = true.
Proof.
  intros Hoff. repeat split.
  - apply not_true_is_false. rewrite in_zone_spec. lia.
  - apply not_true_is_false. rewrite in_zone_spec. lia.
  - apply in_zone_spec. lia.
Qed.

Lemma band_of_quotient (n d q r : Z) :
  (0 < d)%Z → n = (d * q + r)%Z →
  (0 <= n ∧ 0 <= r < d)%Z ∨ (n <= 0 ∧ - d < r <= 0)%Z →
  (270 - 20 < q < 270 + 20)%Z ↔ (251 * d <= n * 1 ∧ n * 1 < 290 * d)%Z.
Proof.
  intros Hd E B.
  assert (K1 : (251 <= q → 251 * d <= d * q)%Z) by nia.
  assert (K2 : (q <= 289 → d * q <= 289 * d)%Z) by nia.
  assert (K3 : (q <= 250 → d * q <= 250 * d)%Z) by nia.
  assert (K4 : (290 <= q → 290 * d <= d * q)%Z) by nia.
  assert (K5 : (0 <= n → 0 <= q)%Z) by nia.
  assert (K6 : (n <= 0 → q <= 0)%Z) by nia.
  split.
  - intros [H1 H2]. destruct B as [[B1 B2]|[B1 B2]]; lia.
  - intros [H1 H2]. destruct B as [[B1 B2]|[B1 B2]]; split; lia.
Qed.

(** Truncation moves the lower edge of the band up to the next pixel. *)
Lemma in_zone_truncated (q : Q) :
  in_zone count_line_position offset (Py.int_of_float q) = true
  ↔ (251 <= q)%Q ∧ (q < 290)%Q.
Proof.
  rewrite in_zone_spec. unfold Py.int_of_float, count_line_position, offset.
  destruct q as [n d]. unfold Qle, Qlt. simpl Qnum. simpl Qden.
  apply (band_of_quotient n (Z.pos d) _ (Z.rem n (Z.pos d))); [lia| |].
  - apply Z.quot_rem'.
  - destruct (Z_le_gt_dec 0 n) as [Hn|Hn].
    + left. split; [done|]. apply Z.rem_bound_pos; lia.
    + right. split; [lia|]. apply Z.rem_bound_pos_neg; lia.
Qed.

(** ** The float32 sum of the centre *)

Lemma rint_cases y :
  (Np.rint y = Qfloor y ∧ (y - inject_Z (Qfloor y) <= 1 # 2)%Q
   ∧ ((y - inject_Z (Qfloor y) == 1 # 2)%Q → Z.even (Qfloor y) = true))
  ∨ (Np.rint y = (Qfloor y + 1)%Z ∧ (1 # 2 <= y - inject_Z (Qfloor y))%Q
     ∧ ((y - inject_Z (Qfloor y) == 1 # 2)%Q → Z.even (Qfloor y) = false)).
Proof.
  unfold Np.rint. cbv zeta.
  destruct (Qcompare_spec (y - inject_Z (Qfloor y)) (1 # 2)) as [E|E|E].
  - destruct (Z.even (Qfloor y)) eqn:Ev.
    + left. split; [done|]. split; [|done]. rewrite E. apply Qle_refl.
    + right. split; [done|]. split; [|done]. rewrite E. apply Qle_refl.
  - left. split; [done|]. split; [by apply Qlt_le_weak|].
    intros E'. rewrite E' in E. by apply Qlt_irrefl in E.
  - right. split; [done|]. split; [by apply Qlt_le_weak|].
    intros E'. rewrite E' in E. by apply Qlt_irrefl in E.
Qed.

Lemma floor_bounds y :
  (inject_Z (Qfloor y) <= y)%Q ∧ (y < inject_Z (Qfloor y) + 1)%Q.
Proof.
  split; [apply Qfloor_le|].
  pose proof (Qlt_floor y) as H. by rewrite inject_Z_plus in H.
Qed.

Lemma rint_le_int y K : (y <= inject_Z K)%Q → (Np.rint y <= K)%Z.
Proof.
  intros Hy. destruct (floor_bounds y) as [F1 F2].
  destruct (rint_cases y) as [(-> & _)|(-> & H & _)].
  - rewrite Zle_Qle. lra.
  - assert (L : (inject_Z (Qfloor y) < inject_Z K)%Q) by lra.
    rewrite <- Zlt_Qlt in L. lia.
Qed.

Lemma rint_ge_int y K : (inject_Z K <= y)%Q → (K <= Np.rint y)%Z.
Proof.
  intros Hy. apply Qfloor_resp_le in Hy. rewrite Qfloor_Z in Hy.
  destruct (rint_cases y) as [(-> & _)|(-> & _)]; lia.
Qed.

Lemma rint_ge_even y K :
  Z.even K = true →
  (K <= Np.rint y)%Z ↔ (inject_Z K - (1 # 2) <= y)%Q.
Proof.
  intros Ev. destruct (floor_bounds y) as [F1 F2]. split.
  - intros H. destruct (rint_cases y) as [(E & _)|(E & H1 & _)];
      rewrite E in H; rewrite Zle_Qle in H; [lra|].
    rewrite inject_Z_plus in H. change (inject_Z 1) with 1%Q in H. lra.
  - intros H.
    assert (L : (inject_Z K < inject_Z (Qfloor y + 2))%Q).
    { rewrite inject_Z_plus. change (inject_Z 2) with 2%Q. lra. }
    rewrite <- Zlt_Qlt in L.
    destruct (rint_cases y) as [(-> & H1 & H2)|(-> & _)]; [|lia].
    destruct (Z.eq_dec (Qfloor y) (K - 1)%Z) as [E|]; [|lia]. exfalso.
    assert (E' : (inject_Z (Qfloor y) == inject_Z K - 1)%Q).
    { rewrite E. unfold Z.sub. by rewrite inject_Z_plus. }
    assert (Eq : (y - inject_Z (Qfloor y) == 1 # 2)%Q) by lra.
    apply H2 in Eq. rewrite E in Eq.
    replace (K - 1)%Z with (Z.pred K) in Eq by lia.
    rewrite Z.even_pred in Eq. rewrite <- Z.negb_even in Eq.
    rewrite Ev in Eq. done.
Qed.

Lemma pow2_pos k : (0 <= k)%Z → (0 < inject_Z (2 ^ k))%Q.
Proof.
  intros Hk. change 0%Q with (inject_Z 0). rewrite <- Zlt_Qlt.
  by apply Z.pow_pos_nonneg.
Qed.

Lemma pow2_split a b :
  (0 <= a)%Z → (0 <= b)%Z →
  (inject_Z (2 ^ (a + b)) == inject_Z (2 ^ a) * inject_Z (2 ^ b))%Q.
Proof. intros Ha Hb. by rewrite Z.pow_add_r, inject_Z_mult. Qed.

Lemma round24_nonneg m : (0 <= m)%Q → (0 <= Np.round24 m)%Z.
Proof.
  intros Hm. unfold Np.round24. cbv zeta.
  set (sh := Z.max _ 0). assert (Hs : (0 <= sh)%Z) by lia.
  apply Z.mul_nonneg_nonneg; [|apply Z.pow_nonneg; lia].
  apply rint_ge_int. change (inject_Z 0) with 0%Q.
  apply Qle_shift_div_l; [by apply pow2_pos|]. lra.
Qed.

Lemma round24_le m k :
  (0 <= k)%Z → (m <= inject_Z (2 ^ k))%Q → (Np.round24 m <= 2 ^ k)%Z.
Proof.
  intros Hk Hm. unfold Np.round24. cbv zeta.
  set (sh := Z.max _ 0).
  assert (Hs : (0 <= sh <= k)%Z).
  { subst sh. split; [lia|].
    assert (F : (Qfloor m <= 2 ^ k)%Z).
    { apply Qfloor_resp_le in Hm. by rewrite Qfloor_Z in Hm. }
    assert (L : (Z.log2 (Qfloor m) <= k)%Z).
    { apply Z.log2_le_mono in F. by rewrite Z.log2_pow2 in F. }
    lia. }
  assert (E : (2 ^ k = 2 ^ (k - sh) * 2 ^ sh)%Z).
  { rewrite <- Z.pow_add_r by lia. f_equal. lia. }
  rewrite E.
  apply Z.mul_le_mono_nonneg_r; [apply Z.pow_nonneg; lia|].
  apply rint_le_int. apply Qle_shift_div_r; [apply pow2_pos; lia|].
  by rewrite <- inject_Z_mult, <- E.
Qed.

Lemma round24_ge m k :
  (0 <= k)%Z → (inject_Z (2 ^ k) <= m)%Q → (2 ^ k <= Np.round24 m)%Z.
Proof.
  intros Hk Hm. unfold Np.round24. cbv zeta.
  assert (F : (2 ^ k <= Qfloor m)%Z).
  { apply Qfloor_resp_le in Hm. by rewrite Qfloor_Z in Hm. }
  assert (P : (0 < Qfloor m)%Z).
  { pose proof (Z.pow_pos_nonneg 2 k). lia. }
  assert (L : (k <= Z.log2 (Qfloor m))%Z) by (by apply Z.log2_le_pow2).
  destruct (Z.log2_spec (Qfloor m) P) as [S1 _].
  set (l := Z.log2 (Qfloor m)) in *. set (sh := Z.max _ 0).
  assert (Hs : (0 <= sh <= l)%Z) by lia.
  transitivity (2 ^ l)%Z; [apply Z.pow_le_mono_r; lia|].
  assert (E : (2 ^ l = 2 ^ (l - sh) * 2 ^ sh)%Z).
  { rewrite <- Z.pow_add_r by lia. f_equal. lia. }
  rewrite E.
  apply Z.mul_le_mono_nonneg_r; [apply Z.pow_nonneg; lia|].
  apply rint_ge_int. apply Qle_shift_div_l; [apply pow2_pos; lia|].
  rewrite <- inject_Z_mult, <- E.
  apply Qle_trans with (inject_Z (Qfloor m)); [by rewrite <- Zle_Qle|].
  apply Qfloor_le.
Qed.

Lemma round24_binade m k :
  (23 <= k)%Z →
  (inject_Z (2 ^ k) <= m)%Q → (m < inject_Z (2 ^ (k + 1)))%Q →
  Np.round24 m
  = (Np.rint (m / inject_Z (2 ^ (k - 23))) * 2 ^ (k - 23))%Z.
Proof.
  intros Hk Lo Hi. unfold Np.round24. cbv zeta.
  assert (F1 : (2 ^ k <= Qfloor m)%Z).
  { apply Qfloor_resp_le in Lo. by rewrite Qfloor_Z in Lo. }
  assert (F2 : (Qfloor m < 2 ^ (k + 1))%Z).
  { rewrite Zlt_Qlt. apply Qle_lt_trans with m; [apply Qfloor_le|done]. }
  rewrite (Z.log2_unique (Qfloor m) k) by (unfold Z.succ; lia).
  by rewrite Z.max_l by lia.
Qed.

(** A number [K * 2 ^ (k - 23)] of the binade of [2 ^ k] with an even [K] is
    reached from half a unit below it. *)
Lemma round24_ge_even m k K :
  (23 <= k)%Z → Z.even K = true → (2 ^ 23 < K < 2 ^ 24)%Z →
  (K * 2 ^ (k - 23) <= Np.round24 m)%Z
  ↔ ((inject_Z K - (1 # 2)) * inject_Z (2 ^ (k - 23)) <= m)%Q.
Proof.
  intros Hk Ev [K1 K2].
  pose proof (pow2_pos (k - 23)) as Pq. specialize (Pq ltac:(lia)).
  assert (Zq : (0 < 2 ^ (k - 23))%Z) by (apply Z.pow_pos_nonneg; lia).
  assert (Ek : (2 ^ k = 2 ^ 23 * 2 ^ (k - 23))%Z).
  { rewrite <- Z.pow_add_r by lia. f_equal. lia. }
  assert (Ek1 : (2 ^ (k + 1) = 2 ^ 24 * 2 ^ (k - 23))%Z).
  { rewrite <- Z.pow_add_r by lia. f_equal. lia. }
  set (q := (2 ^ (k - 23))%Z) in *.
  assert (IK1 : (inject_Z (2 ^ 23) + 1 <= inject_Z K)%Q).
  { change 1%Q with (inject_Z 1). rewrite <- inject_Z_plus, <- Zle_Qle. lia. }
  assert (IK2 : (inject_Z K + 1 <= inject_Z (2 ^ 24))%Q).
  { change 1%Q with (inject_Z 1). rewrite <- inject_Z_plus, <- Zle_Qle. lia. }
  destruct (Qlt_le_dec m (inject_Z (2 ^ k))) as [Lo|Lo].
  { split.
    - intros H. apply Qlt_le_weak in Lo.
      pose proof (round24_le m k ltac:(lia) Lo). nia.
    - intros H. exfalso. rewrite Ek, inject_Z_mult in Lo.
      apply (Qlt_irrefl m). eapply Qlt_le_trans; [exact Lo|].
      eapply Qle_trans; [|exact H].
      apply Qmult_le_compat_r; [lra|by apply Qlt_le_weak]. }
  destruct (Qlt_le_dec m (inject_Z (2 ^ (k + 1)))) as [Hi|Hi].
  - rewrite (round24_binade m k) by done. fold q.
    assert (Nq : ¬ (inject_Z q == 0)%Q) by lra.
    split.
    + intros H. apply Z.mul_le_mono_pos_r in H; [|done].
      apply rint_ge_even in H; [|done].
      apply (Qmult_le_compat_r _ _ (inject_Z q)) in H; [|lra].
      by rewrite (Qmult_comm (m / inject_Z q)), Qmult_div_r in H.
    + intros H. apply Z.mul_le_mono_pos_r; [done|].
      apply rint_ge_even; [done|]. by apply Qle_shift_div_l.
  - split.
    + intros _. eapply Qle_trans; [|exact Hi].
      rewrite Ek1, inject_Z_mult.
      apply Qmult_le_compat_r; [lra|by apply Qlt_le_weak].
    + intros _. pose proof (round24_ge m (k + 1) ltac:(lia) Hi). nia.
Qed.

Lemma div_le_div a b p : (0 < p)%Q → (a / p <= b / p)%Q ↔ (a <= b)%Q.
Proof.
  intros Hp. unfold Qdiv. apply Qmult_le_r. by apply Qinv_lt_0_compat.
Qed.

Lemma float32_ge_even x k K :
  (23 <= k)%Z → Z.even K = true → (2 ^ 23 < K < 2 ^ 24)%Z →
  (inject_Z (K * 2 ^ (k - 23)) / inject_Z (2 ^ 149) <= Np.float32 x)%Q
  ↔ ((inject_Z K - (1 # 2)) * inject_Z (2 ^ (k - 23)) / inject_Z (2 ^ 149)
     <= x)%Q.
Proof.
  intros Hk Ev HK. unfold Np.float32. cbv zeta.
  pose proof (pow2_pos 149 ltac:(lia)) as Pp.
  pose proof (pow2_pos (k - 23) ltac:(lia)) as Pq.
  set (p := inject_Z (2 ^ 149)) in *.
  assert (IK : (inject_Z (2 ^ 23) + 1 <= inject_Z K)%Q).
  { change 1%Q with (inject_Z 1). rewrite <- inject_Z_plus, <- Zle_Qle. lia. }
  assert (I23 : (0 < inject_Z (2 ^ 23))%Q) by (apply pow2_pos; lia).
  assert (Tpos : (0 < (inject_Z K - (1 # 2)) * inject_Z (2 ^ (k - 23)))%Q).
  { apply Qmult_lt_0_compat; lra. }
  assert (Tpos' : (0 < inject_Z (K * 2 ^ (k - 23)))%Q).
  { rewrite inject_Z_mult. apply Qmult_lt_0_compat; lra. }
  destruct (Qle_bool 0 x) eqn:Hx.
  - apply Qle_bool_iff in Hx. rewrite div_le_div by done.
    rewrite <- Zle_Qle, (round24_ge_even _ k K) by done.
    rewrite (Qabs_pos x Hx). split.
    + intros H. by apply Qle_shift_div_r.
    + intros H. apply (Qmult_le_compat_r _ _ p) in H; [|lra].
      assert (Np' : ¬ (p == 0)%Q) by lra.
      by rewrite (Qmult_comm (_ / p)), Qmult_div_r in H.
  - assert (Hx' : (x < 0)%Q).
    { apply Qnot_le_lt. intros H. apply Qle_bool_iff in H. congruence. }
    pose proof (round24_nonneg (Qabs x * p)) as Hn.
    assert (Hm : (0 <= Qabs x * p)%Q).
    { apply Qmult_le_0_compat; [apply Qabs_nonneg|lra]. }
    specialize (Hn Hm). rewrite Zle_Qle in Hn.
    change (inject_Z 0) with 0%Q in Hn.
    set (n := inject_Z (Np.round24 (Qabs x * p))) in *.
    split.
    + intros H. exfalso. rewrite div_le_div in H by done. lra.
    + intros H. exfalso.
      assert (L : (0 < (inject_Z K - (1 # 2)) * inject_Z (2 ^ (k - 23)) / p)%Q).
      { apply Qlt_shift_div_l; [done|]. lra. }
      lra.
Qed.

Lemma float32_ge_502 x :
  (502 <= Np.float32 x)%Q ↔ (502 - (1 # 65536) <= x)%Q.
Proof.
  pose proof (float32_ge_even x 157 16449536) as H.
  assert (E1 : (inject_Z (16449536 * 2 ^ (157 - 23)) / inject_Z (2 ^ 149)
                == 502)%Q) by (by vm_compute).
  assert (E2 : ((inject_Z 16449536 - (1 # 2)) * inject_Z (2 ^ (157 - 23))
                / inject_Z (2 ^ 149) == 502 - (1 # 65536))%Q)
    by (by vm_compute).
  rewrite E1, E2 in H. apply H; [lia|done|lia].
Qed.

Lemma float32_ge_580 x :
  (580 <= Np.float32 x)%Q ↔ (580 - (1 # 32768) <= x)%Q.
Proof.
  pose proof (float32_ge_even x 158 9502720) as H.
  assert (E1 : (inject_Z (9502720 * 2 ^ (158 - 23)) / inject_Z (2 ^ 149)
                == 580)%Q) by (by vm_compute).
  assert (E2 : ((inject_Z 9502720 - (1 # 2)) * inject_Z (2 ^ (158 - 23))
                / inject_Z (2 ^ 149) == 580 - (1 # 32768))%Q)
    by (by vm_compute).
  rewrite E1, E2 in H. apply H; [lia|done|lia].
Qed.

(** The rounding of the sum moves both edges of the accepted midpoints down
    by half a unit of the last place of the sum. *)
Lemma center_y_in_zone d :
  in_zone count_line_position offset (center_y d) = true
  ↔ (251 - (1 # 131072) <= exact_center d)%Q
    ∧ (exact_center d < 290 - (1 # 65536))%Q.
Proof.
  unfold center_y, exact_center, Np.add32.
  destruct (coord d) as [[[x1 y1] x2] y2].
  rewrite in_zone_truncated. set (x := (y1 + y2)%Q).
  pose proof (float32_ge_502 x) as H1. pose proof (float32_ge_580 x) as H2.
  assert (Half : ∀ z, (z / 2 == z * (1 # 2))%Q) by (by intros z).
  rewrite !Half.
  split.
  - intros [A B].
    assert (A' : (502 <= Np.float32 x)%Q) by lra.
    assert (B' : ¬ (580 <= Np.float32 x)%Q) by lra.
    apply H1 in A'. rewrite H2 in B'. lra.
  - intros [A B].
    assert (A' : (502 - (1 # 65536) <= x)%Q) by lra.
    assert (B' : ¬ (580 - (1 # 32768) <= x)%Q) by lra.
    apply H1 in A'. rewrite <- H2 in B'. lra.
Qed.

(** ** What one detection does to the state *)

Lemma for_each_cons {X} (body : X → M unit) x l s :
  for_each body (x :: l) s =
    match body x s with
    | Ok _ s' => for_each body l s'
    | Raised e s' => Raised e s'
    end.
Proof. reflexivity. Qed.

Lemma for_each_nil {X} (body : X → M unit) s : for_each body [] s = Ok tt s.
Proof. reflexivity. Qed.

Lemma bump_keeps label s :
  CAMERA_LOCATION_ID (bump label s) = CAMERA_LOCATION_ID s
  ∧ counted_ids (bump label s) = counted_ids s
  ∧ csv_file (bump label s) = csv_file s
  ∧ db_conn (bump label s) = db_conn s
  ∧ trace (bump label s) = trace s.
Proof.
  unfold bump.
  destruct (label =? "car")%string; [done|].
  destruct (label =? "motorcycle")%string; [done|].
  by destruct (label =? "truck")%string.
Qed.

Lemma not_counted_refl s : not_counted s s.
Proof. by repeat split. Qed.

Lemma not_counted_annotated names d s : not_counted s (annotated names d s).
Proof.
  unfold not_counted, annotated, emitted, inserted. simpl.
  rewrite !omap_app. simpl. by rewrite !app_nil_r.
Qed.

Lemma counted_as_counted_state names d w s :
  counted_as (row_of names d w s) s (counted_state names d w s).
Proof.
  unfold counted_as, counted_state, emitted, inserted.
  destruct (bump_keeps (names (cls d))
    (log_effect (Print (MsgCounted (row_of names d w s)))
       (db_committed
          (db_executed (row_of names d w s)
             (csv_flushed (csv_written (row_of names d w s)
                (committed names d s)))))))
    as (_ & -> & -> & -> & ->).
  unfold db_committed, db_executed, csv_flushed, csv_written, committed,
    annotated. simpl.
  rewrite !omap_app. simpl. rewrite !app_nil_r.
  done.
Qed.

(** A detection that fails one of the four tests leaves no event. *)
Lemma handle_rejected names d w s :
  passes_filter names d
    && in_zone count_line_position offset (center_y d)
    && bool_decide (box_id d ∉ counted_ids s) = false →
  ∃ s', handle_detection names (d, w) s = Ok tt s' ∧ not_counted s s'.
Proof.
  intros E. destruct (passes_filter names d) eqn:E1.
  - exists (annotated names d s). split; [|apply not_counted_annotated].
    apply handle_outside_or_counted; [done|]. by rewrite <- E.
  - exists s. split; [by apply handle_filtered | apply not_counted_refl].
Qed.

(** ** The claims on the counter *)

(** C8. A poll of the location file that finds it missing, unreadable or
    blank returns normally, changes nothing but the console, and resolves
    the active location to the value held before, or to the hardcoded
    default when that value is empty; the loop's poll returns normally
    too. *)
Theorem read_current_location_fallback (f : FileRead) (s : State) :
  no_update f →
  (∃ s', read_current_location f s = Ok tt s'
         ∧ CAMERA_LOCATION_ID s' = resolved (CAMERA_LOCATION_ID s)
         ∧ resolved "" = DEFAULT_CAMERA_LOCATION_ID
         ∧ console_only s s')
  ∧ ∀ t, location_file t = f → ∃ s', poll_location t s = Ok tt s'.
Proof.
  intros Hf. split.
  - destruct (read_current_location_ok f s) as (s' & E & Hc).
    exists s'. repeat split; try apply Hc; try done.
    pose proof (read_current_location_no_update f s Hf) as L.
    by rewrite E in L.
  - intros t _. apply poll_location_ok.
Qed.

Lemma read_current_location_fallback_witness :
  (∃ s', read_current_location ReadFails
           (set_location "" (module_init false [])) = Ok tt s'
         ∧ CAMERA_LOCATION_ID s'
           = resolved
               (CAMERA_LOCATION_ID (set_location "" (module_init false [])))
         ∧ resolved "" = DEFAULT_CAMERA_LOCATION_ID
         ∧ console_only (set_location "" (module_init false [])) s')
  ∧ ∀ t, location_file t = ReadFails →
         ∃ s', poll_location t (set_location "" (module_init false []))
               = Ok tt s'.
Proof.
  apply read_current_location_fallback. right. left. reflexivity.
Defined.

(** C2. A detection whose label is none of car, truck and motorcycle, or
    whose confidence is at most 0.5, leaves the state as it was, wherever
    its box lies: nothing is drawn, counted, logged or inserted, and the
    frame is handled as if the detection were not in it. *)
Theorem filtered_detection_is_ignored (names : Z → string) (d : Detection) :
  (names (cls d) ≠ "car" ∧ names (cls d) ≠ "truck"
   ∧ names (cls d) ≠ "motorcycle")
  ∨ (conf d <= 1 # 2)%Q →
  ∀ w s,
    handle_detection names (d, w) s = Ok tt s
    ∧ ∀ before after,
        for_each (handle_detection names) (before ++ (d, w) :: after) s
        = for_each (handle_detection names) (before ++ after) s.
Proof.
  intros Hd.
  assert (F : passes_filter names d = false).
  { unfold passes_filter. destruct Hd as [(H1 & H2 & H3)|Hc].
    - apply andb_false_intro1, not_true_is_false.
      rewrite counted_label_spec. tauto.
    - apply andb_false_intro2. by apply float_lt_false. }
  intros w s. split; [by apply handle_filtered|].
  intros before. revert s.
  induction before as [|x before IH]; intros s after.
  - rewrite !app_nil_l, for_each_cons. by rewrite handle_filtered.
  - rewrite <- !app_comm_cons, !for_each_cons.
    destruct (handle_detection names x s); [|done]. apply IH.
Qed.

Lemma filtered_detection_is_ignored_witness :
  handle_detection coco_names (bus_on_line, quiet_world)
    (module_init false []) = Ok tt (module_init false [])
  ∧ ∀ before after,
      for_each (handle_detection coco_names)
        (before ++ (bus_on_line, quiet_world) :: after) (module_init false [])
      = for_each (handle_detection coco_names) (before ++ after)
          (module_init false []).
Proof.
  apply filtered_detection_is_ignored. left. by vm_compute.
Defined.

(** C3. The zone test is strict.  For a detection that passes the class and
    confidence test, is not yet counted and whose writes succeed: with the
    truncated centre exactly on an edge of the band, [count_line_position +
    offset] or [count_line_position - offset], nothing is counted; with the
    centre exactly on the line the event is counted.  The edges are excluded
    and the line included for every line and every positive tolerance. *)
Theorem zone_boundary_is_strict (names : Z → string) (d : Detection)
    (w : World) (s : State) :
  passes_filter names d = true →
  box_id d ∉ counted_ids s →
  fault w = None →
  (center_y d = (count_line_position + offset)%Z →
   ∃ s', handle_detection names (d, w) s = Ok tt s' ∧ not_counted s s')
  ∧ (center_y d = (count_line_position - offset)%Z →
     ∃ s', handle_detection names (d, w) s = Ok tt s' ∧ not_counted s s')
  ∧ (center_y d = count_line_position →
     ∃ s', handle_detection names (d, w) s = Ok tt s'
           ∧ counted_as (row_of names d w s) s s')
  ∧ (0 < offset)%Z
  ∧ (∀ line off, (0 < off)%Z →
       in_zone line off (line + off) = false
       ∧ in_zone line off (line - off) = false
       ∧ in_zone line off line = true).
Proof.
  intros Hp Hc Hw.
  destruct (in_zone_boundary count_line_position offset) as (Hi & Lo & Mid);
    [done|].
  repeat split.
  - intros E. apply handle_rejected. by rewrite E, Hi, andb_false_r.
  - intros E. apply handle_rejected. by rewrite E, Lo, andb_false_r.
  - intros E. exists (counted_state names d w s).
    split; [|apply counted_as_counted_state].
    rewrite handle_accepted by (by rewrite ?E). by rewrite Hw.
  - apply in_zone_boundary. done.
  - by apply in_zone_boundary.
  - by apply in_zone_boundary.
Qed.

Lemma zone_boundary_is_strict_witness :
  ∃ s', handle_detection coco_names (car_on_line, quiet_world)
          (module_init false []) = Ok tt s'
        ∧ counted_as
            {| timestamp := "2024-01-01 08:00:00"; vehicle_type := "car";
               vehicle_id := 7; location_id := "jodhpur" |}
            (module_init false []) s'.
Proof.
  destruct (zone_boundary_is_strict coco_names car_on_line quiet_world
              (module_init false [])) as (_ & _ & H & _).
  - reflexivity.
  - simpl. apply not_elem_of_empty.
  - reflexivity.
  - apply H. reflexivity.
Defined.

(** C10. The zone test reads the truncated centre [int((y1 + y2) / 2)], the
    sum being that of float32, and not the exact midpoint.  A detection that
    passes the class and confidence test, is not yet counted, whose writes
    succeed and whose sum is finite is counted exactly when its exact
    midpoint lies between [251 - 2 ^ -17], included, and [290 - 2 ^ -16],
    excluded, and is not counted otherwise.  So a box whose exact centre
    lies in the band but below this, such as 250.5, is not counted, and one
    whose exact centre is within a pixel of the upper edge, such as 289.5,
    is. *)
Theorem zone_test_on_truncated_center (names : Z → string) (d : Detection)
    (w : World) (s : State) :
  passes_filter names d = true →
  box_id d ∉ counted_ids s →
  fault w = None →
  finite_center d →
  (in_zone count_line_position offset (center_y d) = true
   ↔ (251 - (1 # 131072) <= exact_center d)%Q
     ∧ (exact_center d < 290 - (1 # 65536))%Q)
  ∧ ((251 - (1 # 131072) <= exact_center d)%Q →
     (exact_center d < 290 - (1 # 65536))%Q →
     ∃ s', handle_detection names (d, w) s = Ok tt s'
           ∧ counted_as (row_of names d w s) s s')
  ∧ ((exact_center d < 251 - (1 # 131072))%Q
     ∨ (290 - (1 # 65536) <= exact_center d)%Q →
     ∃ s', handle_detection names (d, w) s = Ok tt s' ∧ not_counted s s').
Proof.
  intros Hp Hc Hw _. split; [apply center_y_in_zone|]. split.
  - intros Lo Hi. exists (counted_state names d w s).
    split; [|apply counted_as_counted_state].
    rewrite handle_accepted; [by rewrite Hw|done| |done].
    by apply center_y_in_zone.
  - intros Out. apply handle_rejected.
    assert (Z : in_zone count_line_position offset (center_y d) = false).
    { apply not_true_is_false. rewrite center_y_in_zone. intros [Lo Hi].
      destruct Out as [Out|Out]; lra. }
    by rewrite Z, andb_false_r.
Qed.

Lemma zone_test_on_truncated_center_witness :
  ((exact_center car_at_250_5 == 501 # 2)%Q
   ∧ center_y car_at_250_5 = 250%Z
   ∧ ∃ s', handle_detection coco_names (car_at_250_5, quiet_world)
             (module_init false []) = Ok tt s'
           ∧ not_counted (module_init false []) s')
  ∧ ((exact_center car_under_251 == 251 - (1 # 131072))%Q
     ∧ center_y car_under_251 = 251%Z
     ∧ ∃ s', handle_detection coco_names (car_under_251, quiet_world)
               (module_init false []) = Ok tt s'
             ∧ counted_as
                 (row_of coco_names car_under_251 quiet_world
                    (module_init false []))
                 (module_init false []) s')
  ∧ ((exact_center car_at_289_5 == 579 # 2)%Q
     ∧ center_y car_at_289_5 = 289%Z
     ∧ ∃ s', handle_detection coco_names (car_at_289_5, quiet_world)
               (module_init false []) = Ok tt s'
             ∧ counted_as
                 (row_of coco_names car_at_289_5 quiet_world
                    (module_init false []))
                 (module_init false []) s').
Proof.
  split; [|split].
  - split; [by vm_compute|]. split; [by vm_compute|].
    destruct (zone_test_on_truncated_center coco_names car_at_250_5
                quiet_world (module_init false [])) as (_ & _ & H).
    + by vm_compute.
    + simpl. apply not_elem_of_empty.
    + reflexivity.
    + by vm_compute.
    + apply H. left. by vm_compute.
  - split; [by vm_compute|]. split; [by vm_compute|].
    destruct (zone_test_on_truncated_center coco_names car_under_251
                quiet_world (module_init false [])) as (_ & H & _).
    + by vm_compute.
    + simpl. apply not_elem_of_empty.
    + reflexivity.
    + by vm_compute.
    + apply H; by vm_compute.
  - split; [by vm_compute|]. split; [by vm_compute|].
    destruct (zone_test_on_truncated_center coco_names car_at_289_5
                quiet_world (module_init false [])) as (_ & H & _).
    + by vm_compute.
    + simpl. apply not_elem_of_empty.
    + reflexivity.
    + by vm_compute.
    + apply H; by vm_compute.
Defined.

(** ** The deduplication invariant *)

Lemma sinks_agree_same h db0 s s' :
  csv_file s' = csv_file s → db_conn s' = db_conn s →
  emitted s' = emitted s → inserted s' = inserted s →
  sinks_agree h db0 s → sinks_agree h db0 s'.
Proof.
  unfold sinks_agree, csv_lines. by intros -> -> -> ->.
Qed.

Lemma sinks_log_quiet h db0 e s :
  emitted_of e = None → inserted_of e = None →
  sinks_agree h db0 s → sinks_agree h db0 (log_effect e s).
Proof.
  intros E1 E2. apply sinks_agree_same; try done;
    unfold emitted, inserted; simpl; rewrite omap_app; simpl;
    rewrite ?E1, ?E2; simpl; by rewrite app_nil_r.
Qed.

Lemma sinks_committed h db0 names d s :
  sinks_agree h db0 s → sinks_agree h db0 (committed names d s).
Proof.
  intros Hs. unfold committed.
  apply (sinks_agree_same h db0 (annotated names d s)); try done.
  by apply sinks_log_quiet.
Qed.

Lemma sinks_csv_written h db0 r s :
  sinks_agree h db0 s → sinks_agree h db0 (csv_written r s).
Proof.
  unfold sinks_agree, csv_lines, csv_written, emitted, inserted. simpl.
  intros [Hcsv Hdb]. rewrite !omap_app. simpl. rewrite app_nil_r. split; [|done].
  by rewrite fmap_app, !app_assoc, Hcsv.
Qed.

Lemma sinks_csv_flushed h db0 s :
  sinks_agree h db0 s → sinks_agree h db0 (csv_flushed s).
Proof.
  unfold sinks_agree, csv_lines, csv_flushed, emitted, inserted. simpl.
  intros [Hcsv Hdb]. rewrite !omap_app. simpl. by rewrite !app_nil_r.
Qed.

Lemma sinks_db_executed h db0 r s :
  sinks_agree h db0 s → sinks_agree h db0 (db_executed r s).
Proof.
  unfold sinks_agree, csv_lines, db_executed, emitted, inserted. simpl.
  intros [Hcsv (added & Ht & Hsub)]. rewrite !omap_app. simpl.
  rewrite app_nil_r. split; [done|]. exists added. split; [done|].
  rewrite app_assoc. by apply sublist_app.
Qed.

Lemma sinks_db_committed h db0 s :
  sinks_agree h db0 s → sinks_agree h db0 (db_committed s).
Proof.
  unfold sinks_agree, csv_lines, db_committed, emitted, inserted. simpl.
  intros [Hcsv (added & Ht & Hsub)]. rewrite !omap_app. simpl.
  rewrite !app_nil_r. split; [done|].
  exists (added ++ db_pending (db_conn s)).
  by rewrite Ht, app_assoc, app_nil_r.
Qed.

Lemma sinks_bump h db0 label s :
  sinks_agree h db0 s → sinks_agree h db0 (bump label s).
Proof.
  destruct (bump_keeps label s) as (_ & _ & Hc & Hd & Ht).
  apply sinks_agree_same; try done; unfold emitted, inserted; by rewrite Ht.
Qed.

Lemma sinks_counted_state h db0 names d w s :
  sinks_agree h db0 s → sinks_agree h db0 (counted_state names d w s).
Proof.
  intros Hs. unfold counted_state.
  by apply sinks_bump, sinks_log_quiet, sinks_db_committed, sinks_db_executed,
    sinks_csv_flushed, sinks_csv_written, sinks_committed.
Qed.

(** Closing the log flushes it; closing the connection drops the open
    transaction. *)
Lemma sinks_closed_csv h db0 s :
  sinks_agree h db0 s →
  sinks_agree h db0 (set_csv (csv_flush (csv_file s)) s).
Proof.
  unfold sinks_agree, csv_lines. simpl. by rewrite app_nil_r.
Qed.

Lemma sinks_closed_db h db0 s :
  sinks_agree h db0 s →
  sinks_agree h db0
    (set_db {| db_table := db_table (db_conn s); db_pending := [] |} s).
Proof.
  unfold sinks_agree, csv_lines. simpl.
  intros [Hcsv (added & Ht & Hsub)]. split; [done|]. exists added.
  split; [done|]. rewrite app_nil_r.
  etrans; [|exact Hsub]. by apply sublist_inserts_r.
Qed.

Lemma extends_refl s : extends s s.
Proof. split; [done|]. split; [done|]. by intros. Qed.

Lemma extends_trans s1 s2 s3 : extends s1 s2 → extends s2 s3 → extends s1 s3.
Proof.
  intros (A1 & B1 & C1) (A2 & B2 & C2).
  split; [by etrans|]. split; [tauto|]. intros h db0 Hs. by apply C2, C1.
Qed.

Lemma extends_not_counted s s' : not_counted s s' → extends s s'.
Proof.
  intros (Ec & Ee & Ei & Hcsv & Hdb). split; [by rewrite Ec|]. split.
  - unfold deduplicated. by rewrite Ec, Ee, Ei.
  - intros h db0. by apply sinks_agree_same.
Qed.

Lemma extends_same_events s s' :
  counted_ids s' = counted_ids s → trace s' = trace s →
  csv_file s' = csv_file s → db_conn s' = db_conn s →
  extends s s'.
Proof.
  intros Ec Et Hcsv Hdb. apply extends_not_counted.
  unfold not_counted, emitted, inserted. by rewrite Ec, Et.
Qed.

Lemma extends_quiet_effect e s :
  emitted_of e = None → inserted_of e = None → extends s (log_effect e s).
Proof.
  intros E1 E2. apply extends_not_counted.
  unfold not_counted, emitted, inserted. simpl.
  rewrite !omap_app. simpl. rewrite E1, E2. simpl. by rewrite !app_nil_r.
Qed.

(** Counting a fresh identity, with its row written to either sink or not
    yet, keeps the invariant. *)
Lemma extends_counting r s s' :
  vehicle_id r ∉ counted_ids s →
  counted_ids s' = {[vehicle_id r]} ∪ counted_ids s →
  emitted s' = emitted s ∨ emitted s' = emitted s ++ [r] →
  inserted s' = inserted s ∨ inserted s' = inserted s ++ [r] →
  (∀ h db0, sinks_agree h db0 s → sinks_agree h db0 s') →
  extends s s'.
Proof.
  intros Hfresh Ec Ee Ei Hsinks.
  split; [rewrite Ec; apply union_subseteq_r|]. split; [|exact Hsinks].
  intros (N1 & N2 & C1 & C2).
  assert (F : ∀ l : list Row,
             NoDup (vehicle_id <$> l) →
             (∀ i, i ∈ vehicle_id <$> l → i ∈ counted_ids s) →
             NoDup (vehicle_id <$> l ++ [r])
             ∧ ∀ i, i ∈ vehicle_id <$> l ++ [r] → i ∈ counted_ids s').
  { intros l N C. rewrite fmap_app. simpl. split.
    - apply NoDup_app. repeat split; [done| |apply NoDup_singleton].
      intros i Hi ->%list_elem_of_singleton. by apply Hfresh, C.
    - intros i [Hi| ->%list_elem_of_singleton]%elem_of_app; rewrite Ec.
      + apply elem_of_union_r. by apply C.
      + apply elem_of_union_l. by apply elem_of_singleton. }
  assert (G : ∀ l : list Row,
             (∀ i, i ∈ vehicle_id <$> l → i ∈ counted_ids s) →
             ∀ i, i ∈ vehicle_id <$> l → i ∈ counted_ids s').
  { intros l C i Hi. rewrite Ec. apply elem_of_union_r. by apply C. }
  unfold deduplicated.
  destruct Ee as [-> | ->], Ei as [-> | ->];
    destruct (F _ N1 C1), (F _ N2 C2); repeat split; eauto.
Qed.

Lemma stable_ret {A} (a : A) : stable (mret a).
Proof. intros s. apply extends_refl. Qed.

Lemma stable_raise {A} e : stable (raise (A := A) e).
Proof. intros s. apply extends_refl. Qed.

Lemma stable_get : stable get.
Proof. intros s. apply extends_refl. Qed.

Lemma stable_bind {A B} (m : M A) (k : A → M B) :
  stable m → (∀ a, stable (k a)) → stable (m ≫= k).
Proof.
  intros Hm Hk s. unfold mbind, M_bind. specialize (Hm s).
  destruct (m s) as [a s1|e s1]; simpl in *; [|done].
  eapply extends_trans; [exact Hm | apply Hk].
Qed.

Lemma stable_if {A} (b : bool) (m1 m2 : M A) :
  stable m1 → stable m2 → stable (if b then m1 else m2).
Proof. by destruct b. Qed.

Lemma stable_modify f : (∀ s, extends s (f s)) → stable (modify f).
Proof. intros Hf s. apply Hf. Qed.

Lemma stable_emit e :
  emitted_of e = None → inserted_of e = None → stable (emit e).
Proof. intros E1 E2 s. by apply extends_quiet_effect. Qed.

Lemma stable_for_each {X} (body : X → M unit) l :
  (∀ x, stable (body x)) → stable (for_each body l).
Proof.
  intros Hb. induction l as [|x l IH].
  - apply stable_ret.
  - apply stable_bind; [apply Hb | intros _; apply IH].
Qed.

Lemma stable_read_current_location f : stable (read_current_location f).
Proof.
  intros s. destruct (read_current_location_ok f s) as (s' & -> & Hc).
  simpl. destruct Hc as (Ec & _ & _ & _ & Hcsv & Hdb & _ & _ & ms & Et).
  destruct (emitted_print s ms s' Et) as [Ee Ei].
  by apply extends_not_counted.
Qed.

Lemma stable_poll_location t : stable (poll_location t).
Proof.
  unfold poll_location. apply stable_bind; [apply stable_get|]. intros s0.
  apply stable_if; [|apply stable_ret].
  apply stable_bind; [apply stable_read_current_location|]. intros _.
  apply stable_modify. intros s. by apply extends_same_events.
Qed.

Ltac events_of_writes :=
  unfold db_committed, db_executed, csv_flushed, csv_written, committed,
    annotated, row_of, emitted, inserted; simpl;
  rewrite ?omap_app; simpl; rewrite ?app_nil_r; auto.

Ltac sinks_of_writes :=
  let h := fresh "h" in
  let db0 := fresh "db0" in
  let Hs := fresh "Hs" in
  intros h db0 Hs;
  repeat first
    [ exact Hs
    | apply sinks_counted_state
    | apply sinks_db_executed
    | apply sinks_csv_flushed
    | apply sinks_csv_written
    | apply sinks_committed ].

Lemma stable_handle_detection names dw : stable (handle_detection names dw).
Proof.
  destruct dw as [d w]. intros s.
  destruct (passes_filter names d
            && in_zone count_line_position offset (center_y d)
            && bool_decide (box_id d ∉ counted_ids s)) eqn:E.
  - apply andb_true_iff in E as [[E1 E2]%andb_true_iff E3%bool_decide_eq_true].
    rewrite handle_accepted by done.
    destruct (fault w) as [[]|]; simpl;
      apply (extends_counting (row_of names d w s));
      first [ done
            | by events_of_writes
            | by sinks_of_writes
            | destruct (counted_as_counted_state names d w s)
                as (? & ? & ? & ? & ?); by auto ].
  - destruct (handle_rejected names d w s E) as (s' & -> & Hn).
    by apply extends_not_counted.
Qed.

Lemma stable_cleanup : stable cleanup.
Proof.
  unfold cleanup, print.
  apply stable_bind; [by apply stable_emit|]. intros _.
  apply stable_bind.
  { apply stable_modify. intros s. split; [done|]. split; [done|].
    intros h db0. apply sinks_closed_csv. }
  intros _. apply stable_bind; [by apply stable_emit|]. intros _.
  apply stable_bind; [by apply stable_emit|]. intros _.
  apply stable_bind.
  { apply stable_modify. intros s. split; [done|]. split; [done|].
    intros h db0. apply sinks_closed_db. }
  intros _. apply stable_bind; [by apply stable_emit|]. intros _.
  apply stable_bind; [by apply stable_emit|]. intros _.
  apply stable_raise.
Qed.

Lemma stable_loop_body names t : stable (loop_body names t).
Proof.
  unfold loop_body, print.
  apply stable_bind; [apply stable_poll_location|]. intros _.
  apply stable_if; [by apply stable_emit|].
  apply stable_bind;
    [apply stable_modify; intros s; by apply extends_same_events|].
  intros _. apply stable_bind; [apply stable_get|]. intros s1.
  apply stable_if; [apply stable_ret|].
  apply stable_bind.
  { destruct (boxes t); [|apply stable_ret].
    apply stable_for_each. apply stable_handle_detection. }
  intros _. apply stable_bind; [apply stable_get|]. intros s2.
  apply stable_bind; [by apply stable_emit|]. intros _.
  apply stable_if; [apply stable_cleanup | apply stable_ret].
Qed.

Lemma stable_main names f0 t0 ticks : stable (main names f0 t0 ticks).
Proof.
  unfold main.
  apply stable_bind; [apply stable_read_current_location|]. intros _.
  apply stable_bind;
    [apply stable_modify; intros s; by apply extends_same_events|].
  intros _. apply stable_for_each. apply stable_loop_body.
Qed.

Lemma deduplicated_module_init csv_new db0 :
  deduplicated (module_init csv_new db0).
Proof.
  unfold deduplicated, emitted, inserted. destruct csv_new; simpl;
    repeat split; try apply NoDup_nil_2; by intros i ?%elem_of_nil.
Qed.

Lemma sinks_agree_module_init csv_new db0 :
  sinks_agree csv_new db0 (module_init csv_new db0).
Proof.
  unfold sinks_agree, csv_lines, emitted, inserted.
  destruct csv_new; simpl; (split; [done|]); exists [];
    by rewrite app_nil_r.
Qed.

Lemma events_of_NoDup tid (rs : list Row) :
  NoDup (vehicle_id <$> rs) → length (events_of tid rs) ≤ 1.
Proof.
  induction rs as [|r rs IH]; simpl; [lia|].
  intros [Hr N]%NoDup_cons. specialize (IH N).
  destruct (vehicle_id r =? tid)%Z eqn:E; [|done].
  apply Z.eqb_eq in E. simpl.
  assert (Z : events_of tid rs = []); [|rewrite Z; simpl; lia].
  clear IH N. induction rs as [|r' rs IH]; [done|]. simpl.
  destruct (vehicle_id r' =? tid)%Z eqn:E'.
  - apply Z.eqb_eq in E'. exfalso. apply Hr. simpl. rewrite E, E'. left.
  - apply IH. intros Hin. apply Hr. simpl. by right.
Qed.

(** What a run from the start leaves in the sinks. *)
Lemma main_sinks names csv_new db0 f0 t0 ticks tid :
  ∃ events added,
    csv_lines (final_state (main names f0 t0 ticks (module_init csv_new db0)))
    = (if csv_new then [Header] else []) ++ (Event <$> events)
    ∧ db_table (db_conn (final_state
                  (main names f0 t0 ticks (module_init csv_new db0))))
      = db0 ++ added
    ∧ length (events_of tid events) ≤ 1
    ∧ length (events_of tid added) ≤ 1.
Proof.
  destruct (stable_main names f0 t0 ticks (module_init csv_new db0))
    as (_ & Hd & Hs).
  specialize (Hd (deduplicated_module_init csv_new db0)).
  specialize (Hs csv_new db0 (sinks_agree_module_init csv_new db0)).
  destruct Hd as (N1 & N2 & _ & _). destruct Hs as (Hcsv & added & Ht & Hsub).
  eexists _, added. split; [exact Hcsv|]. split; [exact Ht|].
  split; [by apply events_of_NoDup|]. apply events_of_NoDup.
  eapply sublist_NoDup; [exact N2|].
  apply fmap_sublist. etrans; [|exact Hsub]. by apply sublist_inserts_r.
Qed.

(** C1. In a run of the process from its start, over any passes of the loop
    and whatever the world answers, each track identity has at most one
    event among those written to the log and among those sent to the table;
    the log file then holds the header, if the process wrote it, and these
    events, and the table holds its initial rows and at most one added row
    of that identity.  The counted set never loses an element, and a
    detection whose identity is in it is not counted, whatever its class,
    confidence and box. *)
Theorem track_counted_at_most_once (names : Z → string) :
  (∀ csv_new db0 f0 t0 ticks tid,
     length (events_of tid
               (emitted (final_state
                  (main names f0 t0 ticks (module_init csv_new db0))))) ≤ 1
     ∧ length (events_of tid
                 (inserted (final_state
                    (main names f0 t0 ticks (module_init csv_new db0))))) ≤ 1)
  ∧ (∀ csv_new db0 f0 t0 ticks tid,
       ∃ events added,
         csv_lines (final_state
                      (main names f0 t0 ticks (module_init csv_new db0)))
         = (if csv_new then [Header] else []) ++ (Event <$> events)
         ∧ db_table (db_conn (final_state
                       (main names f0 t0 ticks (module_init csv_new db0))))
           = db0 ++ added
         ∧ length (events_of tid events) ≤ 1
         ∧ length (events_of tid added) ≤ 1)
  ∧ (∀ ticks s,
       counted_ids s
       ⊆ counted_ids (final_state (for_each (loop_body names) ticks s)))
  ∧ (∀ d w s,
       box_id d ∈ counted_ids s →
       ∃ s', handle_detection names (d, w) s = Ok tt s' ∧ not_counted s s').
Proof.
  split; [|split; [|split]].
  - intros csv_new db0 f0 t0 ticks tid.
    destruct (stable_main names f0 t0 ticks (module_init csv_new db0))
      as (_ & Hd & _).
    destruct (Hd (deduplicated_module_init csv_new db0)) as (N1 & N2 & _ & _).
    split; by apply events_of_NoDup.
  - intros csv_new db0 f0 t0 ticks tid. apply main_sinks.
  - intros ticks s.
    apply (stable_for_each (loop_body names) ticks (stable_loop_body names) s).
  - intros d w s Hin. apply handle_rejected.
    rewrite (bool_decide_eq_false_2 (box_id d ∉ counted_ids s)) by tauto.
    apply andb_false_r.
Qed.

(** C4. A counted detection is written first to the log, which is flushed,
    and then to the table, which is committed, with the same four values:
    the clock's timestamp, the label, the track identity and the location
    that is active when the detection is handled.  Both writes are done
    when the next detection of the frame is taken up.  When a write to the
    log fails, nothing has been sent to the table. *)
Theorem event_written_to_log_then_table (names : Z → string)
    (d : Detection) (w : World) (s : State) :
  passes_filter names d = true →
  in_zone count_line_position offset (center_y d) = true →
  box_id d ∉ counted_ids s →
  (fault w = None →
   ∃ s', handle_detection names (d, w) s = Ok tt s'
     ∧ trace s' = trace s ++
         [DrawBox (names (cls d)) (box_id d);
          CsvWriterow (Event (row_of names d w s)); CsvFlush;
          DbExecute (row_of names d w s); DbCommit;
          Print (MsgCounted (row_of names d w s))]
     ∧ csv_file s' =
         {| csv_disk := csv_disk (csv_file s) ++ csv_buffer (csv_file s)
                        ++ [Event (row_of names d w s)];
            csv_buffer := [] |}
     ∧ db_conn s' =
         {| db_table := db_table (db_conn s) ++ db_pending (db_conn s)
                        ++ [row_of names d w s];
            db_pending := [] |}
     ∧ row_of names d w s =
         {| timestamp := now w; vehicle_type := names (cls d);
            vehicle_id := box_id d; location_id := CAMERA_LOCATION_ID s |}
     ∧ ∀ rest,
         for_each (handle_detection names) ((d, w) :: rest) s
         = for_each (handle_detection names) rest s')
  ∧ (∀ f, fault w = Some f → f = CsvWriteFails ∨ f = CsvFlushFails →
     ∃ s', handle_detection names (d, w) s = Raised (WriteError f) s'
       ∧ db_conn s' = db_conn s ∧ inserted s' = inserted s).
Proof.
  intros E1 E2 E3. split.
  - intros Hw. exists (counted_state names d w s).
    assert (E : handle_detection names (d, w) s
                = Ok tt (counted_state names d w s)).
    { rewrite handle_accepted by done. by rewrite Hw. }
    split; [done|].
    destruct (bump_keeps (names (cls d))
      (log_effect (Print (MsgCounted (row_of names d w s)))
         (db_committed
            (db_executed (row_of names d w s)
               (csv_flushed (csv_written (row_of names d w s)
                  (committed names d s)))))))
      as (_ & _ & Hcsv & Hdb & Htr).
    unfold counted_state. rewrite Hcsv, Hdb, Htr.
    unfold db_committed, db_executed, csv_flushed, csv_written, committed,
      annotated.
    split; [simpl; by rewrite <- !app_assoc|].
    split; [simpl; unfold csv_flush, csv_writerow; simpl;
            by rewrite <- ?app_assoc|].
    split; [simpl; unfold db_commit, db_execute; simpl;
            by rewrite <- ?app_assoc|].
    split; [reflexivity|].
    intros rest. by rewrite for_each_cons, E.
  - intros f Hw Hf. rewrite handle_accepted by done. rewrite Hw.
    destruct Hf as [-> | ->]; eexists; (split; [reflexivity|]);
      split; by events_of_writes.
Qed.

Lemma event_written_to_log_then_table_witness :
  ∃ s', handle_detection coco_names (car_on_line, quiet_world)
          (module_init true []) = Ok tt s'
        ∧ csv_disk (csv_file s') =
            [Header;
             Event {| timestamp := "2024-01-01 08:00:00";
                      vehicle_type := "car"; vehicle_id := 7;
                      location_id := "jodhpur" |}]
        ∧ db_table (db_conn s') =
            [{| timestamp := "2024-01-01 08:00:00"; vehicle_type := "car";
                vehicle_id := 7; location_id := "jodhpur" |}].
Proof.
  destruct (event_written_to_log_then_table coco_names car_on_line
              quiet_world (module_init true [])) as [H _].
  - reflexivity.
  - reflexivity.
  - simpl. apply not_elem_of_empty.
  - destruct (H eq_refl) as (s' & E & _ & Hcsv & Hdb & _).
    exists s'. split; [exact E|]. rewrite Hcsv, Hdb. split; reflexivity.
Defined.

(** ** A failing insert *)

Lemma for_each_raises {X} (body : X → M unit) pre x post s s1 e s' :
  for_each body pre s = Ok tt s1 →
  body x s1 = Raised e s' →
  for_each body (pre ++ x :: post) s = Raised e s'.
Proof.
  revert s. induction pre as [|y pre IH]; intros s Hpre Hx.
  - rewrite for_each_nil in Hpre. injection Hpre as ->.
    by rewrite app_nil_l, for_each_cons, Hx.
  - rewrite for_each_cons in Hpre. rewrite <- app_comm_cons, for_each_cons.
    destruct (body y s) as [[] s2|]; [|done]. by apply IH.
Qed.

(** No statement of the loop body catches what the detection loop raises. *)
Lemma loop_body_raises names t s sp bs e s' :
  poll_location t s = Ok tt sp →
  cap_read t = true →
  S (frame_count sp) `mod` 2 = 0 →
  boxes t = Some bs →
  for_each (handle_detection names) bs
    (set_frame_count (S (frame_count sp)) sp) = Raised e s' →
  loop_body names t s = Raised e s'.
Proof.
  intros Hp Hc Hf Hb Hr. unfold loop_body, mbind, M_bind.
  rewrite Hp, Hc. unfold modify, get. cbn [negb].
  change (frame_count (set_frame_count (S (frame_count sp)) sp))
    with (S (frame_count sp)).
  rewrite Hf. cbn [Nat.eqb negb]. by rewrite Hb, Hr.
Qed.

(** C5, as stated, fails: the failing insert of the car's event ends the run
    with the uncaught exception; nothing is printed about it, and the truck
    of the later frame is neither counted nor logged. *)
Lemma db_failure_stops_the_counter :
  ∃ s', main coco_names NoFile 0 four_frames (module_init false [])
        = Raised (WriteError DbExecuteFails) s'
      ∧ emitted s'
        = [{| timestamp := "2024-01-01 08:00:00"; vehicle_type := "car";
              vehicle_id := 7; location_id := "jodhpur" |}]
      ∧ db_table (db_conn s') = []
      ∧ (8%Z ∉ counted_ids s')
      ∧ trace s'
        = [DrawBox "car" 7;
           CsvWriterow
             (Event {| timestamp := "2024-01-01 08:00:00";
                       vehicle_type := "car"; vehicle_id := 7;
                       location_id := "jodhpur" |});
           CsvFlush].
Proof.
  eexists. split; [vm_compute; reflexivity|].
  repeat split. vm_compute. set_solver.
Qed.

(** C5, amended.  When the log has received and flushed the event of a
    counted detection and the insert into the table, or its commit, fails,
    the exception is not caught: it ends the pass of the loop and the run,
    no later detection or frame is handled, and nothing is printed.  The
    event stays on disk in the log and is not in the table. *)
Theorem db_failure_ends_the_process (names : Z → string) (t : Tick)
    (ticks : list Tick) (s sp s2 : State)
    (pre post : list (Detection * World)) (d : Detection) (w : World)
    (f : Fault) :
  poll_location t s = Ok tt sp →
  cap_read t = true →
  S (frame_count sp) `mod` 2 = 0 →
  boxes t = Some (pre ++ (d, w) :: post) →
  for_each (handle_detection names) pre
    (set_frame_count (S (frame_count sp)) sp) = Ok tt s2 →
  passes_filter names d = true →
  in_zone count_line_position offset (center_y d) = true →
  box_id d ∉ counted_ids s2 →
  fault w = Some f →
  f = DbExecuteFails ∨ f = DbCommitFails →
  ∃ s', for_each (loop_body names) (t :: ticks) s = Raised (WriteError f) s'
    ∧ csv_file s' =
        {| csv_disk := csv_disk (csv_file s2) ++ csv_buffer (csv_file s2)
                       ++ [Event (row_of names d w s2)];
           csv_buffer := [] |}
    ∧ db_table (db_conn s') = db_table (db_conn s2)
    ∧ trace s' = trace s2 ++
        [DrawBox (names (cls d)) (box_id d);
         CsvWriterow (Event (row_of names d w s2)); CsvFlush]
        ++ (if decide (f = DbCommitFails)
            then [DbExecute (row_of names d w s2)] else []).
Proof.
  intros Hp Hc Hm Hb Hpre E1 E2 E3 Hw Hf.
  assert (R : ∀ s', handle_detection names (d, w) s2 = Raised (WriteError f) s' →
                    for_each (loop_body names) (t :: ticks) s
                    = Raised (WriteError f) s').
  { intros s' Hd. rewrite for_each_cons.
    rewrite (loop_body_raises names t s sp _ (WriteError f) s' Hp Hc Hm Hb);
      [done|].
    by apply (for_each_raises _ pre (d, w) post _ s2). }
  pose proof (handle_accepted names d w s2 E1 E2 E3) as Hd.
  rewrite Hw in Hd. cbv zeta in Hd.
  destruct Hf as [-> | ->]; eexists; (split; [apply R, Hd|]);
    unfold db_executed, csv_flushed, csv_written, committed, annotated,
      csv_flush, csv_writerow; simpl; rewrite <- ?app_assoc; done.
Qed.

Lemma db_failure_ends_the_process_witness :
  ∃ s', for_each (loop_body coco_names)
          [frame [(car_on_line, failing_insert)];
           frame [(truck_on_line, quiet_world)]]
          (set_frame_count 1 (module_init false []))
        = Raised (WriteError DbExecuteFails) s'
      ∧ csv_file s' =
          {| csv_disk :=
               [Event {| timestamp := "2024-01-01 08:00:00";
                         vehicle_type := "car"; vehicle_id := 7;
                         location_id := "jodhpur" |}];
             csv_buffer := [] |}
      ∧ db_table (db_conn s') = [].
Proof.
  destruct (db_failure_ends_the_process coco_names
              (frame [(car_on_line, failing_insert)])
              [frame [(truck_on_line, quiet_world)]]
              (set_frame_count 1 (module_init false []))
              (set_frame_count 1 (module_init false []))
              (set_frame_count 2 (module_init false []))
              [] [] car_on_line failing_insert DbExecuteFails)
    as (s' & E & Hcsv & Hdb & _).
  - reflexivity.
  - reflexivity.
  - reflexivity.
  - reflexivity.
  - reflexivity.
  - reflexivity.
  - reflexivity.
  - simpl. apply not_elem_of_empty.
  - reflexivity.
  - left. reflexivity.
  - exists s'. split; [exact E|]. split; [exact Hcsv | exact Hdb].
Defined.

(** ** The queries of the dashboard *)

Section QueryProperties.

Context `{SQLiteDate}.

Lemma on_day_spec date location r :
  on_day date location r = true ↔ day_event date location r.
Proof.
  unfold on_day, day_event.
  rewrite !andb_true_iff, bool_decide_eq_true, negb_true_iff.
  rewrite String.eqb_eq, String.eqb_neq. tauto.
Qed.

Lemma occurrences_nil {K} `{EqDecision K} (k : K) : occurrences k [] = 0.
Proof. reflexivity. Qed.

Lemma occurrences_cons {K} `{EqDecision K} (k k' : K) keys :
  occurrences k (k' :: keys)
  = (if decide (k' = k) then 1 else 0) + occurrences k keys.
Proof.
  unfold occurrences. simpl. unfold bool_decide.
  by destruct (decide_rel eq k' k); destruct (decide (k' = k)).
Qed.

Lemma occurrences_absent {K} `{EqDecision K} (k : K) keys :
  k ∉ keys → occurrences k keys = 0.
Proof.
  induction keys as [|k' keys IH]; [done|].
  intros [Hne Hin]%not_elem_of_cons. rewrite occurrences_cons, IH by done.
  by destruct (decide (k' = k)) as [->|].
Qed.

(** The loop [for vehicle_type, count in results: if vehicle_type in
    vehicle_counts: vehicle_counts[vehicle_type] = count] over groups with
    distinct keys. *)
Lemma fold_present_counts (keys : list string) (cnt : string → nat)
    (m : gmap string nat) k :
  NoDup keys →
  foldl (λ (counts : gmap string nat) '(vehicle_type, count),
           if bool_decide (is_Some (counts !! vehicle_type))
           then <[vehicle_type := count]> counts
           else counts)
        m ((λ k, (k, cnt k)) <$> keys) !! k
  = if decide (k ∈ keys)
    then (match m !! k with Some _ => Some (cnt k) | None => None end)
    else m !! k.
Proof.
  revert m. induction keys as [|a keys IH]; intros m N.
  - simpl. destruct (decide (k ∈ [])) as [Hin|]; [|done].
    by apply elem_of_nil in Hin.
  - apply NoDup_cons in N as [Ha N]. simpl. rewrite IH by done.
    destruct (decide (k = a)) as [->|Hne].
    + destruct (decide (a ∈ keys)); [done|].
      destruct (decide (a ∈ a :: keys)) as [_|Hn];
        [|exfalso; apply Hn; left].
      destruct (m !! a) as [v|] eqn:E.
      * rewrite bool_decide_eq_true_2 by eauto. by rewrite lookup_insert_eq.
      * rewrite bool_decide_eq_false_2; [done|]. by intros [? ?].
    + assert (L : (if bool_decide (is_Some (m !! a))
                   then <[a:=cnt a]> m else m) !! k = m !! k).
      { destruct (bool_decide (is_Some (m !! a))); [|done].
        by rewrite lookup_insert_ne. }
      rewrite L.
      destruct (decide (k ∈ keys)) as [Hin|Hin];
        destruct (decide (k ∈ a :: keys)) as [Hin'|Hin']; try done.
      * exfalso. apply Hin'. by right.
      * apply elem_of_cons in Hin' as [?|?]; done.
Qed.

(** [vehicle_counts] has the three keys, each with the number of the day's
    rows of that type. *)
Lemma vehicle_counts_spec today location db :
  vehicle_counts today location db
  = {[ "car" := count_type "car" (List.filter (on_day today location) db);
       "truck" := count_type "truck" (List.filter (on_day today location) db);
       "motorcycle" :=
         count_type "motorcycle" (List.filter (on_day today location) db) ]}.
Proof.
  assert (C : ∀ ty rs,
             occurrences ty (vehicle_type <$> rs) = count_type ty rs).
  { intros ty rs. unfold count_type.
    induction rs as [|r rs IH]; [done|].
    rewrite fmap_cons, occurrences_cons, IH, filter_cons.
    by destruct (decide (vehicle_type r = ty)). }
  apply map_eq. intros k. unfold vehicle_counts, group_count.
  rewrite fold_present_counts by apply NoDup_remove_dups.
  rewrite <- !C.
  set (keys := vehicle_type <$> List.filter (on_day today location) db).
  destruct (decide (k ∈ remove_dups keys)) as [Hin|Hin].
  - destruct (decide (k = "car")) as [->|]; [done|].
    destruct (decide (k = "truck")) as [->|]; [done|].
    destruct (decide (k = "motorcycle")) as [->|]; [done|].
    by rewrite !lookup_insert_ne, !lookup_singleton_ne by done.
  - rewrite elem_of_remove_dups in Hin.
    destruct (decide (k = "car")) as [->|].
    { by rewrite (occurrences_absent "car") by done. }
    destruct (decide (k = "truck")) as [->|].
    { by rewrite (occurrences_absent "truck") by done. }
    destruct (decide (k = "motorcycle")) as [->|].
    { by rewrite (occurrences_absent "motorcycle") by done. }
    by rewrite !lookup_insert_ne, !lookup_singleton_ne by done.
Qed.

(** The rows that the [WHERE] clause selects are the day's events. *)
Lemma filter_on_day date location db :
  List.filter (on_day date location) db = filter (day_event date location) db.
Proof.
  induction db as [|r db IH]; [done|]. simpl. rewrite filter_cons, IH.
  destruct (on_day date location r) eqn:E.
  - apply on_day_spec in E. by rewrite decide_True.
  - rewrite decide_False; [done|]. rewrite <- on_day_spec. congruence.
Qed.

Lemma db_append_all_table rs d :
  db_pending d = [] →
  db_table (db_append_all rs d) = db_table d ++ rs
  ∧ db_pending (db_append_all rs d) = [].
Proof.
  revert d. induction rs as [|r rs IH]; intros d Hp.
  - simpl. by rewrite app_nil_r.
  - simpl. destruct (IH (db_append r d)) as [-> ->]; [done|].
    split; [|done]. unfold db_append, db_commit, db_execute. simpl.
    rewrite Hp. simpl. by rewrite <- app_assoc.
Qed.

(** Rows outside the day do not count; the events of the day count once
    each under their type. *)
Lemma count_type_on_day ty today location db0 es :
  ty ≠ "bus" →
  Forall (λ r, ¬ day_event today location r) db0 →
  Forall (λ e, location_id e = location
               ∧ sql_date (timestamp e) = Some today) es →
  count_type ty (List.filter (on_day today location) (db0 ++ es))
  = count_type ty es.
Proof.
  intros Hty H0 Hes. rewrite List.filter_app.
  assert (Z : List.filter (on_day today location) db0 = []).
  { induction H0 as [|r db0 Hr _ IH]; [done|]. simpl.
    rewrite IH. destruct (on_day today location r) eqn:E; [|done].
    by apply on_day_spec in E. }
  rewrite Z. simpl. unfold count_type.
  induction Hes as [|e es [Hl Hd] _ IH]; [done|]. simpl.
  rewrite (filter_cons _ e es).
  destruct (on_day today location e) eqn:E.
  - rewrite filter_cons. destruct (decide (vehicle_type e = ty)); simpl;
      by rewrite IH.
  - destruct (decide (vehicle_type e = ty)) as [Ht|Ht]; [|done].
    exfalso. assert (D : day_event today location e).
    { repeat split; [done|done|]. by rewrite Ht. }
    apply on_day_spec in D. congruence.
Qed.

End QueryProperties.

(** C6. Events of one location and one day, appended to a table that holds
    no event of that location and day, are reproduced by the vehicle-type
    query of that day: it answers with exactly the keys car, truck and
    motorcycle, each with the number of appended events of that type, which
    is 0 for a type without event. *)
Theorem breakdown_round_trip `{SQLiteDate} (c : Clock) (location : string)
    (db0 es : list Row) :
  Forall (λ r, ¬ day_event (today c) location r) db0 →
  Forall (λ e, location_id e = location
               ∧ sql_date (timestamp e) = Some (today c)) es →
  vehicle_types_data c location
    (db_table (db_append_all es {| db_table := db0; db_pending := [] |}))
  = {| status := 200;
       body := Json (JInt <$>
                 {[ "car" := count_type "car" es;
                    "truck" := count_type "truck" es;
                    "motorcycle" := count_type "motorcycle" es ]}) |}.
Proof.
  intros H0 Hes. unfold vehicle_types_data, jsonify.
  destruct (db_append_all_table es {| db_table := db0; db_pending := [] |})
    as [-> _]; [done|]. simpl db_table.
  rewrite vehicle_counts_spec.
  by rewrite !(count_type_on_day _ (today c) location db0 es).
Qed.

Lemma breakdown_round_trip_witness :
  vehicle_types_data (H := iso_timestamps) new_year_clock "Kudi"
    (db_table (db_append_all morning_events
                 {| db_table := []; db_pending := [] |}))
  = {| status := 200;
       body := Json (JInt <$>
                 {[ "car" := count_type "car" morning_events;
                    "truck" := count_type "truck" morning_events;
                    "motorcycle" := count_type "motorcycle" morning_events ]}) |}
  ∧ count_type "car" morning_events = 2
  ∧ count_type "truck" morning_events = 1
  ∧ count_type "motorcycle" morning_events = 0.
Proof.
  split; [|by vm_compute].
  apply (breakdown_round_trip (H := iso_timestamps)).
  - constructor.
  - repeat constructor.
Defined.

(** ** The hourly histogram *)

Ltac each_hour h :=
  do 24 (destruct h as [|h]; [vm_compute; reflexivity|]); lia.

Lemma int_of_str_fmt02d h : h < 24 → Py.int_of_str (fmt02d h) = Some h.
Proof. intros Hh. each_hour h. Qed.

Lemma hour_key_prefix h : h < 24 → substring 0 2 (hour_key h) = fmt02d h.
Proof. intros Hh. each_hour h. Qed.

Lemma fmt02d_inj h h' : h < 24 → h' < 24 → fmt02d h = fmt02d h' → h = h'.
Proof.
  intros Hh Hh' E. apply (f_equal Py.int_of_str) in E.
  rewrite !int_of_str_fmt02d in E by done. congruence.
Qed.

Lemma hour_key_inj h h' : h < 24 → h' < 24 → hour_key h = hour_key h' → h = h'.
Proof.
  intros Hh Hh' E. apply fmt02d_inj; [done|done|].
  by rewrite <- !hour_key_prefix, E by done.
Qed.

Lemma hour_keys_listed :
  hour_keys
  = ["00:00"; "01:00"; "02:00"; "03:00"; "04:00"; "05:00"; "06:00"; "07:00";
     "08:00"; "09:00"; "10:00"; "11:00"; "12:00"; "13:00"; "14:00"; "15:00";
     "16:00"; "17:00"; "18:00"; "19:00"; "20:00"; "21:00"; "22:00"; "23:00"].
Proof. by vm_compute. Qed.

Lemma hour_keys_NoDup : NoDup hour_keys.
Proof.
  unfold hour_keys. apply NoDup_fmap_2_strong; [|apply NoDup_seq].
  intros h h' [_ Hh]%elem_of_seq [_ Hh']%elem_of_seq. by apply hour_key_inj.
Qed.

Lemma sum_list_perm (l1 l2 : list nat) :
  l1 ≡ₚ l2 → sum_list l1 = sum_list l2.
Proof. induction 1; simpl; lia. Qed.

Lemma map_sum_list_to_map (l : list (string * nat)) :
  NoDup l.*1 → map_sum (list_to_map l) = sum_list l.*2.
Proof.
  intros N. unfold map_sum. rewrite map_fold_foldr.
  assert (F : ∀ k : list (string * nat),
             foldr (uncurry (λ (_ : string) v acc, v + acc)) 0 k
             = sum_list k.*2).
  { induction k as [|[a v] k IH]; [done|]. simpl. by rewrite IH. }
  rewrite F. apply sum_list_perm, fmap_Permutation.
  by apply map_to_list_to_map.
Qed.

Lemma sum_list_plus {A} (f g : A → nat) l :
  sum_list ((λ x, f x + g x) <$> l)
  = sum_list (f <$> l) + sum_list (g <$> l).
Proof.
  induction l as [|x l IH]; [done|]. rewrite !fmap_cons. simpl.
  rewrite IH. lia.
Qed.

(** A key that is the text of an hour below 24 falls in exactly one of the
    24 groups. *)
Lemma one_hour_group h0 :
  h0 < 24 →
  sum_list ((λ h, if decide (Some (fmt02d h0) = Some (fmt02d h)) then 1 else 0)
              <$> seq 0 24) = 1.
Proof. intros Hh. each_hour h0. Qed.

Lemma hour_groups_total (keys : list (option string)) :
  Forall (λ k, ∃ h, h < 24 ∧ k = Some (fmt02d h)) keys →
  sum_list ((λ h, occurrences (Some (fmt02d h)) keys) <$> seq 0 24)
  = length keys.
Proof.
  induction 1 as [|k keys (h0 & Hh & ->) _ IH].
  - reflexivity.
  - rewrite (list_fmap_ext _
      (λ h, (if decide (Some (fmt02d h0) = Some (fmt02d h)) then 1 else 0)
            + occurrences (Some (fmt02d h)) keys) (seq 0 24))
      by (intros; apply occurrences_cons).
    rewrite sum_list_plus, IH, one_hour_group by done. done.
Qed.

Section HourlyProperties.

Context `{SQLiteDate}.

(** The loop [for hour, count in cursor.fetchall(): hourly_data[
    f"{int(hour):02d}:00"] = count] over groups whose keys are distinct
    texts of hours: no [int] raises, no key is added, and each hour that
    has a group receives its count. *)
Lemma fold_hour_groups (groups : list (option string))
    (cnt : option string → nat) (m : gmap string nat) :
  Forall (λ k, ∃ h, h < 24 ∧ k = Some (fmt02d h)) groups →
  NoDup groups →
  (∀ h, h < 24 → is_Some (m !! hour_key h)) →
  ∃ m',
    foldl (λ (data : option (gmap string nat)) '(hour, count),
             data ← data;
             h ← hour ≫= Py.int_of_str;
             Some (<[hour_key h := count]> data))
          (Some m) ((λ k, (k, cnt k)) <$> groups) = Some m'
    ∧ dom m' = dom m
    ∧ ∀ h, h < 24 →
        m' !! hour_key h
        = if decide (Some (fmt02d h) ∈ groups)
          then Some (cnt (Some (fmt02d h)))
          else m !! hour_key h.
Proof.
  intros F. revert m. induction F as [|k groups (h0 & Hh0 & ->) _ IH];
    intros m N Hm.
  - exists m. split; [done|]. split; [done|]. intros h Hh.
    destruct (decide (Some (fmt02d h) ∈ [])) as [Hin|]; [|done].
    by apply elem_of_nil in Hin.
  - apply NoDup_cons in N as [Hk N].
    destruct (IH (<[hour_key h0 := cnt (Some (fmt02d h0))]> m) N)
      as (m' & Hfold & Hdom & Hlook).
    { intros h Hh. destruct (decide (hour_key h0 = hour_key h)) as [->|Hne].
      - rewrite lookup_insert_eq. eauto.
      - rewrite lookup_insert_ne by done. by apply Hm. }
    exists m'. split; [|split].
    + rewrite fmap_cons. simpl. rewrite int_of_str_fmt02d by done. simpl.
      exact Hfold.
    + rewrite Hdom. apply dom_insert_lookup_L. by apply Hm.
    + intros h Hh. rewrite Hlook by done.
      destruct (decide (h = h0)) as [->|Hne].
      * rewrite decide_False by done. rewrite decide_True by left.
        by rewrite lookup_insert_eq.
      * assert (Hk' : Some (fmt02d h) ≠ Some (fmt02d h0)).
        { intros [= E]. by apply fmt02d_inj in E. }
        assert (Hkey : hour_key h0 ≠ hour_key h).
        { intros E. by apply hour_key_inj in E. }
        rewrite lookup_insert_ne by done.
        destruct (decide (Some (fmt02d h) ∈ groups)) as [Hin|Hin].
        -- rewrite decide_True; [done|]. by right.
        -- rewrite decide_False; [done|].
           intros [?|?]%elem_of_cons; done.
Qed.

(** Every selected row has a time value, hence an hour below 24. *)
Lemma selected_hours date location db :
  Forall (λ k, ∃ h, h < 24 ∧ k = Some (fmt02d h))
    (strftime_H ∘ timestamp <$> List.filter (on_day date location) db).
Proof.
  apply Forall_fmap, Forall_forall. intros r Hr.
  apply list_elem_of_In, List.filter_In in Hr as [_ Hr].
  apply on_day_spec in Hr as (Hd & _ & _).
  destruct (proj1 (sql_date_hour (timestamp r))) as [h Hh]; [by eauto|].
  exists h. split; [by apply (sql_hour_lt (timestamp r))|].
  unfold strftime_H. simpl. by rewrite Hh.
Qed.

Lemma hour_rows_fst (f : nat → nat) :
  ((λ h, (hour_key h, f h)) <$> seq 0 24).*1 = hour_keys.
Proof. unfold hour_keys. by rewrite <- list_fmap_compose. Qed.

Lemma hour_rows_lookup (f : nat → nat) h :
  h < 24 →
  (list_to_map ((λ h, (hour_key h, f h)) <$> seq 0 24) : gmap string nat)
    !! hour_key h = Some (f h).
Proof.
  intros Hh. apply elem_of_list_to_map_1.
  - rewrite hour_rows_fst. apply hour_keys_NoDup.
  - apply (list_elem_of_fmap_2 (λ h, (hour_key h, f h))).
    apply elem_of_seq. lia.
Qed.

(** The dictionary that [hourly] returns: for each of the 24 hours the
    number of selected rows in that hour. *)
Lemma hourly_data_spec date location db :
  hourly_data date location db
  = Some (list_to_map
            ((λ h, (hour_key h,
                    occurrences (Some (fmt02d h))
                      (strftime_H ∘ timestamp
                         <$> List.filter (on_day date location) db)))
               <$> seq 0 24)).
Proof.
  unfold hourly_data, group_count.
  set (keys := strftime_H ∘ timestamp <$> List.filter (on_day date location) db).
  destruct (fold_hour_groups (remove_dups keys) (λ k, occurrences k keys)
              (list_to_map ((λ hour, (hour_key hour, 0)) <$> seq 0 24)))
    as (m' & -> & Hdom & Hlook).
  { pose proof (selected_hours date location db) as F.
    rewrite Forall_forall in F.
    apply Forall_forall. intros k Hk. rewrite elem_of_remove_dups in Hk.
    exact (F k Hk). }
  { apply NoDup_remove_dups. }
  { intros h Hh. rewrite (hour_rows_lookup (λ _, 0)) by done. eauto. }
  f_equal. apply map_eq. intros k.
  destruct (decide (k ∈ hour_keys)) as [Hin|Hin].
  - apply list_elem_of_fmap in Hin as (h & -> & [_ Hh]%elem_of_seq).
    rewrite Hlook, (hour_rows_lookup (λ h, occurrences (Some (fmt02d h)) keys))
      by done.
    destruct (decide (Some (fmt02d h) ∈ remove_dups keys)) as [|Hn]; [done|].
    rewrite (hour_rows_lookup (λ _, 0)) by done.
    rewrite elem_of_remove_dups in Hn. by rewrite occurrences_absent.
  - rewrite (not_elem_of_list_to_map_1 _ k) by (by rewrite hour_rows_fst).
    apply not_elem_of_dom. rewrite Hdom, dom_list_to_map_L.
    by rewrite hour_rows_fst, elem_of_list_to_set.
Qed.

End HourlyProperties.

(** C7. Whatever the table holds, for every location and date the hourly
    query answers with a dictionary of exactly the 24 keys 00:00 to 23:00,
    and the sum of its values is the number of stored events of that
    location on that date whose type is not bus. *)
Theorem hourly_histogram `{SQLiteDate} (c : Clock) (date_arg : option string)
    (location : string) (db : list Row) :
  ∃ data : gmap string nat,
    hourly c date_arg location db
    = {| status := 200; body := Json (JInt <$> data) |}
    ∧ dom data = list_to_set hour_keys
    ∧ size data = 24
    ∧ hour_keys
      = ["00:00"; "01:00"; "02:00"; "03:00"; "04:00"; "05:00"; "06:00";
         "07:00"; "08:00"; "09:00"; "10:00"; "11:00"; "12:00"; "13:00";
         "14:00"; "15:00"; "16:00"; "17:00"; "18:00"; "19:00"; "20:00";
         "21:00"; "22:00"; "23:00"]
    ∧ map_sum data
      = length (filter (day_event (default (today c) date_arg) location) db).
Proof.
  unfold hourly. rewrite hourly_data_spec. eexists.
  split; [reflexivity|].
  assert (D : dom (list_to_map
                ((λ h, (hour_key h,
                   occurrences (Some (fmt02d h))
                     (strftime_H ∘ timestamp
                        <$> List.filter
                              (on_day (default (today c) date_arg) location) db)))
                 <$> seq 0 24) : gmap string nat)
              = list_to_set hour_keys).
  { by rewrite dom_list_to_map_L, hour_rows_fst. }
  split; [exact D|]. split; [|split; [apply hour_keys_listed|]].
  - rewrite <- size_dom, D, size_list_to_set by apply hour_keys_NoDup.
    reflexivity.
  - rewrite map_sum_list_to_map
      by (rewrite hour_rows_fst; apply hour_keys_NoDup).
    rewrite <- list_fmap_compose.
    rewrite <- filter_on_day.
    rewrite <- (length_fmap (strftime_H ∘ timestamp)).
    apply (hour_groups_total
             (strftime_H ∘ timestamp
                <$> List.filter
                      (on_day (default (today c) date_arg) location) db)).
    apply selected_hours.
Qed.

Lemma hourly_histogram_witness :
  ∃ data : gmap string nat,
    hourly (H := iso_timestamps) new_year_clock None "Kudi" morning_events
    = {| status := 200; body := Json (JInt <$> data) |}
    ∧ dom data = list_to_set hour_keys
    ∧ size data = 24
    ∧ hour_keys
      = ["00:00"; "01:00"; "02:00"; "03:00"; "04:00"; "05:00"; "06:00";
         "07:00"; "08:00"; "09:00"; "10:00"; "11:00"; "12:00"; "13:00";
         "14:00"; "15:00"; "16:00"; "17:00"; "18:00"; "19:00"; "20:00";
         "21:00"; "22:00"; "23:00"]
    ∧ map_sum data
      = length (filter (day_event (H := iso_timestamps)
                          (default (today new_year_clock) None) "Kudi")
                  morning_events).
Proof.
  exact (hourly_histogram (H := iso_timestamps) new_year_clock None "Kudi"
           morning_events).
Defined.

(** ** Unknown locations *)

Lemma largest_elem_of {K} (groups : list (K * nat)) g :
  largest groups = Some g → g ∈ groups.
Proof.
  revert g. induction groups as [|g0 groups IH]; intros g; [done|]. simpl.
  destruct (largest groups) as [g'|].
  - destruct (g0.2 <? g'.2); intros [= <-]; [right; by apply IH | left].
  - intros [= <-]. left.
Qed.

Lemma summary_data_status `{SQLiteDate} c location db :
  status (summary_data c location db) = 200.
Proof.
  unfold summary_data.
  destruct (largest _) as [[hour n]|] eqn:E; [|done].
  apply largest_elem_of in E. unfold group_count in E.
  apply list_elem_of_fmap in E as (k & [= -> ->] & Hk).
  rewrite elem_of_remove_dups in Hk.
  pose proof (selected_hours (today c) location db) as F.
  rewrite Forall_forall in F. destruct (F k Hk) as (h & Hh & ->).
  simpl. by rewrite int_of_str_fmt02d.
Qed.

(** C9, at the code.  For a location that is not a key of [LOCATIONS] the
    routes [/set_location] and [/dashboard] answer 404 "Location not
    found", and [/set_location] leaves the location file alone; each of the
    four [/api/<location_id>/traffic/...] routes answers 200 with its JSON
    dictionary. *)
Theorem unknown_location_only_guarded_on_pages `{SQLiteDate} (c : Clock)
    (writing : FileWrite) (db : list Row) (file : option string)
    (l : string) (date : option string) :
  LOCATIONS !! l = None →
  serve c writing db file (GetSetLocation l)
  = (file, {| status := 404; body := Text "Location not found" |})
  ∧ serve c writing db file (GetDashboard l)
    = (file, {| status := 404; body := Text "Location not found" |})
  ∧ status (serve c writing db file (GetSummary l)).2 = 200
  ∧ status (serve c writing db file (GetVehicleTypes l)).2 = 200
  ∧ status (serve c writing db file (GetHourly l date)).2 = 200
  ∧ status (serve c writing db file (GetDaily l)).2 = 200.
Proof.
  intros Hl. simpl. unfold set_active_location, dashboard. rewrite Hl.
  rewrite bool_decide_eq_true_2 by done.
  repeat split; [apply summary_data_status|].
  unfold hourly. by rewrite hourly_data_spec.
Qed.

(** The counter's default location is not a key of [LOCATIONS]: with the
    three morning events stored under it, its dashboard does not exist and
    its summary is served. *)
Lemma unknown_location_only_guarded_on_pages_witness :
  serve (H := iso_timestamps) new_year_clock Written morning_events None
    (GetSetLocation "jodhpur")
  = (None, {| status := 404; body := Text "Location not found" |})
  ∧ serve (H := iso_timestamps) new_year_clock Written morning_events None
      (GetDashboard "jodhpur")
    = (None, {| status := 404; body := Text "Location not found" |})
  ∧ status (serve (H := iso_timestamps) new_year_clock Written morning_events
              None (GetSummary "jodhpur")).2 = 200
  ∧ status (serve (H := iso_timestamps) new_year_clock Written morning_events
              None (GetVehicleTypes "jodhpur")).2 = 200
  ∧ status (serve (H := iso_timestamps) new_year_clock Written morning_events
              None (GetHourly "jodhpur" None)).2 = 200
  ∧ status (serve (H := iso_timestamps) new_year_clock Written morning_events
              None (GetDaily "jodhpur")).2 = 200.
Proof.
  apply (unknown_location_only_guarded_on_pages (H := iso_timestamps)).
  reflexivity.
Defined.

(** The answer to [GET /api/jodhpur/traffic/summary] when the table holds
    one event that the counter stored under its default location. *)
Example summary_of_unknown_location :
  summary_data (H := iso_timestamps) new_year_clock "jodhpur"
    [{| timestamp := "2024-01-01 08:00:00"; vehicle_type := "car";
        vehicle_id := 7; location_id := "jodhpur" |}]
  = {| status := 200;
       body := Json {[ "total_today" := JInt 1; "total_week" := JInt 1;
                       "peak_hour" := JStr "08:00";
                       "current_hour" := JInt 1 ]} |}.
Proof. by vm_compute. Qed.

(** * Further properties of the programs *)

(** ** A logic for invariants of running and of raising *)

Lemma inv_ret {A} P R (a : A) : inv P R (mret a).
Proof. by intros s. Qed.

Lemma inv_get P R : inv P R get.
Proof. by intros s. Qed.

Lemma inv_raise {A} (P : State → Prop) (R : Exn → State → Prop) e :
  (∀ s, P s → R e s) → inv P R (raise (A := A) e).
Proof. intros H s. apply H. Qed.

Lemma inv_bind {A B} P R (m : M A) (k : A → M B) :
  inv P R m → (∀ a, inv P R (k a)) → inv P R (m ≫= k).
Proof.
  intros Hm Hk s Hs. unfold mbind, M_bind. specialize (Hm s Hs).
  destruct (m s) as [a s1|e s1]; [by apply Hk | done].
Qed.

Lemma inv_if {A} P R (b : bool) (m1 m2 : M A) :
  inv P R m1 → inv P R m2 → inv P R (if b then m1 else m2).
Proof. by destruct b. Qed.

Lemma inv_modify (P : State → Prop) (R : Exn → State → Prop) f :
  (∀ s, P s → P (f s)) → inv P R (modify f).
Proof. intros H s. apply H. Qed.

Lemma inv_emit (P : State → Prop) (R : Exn → State → Prop) e :
  (∀ s, P s → P (log_effect e s)) → inv P R (emit e).
Proof. intros H s. apply H. Qed.

Lemma inv_for_each {X} P R (body : X → M unit) l :
  (∀ x, inv P R (body x)) → inv P R (for_each body l).
Proof.
  intros Hb. induction l as [|x l IH].
  - apply inv_ret.
  - apply inv_bind; [apply Hb | intros _; apply IH].
Qed.

(** A computation that only prints and changes the location keeps what
    depends on the other fields only. *)
Lemma inv_read_current_location (P : State → Prop)
    (R : Exn → State → Prop) f :
  (∀ s s', console_only s s' → P s → P s') →
  inv P R (read_current_location f).
Proof.
  intros H s Hs. destruct (read_current_location_ok f s) as (s' & -> & Hc).
  by apply (H s s').
Qed.

Lemma inv_poll_location P R t :
  inv P R (read_current_location (location_file t)) →
  (∀ s q, P s → P (set_last_check q s)) →
  inv P R (poll_location t).
Proof.
  intros Hr Hl. unfold poll_location.
  apply inv_bind; [apply inv_get|]. intros s0.
  apply inv_if; [|apply inv_ret].
  apply inv_bind; [exact Hr|]. intros _. apply inv_modify. intros s. apply Hl.
Qed.

Lemma inv_loop_body P R names t :
  inv P R (read_current_location (location_file t)) →
  (∀ s q, P s → P (set_last_check q s)) →
  (∀ s, P s → P (log_effect (Print MsgGrabFailed) s)) →
  (∀ s n, P s → P (set_frame_count n s)) →
  (∀ dw, inv P R (handle_detection names dw)) →
  (∀ s a b c, P s → P (log_effect (ShowFrame a b c) s)) →
  inv P R cleanup →
  inv P R (loop_body names t).
Proof.
  intros Hr Hl Hg Hf Hd Hshow Hc. unfold loop_body, print.
  apply inv_bind; [by apply inv_poll_location|]. intros _.
  apply inv_if; [by apply inv_emit|].
  apply inv_bind; [apply inv_modify; intros s; apply Hf|]. intros _.
  apply inv_bind; [apply inv_get|]. intros s1.
  apply inv_if; [apply inv_ret|].
  apply inv_bind.
  { destruct (boxes t); [|apply inv_ret]. by apply inv_for_each. }
  intros _. apply inv_bind; [apply inv_get|]. intros s2.
  apply inv_bind; [apply inv_emit; intros s; apply Hshow|]. intros _.
  apply inv_if; [exact Hc | apply inv_ret].
Qed.

Lemma inv_main P R names f0 t0 ticks :
  (∀ f, inv P R (read_current_location f)) →
  (∀ s q, P s → P (set_last_check q s)) →
  (∀ s, P s → P (log_effect (Print MsgGrabFailed) s)) →
  (∀ s n, P s → P (set_frame_count n s)) →
  (∀ dw, inv P R (handle_detection names dw)) →
  (∀ s a b c, P s → P (log_effect (ShowFrame a b c) s)) →
  inv P R cleanup →
  inv P R (main names f0 t0 ticks).
Proof.
  intros Hr Hl Hg Hf Hd Hshow Hc. unfold main.
  apply inv_bind; [apply Hr|]. intros _.
  apply inv_bind; [apply inv_modify; intros s; apply Hl|]. intros _.
  apply inv_for_each. intros t. by apply inv_loop_body.
Qed.

Lemma cleanup_closed s : cleanup s = Raised SystemExit (closed s).
Proof. reflexivity. Qed.

(** ** The two sinks hold the same events *)

Lemma in_sync_same h db0 s s' :
  csv_file s' = csv_file s → db_conn s' = db_conn s →
  emitted s' = emitted s →
  in_sync h db0 s → in_sync h db0 s'.
Proof. unfold in_sync, csv_lines. by intros -> -> ->. Qed.

Lemma in_sync_quiet h db0 e s :
  emitted_of e = None →
  in_sync h db0 s → in_sync h db0 (log_effect e s).
Proof.
  intros E. apply in_sync_same; try done.
  unfold emitted. simpl. rewrite omap_app. simpl. rewrite E. simpl.
  by rewrite app_nil_r.
Qed.

Lemma in_sync_console h db0 s s' :
  console_only s s' → in_sync h db0 s → in_sync h db0 s'.
Proof.
  intros (_ & _ & _ & _ & Hcsv & Hdb & _ & _ & ms & Et).
  destruct (emitted_print s ms s' Et) as [Ee _]. by apply in_sync_same.
Qed.

Lemma in_sync_committed h db0 names d s :
  in_sync h db0 s → in_sync h db0 (committed names d s).
Proof.
  intros Hs. unfold committed.
  apply (in_sync_same h db0 (annotated names d s)); try done.
  by apply in_sync_quiet.
Qed.

Ltac writes_unfolded :=
  unfold csv_lines, emitted, inserted, db_executed, csv_flushed, csv_written,
    committed, annotated;
  simpl; rewrite ?omap_app; simpl; rewrite ?app_nil_r, <- ?app_assoc.

Lemma in_sync_handle_detection h db0 names dw :
  inv (in_sync h db0) (λ _ s, in_sync h db0 s ∨ log_ahead h db0 s)
    (handle_detection names dw).
Proof.
  destruct dw as [d w]. intros s Hs.
  destruct (passes_filter names d
            && in_zone count_line_position offset (center_y d)
            && bool_decide (box_id d ∉ counted_ids s)) eqn:E.
  - apply andb_true_iff in E as [[E1 E2]%andb_true_iff E3%bool_decide_eq_true].
    rewrite handle_accepted by done. cbv zeta.
    pose proof (in_sync_committed h db0 names d s Hs) as [Hcsv Hdb].
    set (c := committed names d s) in *.
    set (r := row_of names d w s).
    assert (A : ∀ s', csv_lines s' = csv_lines c ++ [Event r] →
                      emitted s' = emitted c ++ [r] →
                      db_table (db_conn s') = db_table (db_conn c) →
                      log_ahead h db0 s').
    { intros s' Hl He Ht. split.
      - by rewrite Hl, He, Hcsv, fmap_app, app_assoc.
      - exists (emitted c), r. split; [done|]. by rewrite Ht, Hdb. }
    destruct (fault w) as [[]|].
    + left. by split.
    + right. apply A; subst c; by writes_unfolded.
    + right. apply A; subst c; by writes_unfolded.
    + right. apply A; subst c; by writes_unfolded.
    + destruct (counted_as_counted_state names d w s)
        as (_ & He & _ & Hc & Hd).
      fold r in He, Hc, Hd.
      assert (Hee : emitted c = emitted s).
      { unfold c, committed, annotated, emitted. simpl. rewrite omap_app.
        simpl. by rewrite app_nil_r. }
      assert (Hcc : csv_file c = csv_file s) by done.
      assert (Hdd : db_conn c = db_conn s) by done.
      split.
      * unfold csv_lines. rewrite Hc, He. simpl. rewrite app_nil_r.
        unfold csv_lines in Hcsv. rewrite Hcc, Hee in Hcsv.
        by rewrite app_assoc, Hcsv, fmap_app, app_assoc.
      * rewrite Hd, He. rewrite Hdd, Hee in Hdb. rewrite Hdb.
        unfold db_commit, db_execute. simpl. by rewrite app_assoc.
  - destruct (handle_rejected names d w s E) as (s' & -> & Hn).
    destruct Hn as (_ & He & _ & Hc & Hd). by apply (in_sync_same h db0 s).
Qed.

Lemma in_sync_closed h db0 s : in_sync h db0 s → in_sync h db0 (closed s).
Proof.
  intros [Hcsv Hdb]. unfold closed, in_sync, csv_lines, emitted. simpl.
  rewrite !omap_app. simpl. rewrite !app_nil_r. split; [done|].
  by rewrite Hdb.
Qed.

Lemma in_sync_main h db0 names f0 t0 ticks :
  inv (in_sync h db0) (λ _ s, in_sync h db0 s ∨ log_ahead h db0 s)
    (main names f0 t0 ticks).
Proof.
  apply inv_main.
  - intros f. apply inv_read_current_location. intros s s'.
    apply in_sync_console.
  - intros s q. by apply in_sync_same.
  - intros s. by apply in_sync_quiet.
  - intros s n. by apply in_sync_same.
  - apply in_sync_handle_detection.
  - intros s a b c. by apply in_sync_quiet.
  - intros s Hs. rewrite cleanup_closed. left. by apply in_sync_closed.
Qed.

Lemma in_sync_module_init h db0 : in_sync h db0 (module_init h db0).
Proof.
  unfold in_sync, csv_lines, emitted. destruct h; simpl; split; try done;
    by rewrite app_nil_r.
Qed.

(** X1. While the counter runs, the table holds its initial rows followed
    by exactly the events of the log, all committed; when the process has
    ended by an exception, the table holds the same events or lacks only
    the last event of the log.  The table never holds an event that the log
    lacks. *)
Theorem table_follows_log (names : Z → string) (csv_new : bool)
    (db0 : list Row) (f0 : FileRead) (t0 : Q) (ticks : list Tick) :
  match main names f0 t0 ticks (module_init csv_new db0) with
  | Ok _ s =>
      csv_lines s = (if csv_new then [Header] else []) ++ (Event <$> emitted s)
      ∧ db_conn s = {| db_table := db0 ++ emitted s; db_pending := [] |}
  | Raised _ s =>
      csv_lines s = (if csv_new then [Header] else []) ++ (Event <$> emitted s)
      ∧ (db_table (db_conn s) = db0 ++ emitted s
         ∨ ∃ events r, emitted s = events ++ [r]
                       ∧ db_table (db_conn s) = db0 ++ events)
  end.
Proof.
  pose proof (in_sync_main csv_new db0 names f0 t0 ticks
                (module_init csv_new db0) (in_sync_module_init csv_new db0))
    as H.
  destruct (main names f0 t0 ticks (module_init csv_new db0)) as [[] s|e s].
  - exact H.
  - destruct H as [[Hc Hd]|[Hc Hd]]; (split; [done|]).
    + left. by rewrite Hd.
    + by right.
Qed.

(** ** The counters on the screen *)

Lemma count_type_snoc ty rs r :
  count_type ty (rs ++ [r])
  = count_type ty rs + (if decide (vehicle_type r = ty) then 1 else 0).
Proof.
  unfold count_type. rewrite filter_app, length_app, filter_cons, filter_nil.
  by destruct (decide (vehicle_type r = ty)).
Qed.

Lemma counted_rows_total events :
  counted_rows events →
  count_type "car" events + count_type "motorcycle" events
  + count_type "truck" events = length events.
Proof.
  induction 1 as [|r rs Hr _ IH]; [done|].
  unfold count_type in *. rewrite !filter_cons. simpl.
  apply counted_label_spec in Hr as [-> | [-> | ->]]; simpl; lia.
Qed.

Lemma tallied_same events s s' :
  count_cars s' = count_cars s → count_bikes s' = count_bikes s →
  count_trucks s' = count_trucks s →
  tallied events s → tallied events s'.
Proof. unfold tallied. by intros -> -> ->. Qed.

Lemma tallied_bump names d w s :
  passes_filter names d = true →
  tallied (emitted s) s ∧ counted_rows (emitted s) →
  tallied (emitted s ++ [row_of names d w s]) (counted_state names d w s)
  ∧ counted_rows (emitted s ++ [row_of names d w s]).
Proof.
  intros [Hl _]%andb_true_iff ((Hc & Hb & Ht) & Hr). split.
  - unfold tallied. rewrite !count_type_snoc. simpl. rewrite <- Hc, <- Hb, <- Ht.
    unfold counted_state, bump.
    apply counted_label_spec in Hl as [-> | [-> | ->]]; simpl;
      repeat split; lia.
  - apply Forall_app. split; [done|]. by apply Forall_singleton.
Qed.

Lemma tallied_handle_detection names dw :
  inv (λ s, tallied (emitted s) s ∧ counted_rows (emitted s))
      (λ _ s, ∃ events,
              (emitted s = events ∨ ∃ r, emitted s = events ++ [r])
              ∧ tallied events s)
      (handle_detection names dw).
Proof.
  destruct dw as [d w]. intros s [Ht Hr].
  destruct (passes_filter names d) eqn:E1.
  - destruct (in_zone count_line_position offset (center_y d)
              && bool_decide (box_id d ∉ counted_ids s)) eqn:E2.
    + apply andb_true_iff in E2 as [E2 E3%bool_decide_eq_true].
      rewrite handle_accepted by done. cbv zeta.
      destruct (fault w) as [[]|].
      * exists (emitted s). split; [left; by writes_unfolded|done].
      * exists (emitted s). split; [right; eexists; by writes_unfolded|done].
      * exists (emitted s). split; [right; eexists; by writes_unfolded|done].
      * exists (emitted s). split; [right; eexists; by writes_unfolded|done].
      * destruct (counted_as_counted_state names d w s) as (_ & -> & _).
        by apply tallied_bump.
    + rewrite handle_outside_or_counted by done.
      assert (He : emitted (annotated names d s) = emitted s)
        by (by writes_unfolded).
      by rewrite He.
  - by rewrite handle_filtered.
Qed.

Lemma tallied_main names f0 t0 ticks :
  inv (λ s, tallied (emitted s) s ∧ counted_rows (emitted s))
      (λ _ s, ∃ events,
              (emitted s = events ∨ ∃ r, emitted s = events ++ [r])
              ∧ tallied events s)
      (main names f0 t0 ticks).
Proof.
  assert (Q : ∀ e s, emitted_of e = None →
                     emitted (log_effect e s) = emitted s).
  { intros e s E. unfold emitted. simpl. rewrite omap_app. simpl. rewrite E.
    simpl. by rewrite app_nil_r. }
  apply inv_main.
  - intros f. apply inv_read_current_location.
    intros s s' (_ & Hc & Hb & Ht & _ & _ & _ & _ & ms & Et) [H1 H2].
    destruct (emitted_print s ms s' Et) as [-> _]. split; [|done].
    by apply (tallied_same _ s).
  - by intros s q.
  - intros s [H1 H2]. by rewrite Q.
  - by intros s n.
  - apply tallied_handle_detection.
  - intros s a b c [H1 H2]. by rewrite Q.
  - intros s [H1 H2]. rewrite cleanup_closed. exists (emitted s).
    split; [left; unfold closed; by writes_unfolded|done].
Qed.

(** X2. While the counter runs, the three totals that it draws on the frame
    are the numbers of cars, motorcycles and trucks among the events of the
    log, and their sum is the number of these events.  When the process has
    ended by an exception the totals are those of the logged events, the
    last one possibly left out. *)
Theorem totals_count_the_logged_events (names : Z → string)
    (csv_new : bool) (db0 : list Row) (f0 : FileRead) (t0 : Q)
    (ticks : list Tick) :
  match main names f0 t0 ticks (module_init csv_new db0) with
  | Ok _ s =>
      tallied (emitted s) s
      ∧ count_cars s + count_bikes s + count_trucks s = length (emitted s)
  | Raised _ s =>
      ∃ events,
        (emitted s = events ∨ ∃ r, emitted s = events ++ [r])
        ∧ tallied events s
  end.
Proof.
  assert (I : tallied (emitted (module_init csv_new db0))
                (module_init csv_new db0)
              ∧ counted_rows (emitted (module_init csv_new db0))).
  { unfold tallied, counted_rows, emitted. by destruct csv_new. }
  pose proof (tallied_main names f0 t0 ticks (module_init csv_new db0) I) as H.
  destruct (main names f0 t0 ticks (module_init csv_new db0)) as [[] s|e s];
    [|done].
  destruct H as [Ht Hr]. split; [done|].
  destruct Ht as (-> & -> & ->). by apply counted_rows_total.
Qed.

(** ** Leaving through the ESC key *)

Lemma handle_detection_raises names dw s e s' :
  handle_detection names dw s = Raised e s' → ∃ f, e = WriteError f.
Proof.
  destruct dw as [d w].
  destruct (passes_filter names d
            && in_zone count_line_position offset (center_y d)
            && bool_decide (box_id d ∉ counted_ids s)) eqn:E.
  - apply andb_true_iff in E as [[E1 E2]%andb_true_iff E3%bool_decide_eq_true].
    rewrite handle_accepted by done. cbv zeta.
    destruct (fault w) as [[]|]; intros [= <- _]; eauto.
  - by destruct (handle_rejected names d w s E) as (s2 & -> & _).
Qed.

Lemma graceful_main h db0 names f0 t0 ticks :
  inv (in_sync h db0)
      (λ e s, e = SystemExit →
              in_sync h db0 s ∧ csv_buffer (csv_file s) = []
              ∧ ∃ pre, trace s = pre ++ closing_effects)
      (main names f0 t0 ticks).
Proof.
  apply inv_main.
  - intros f. apply inv_read_current_location. intros s s'.
    apply in_sync_console.
  - intros s q. by apply in_sync_same.
  - intros s. by apply in_sync_quiet.
  - intros s n. by apply in_sync_same.
  - intros dw s Hs.
    pose proof (in_sync_handle_detection h db0 names dw s Hs) as H.
    destruct (handle_detection names dw s) as [[] s'|e s'] eqn:E; [done|].
    apply handle_detection_raises in E as [f ->]. done.
  - intros s a b c. by apply in_sync_quiet.
  - intros s Hs. rewrite cleanup_closed. intros _.
    split; [by apply in_sync_closed|]. split; [done|].
    exists (trace s). unfold closed. simpl. by rewrite <- !app_assoc.
Qed.

(** X3. When the process ends through [sys.exit] (the ESC key), nothing is
    lost: the log file on disk holds the header, if the process wrote it,
    and every event, its buffer is empty, the table holds its initial rows
    and every event, no transaction is open, and the last effects are those
    of [cleanup]: the log is closed, the camera released, the connection
    closed and the windows destroyed. *)
Theorem exit_through_cleanup_loses_nothing (names : Z → string)
    (csv_new : bool) (db0 : list Row) (f0 : FileRead) (t0 : Q)
    (ticks : list Tick) (s : State) :
  main names f0 t0 ticks (module_init csv_new db0) = Raised SystemExit s →
  csv_file s
  = {| csv_disk := (if csv_new then [Header] else []) ++ (Event <$> emitted s);
       csv_buffer := [] |}
  ∧ db_conn s = {| db_table := db0 ++ emitted s; db_pending := [] |}
  ∧ ∃ pre, trace s = pre ++ closing_effects.
Proof.
  intros E.
  pose proof (graceful_main csv_new db0 names f0 t0 ticks
                (module_init csv_new db0) (in_sync_module_init csv_new db0))
    as H.
  rewrite E in H. destruct (H eq_refl) as ([Hcsv Hdb] & Hbuf & Htr).
  split; [|by split].
  unfold csv_lines in Hcsv. rewrite Hbuf, app_nil_r in Hcsv.
  destruct (csv_file s) as [disk buffer]. simpl in *. by rewrite Hcsv, Hbuf.
Qed.

Lemma exit_through_cleanup_loses_nothing_witness :
  ∃ s, main coco_names NoFile 0
         [frame []; esc_frame [(car_on_line, quiet_world)]]
         (module_init true []) = Raised SystemExit s
       ∧ csv_file s
         = {| csv_disk := [Header] ++ (Event <$> emitted s);
              csv_buffer := [] |}
       ∧ db_conn s = {| db_table := [] ++ emitted s; db_pending := [] |}
       ∧ ∃ pre, trace s = pre ++ closing_effects.
Proof.
  eexists. split; [vm_compute; reflexivity|].
  apply (exit_through_cleanup_loses_nothing coco_names true [] NoFile 0
           [frame []; esc_frame [(car_on_line, quiet_world)]]).
  vm_compute. reflexivity.
Defined.

(** ** Which frames are looked at *)

Lemma loop_body_steps names t :
  loop_body names t = (poll_location t ;; frame_step names t).
Proof. reflexivity. Qed.

Lemma poll_location_console t s :
  ∃ sp, poll_location t s = Ok tt sp
        ∧ frame_count sp = frame_count s
        ∧ counted_ids sp = counted_ids s
        ∧ emitted sp = emitted s ∧ inserted sp = inserted s
        ∧ (Qle_bool LOCATION_CHECK_INTERVAL
             (time_time t - last_location_check_time s) = false → sp = s).
Proof.
  unfold poll_location, mbind, M_bind, get, modify.
  destruct (Qle_bool _ _); [|by exists s].
  destruct (read_current_location_ok (location_file t) s)
    as (s' & -> & (Hc & _ & _ & _ & _ & _ & Hf & _ & ms & Et)).
  destruct (emitted_print s ms s' Et) as [He Hi].
  eexists. split; [reflexivity|]. by repeat split.
Qed.

Lemma bump_frame_count label s : frame_count (bump label s) = frame_count s.
Proof.
  unfold bump. destruct (label =? "car")%string; [done|].
  destruct (label =? "motorcycle")%string; [done|].
  by destruct (label =? "truck")%string.
Qed.

Lemma handle_detection_frame_count n names dw :
  inv (λ s, frame_count s = n) (λ _ _, True) (handle_detection names dw).
Proof.
  destruct dw as [d w]. intros s Hs.
  destruct (passes_filter names d
            && in_zone count_line_position offset (center_y d)
            && bool_decide (box_id d ∉ counted_ids s)) eqn:E.
  - apply andb_true_iff in E as [[E1 E2]%andb_true_iff E3%bool_decide_eq_true].
    rewrite handle_accepted by done. cbv zeta.
    destruct (fault w) as [[]|]; try done.
    unfold counted_state. by rewrite bump_frame_count.
  - destruct (passes_filter names d) eqn:E1.
    + by rewrite handle_outside_or_counted.
    + by rewrite handle_filtered.
Qed.

Lemma look_frame_count n names t :
  inv (λ s, frame_count s = n) (λ _ _, True) (look names t).
Proof.
  unfold look. apply inv_bind.
  { destruct (boxes t); [|apply inv_ret].
    apply inv_for_each, handle_detection_frame_count. }
  intros _. apply inv_bind; [apply inv_get|]. intros s2.
  apply inv_bind; [by apply inv_emit|]. intros _.
  apply inv_if; [|apply inv_ret]. intros s _. by rewrite cleanup_closed.
Qed.

Lemma frame_step_no_frame names t s :
  cap_read t = false →
  frame_step names t s = Ok tt (log_effect (Print MsgGrabFailed) s).
Proof. unfold frame_step. by intros ->. Qed.

Lemma frame_step_skipped names t s :
  cap_read t = true → S (frame_count s) `mod` 2 ≠ 0 →
  frame_step names t s = Ok tt (set_frame_count (S (frame_count s)) s).
Proof.
  intros Hc Hn. unfold frame_step, mbind, M_bind, modify, get. rewrite Hc.
  cbn [negb].
  change (frame_count (set_frame_count (S (frame_count s)) s))
    with (S (frame_count s)).
  apply Nat.eqb_neq in Hn. by rewrite Hn.
Qed.

Lemma frame_step_looked names t s :
  cap_read t = true → S (frame_count s) `mod` 2 = 0 →
  frame_step names t s = look names t (set_frame_count (S (frame_count s)) s).
Proof.
  intros Hc Hn. unfold frame_step, mbind, M_bind, modify, get. rewrite Hc.
  cbn [negb].
  change (frame_count (set_frame_count (S (frame_count s)) s))
    with (S (frame_count s)).
  apply Nat.eqb_eq in Hn. by rewrite Hn.
Qed.

Lemma frame_step_frame_count names t s s' :
  frame_step names t s = Ok tt s' →
  frame_count s' = if cap_read t then S (frame_count s) else frame_count s.
Proof.
  destruct (cap_read t) eqn:Hc.
  - destruct (decide (S (frame_count s) `mod` 2 = 0)) as [Hn|Hn].
    + rewrite frame_step_looked by done. intros E.
      pose proof (look_frame_count (S (frame_count s)) names t
                    (set_frame_count (S (frame_count s)) s) eq_refl) as H.
      by rewrite E in H.
    + rewrite frame_step_skipped by done. by intros [= <-].
  - rewrite frame_step_no_frame by done. by intros [= <-].
Qed.

Lemma frame_step_blind names t s :
  cap_read t = false ∨ S (frame_count s) `mod` 2 ≠ 0 →
  frame_step names (blind t) s = frame_step names t s.
Proof.
  intros [Hc|Hn].
  - by rewrite !frame_step_no_frame.
  - destruct (cap_read t) eqn:Hc.
    + by rewrite !frame_step_skipped.
    + by rewrite !frame_step_no_frame.
Qed.

Lemma loop_body_blind names t s :
  cap_read t = false ∨ S (frame_count s) `mod` 2 ≠ 0 →
  loop_body names (blind t) s = loop_body names t s.
Proof.
  intros H. rewrite !loop_body_steps. unfold mbind, M_bind.
  change (poll_location (blind t) s) with (poll_location t s).
  destruct (poll_location_console t s) as (sp & -> & Hf & _).
  apply frame_step_blind. by rewrite Hf.
Qed.

Lemma loop_body_frame_count names t s s' :
  loop_body names t s = Ok tt s' →
  frame_count s' = if cap_read t then S (frame_count s) else frame_count s.
Proof.
  rewrite loop_body_steps. unfold mbind, M_bind.
  destruct (poll_location_console t s) as (sp & -> & Hf & _).
  intros E%frame_step_frame_count. by rewrite E, Hf.
Qed.

Lemma sampled_cons n t ticks :
  sampled n (t :: ticks)
  = if cap_read t
    then (if S n `mod` 2 =? 0 then t else blind t) :: sampled (S n) ticks
    else blind t :: sampled n ticks.
Proof. reflexivity. Qed.

(** X4. The counter looks at every second frame that it grabs: what the
    tracker would answer and which key is pressed matter only in a pass
    whose grab succeeds and gives the second, fourth, ... frame.  A failed
    grab is not counted as a frame.  The run is the same when the boxes and
    the key of all other passes are taken away. *)
Theorem only_even_frames_are_looked_at (names : Z → string)
    (ticks : list Tick) (s : State) :
  for_each (loop_body names) ticks s
  = for_each (loop_body names) (sampled (frame_count s) ticks) s.
Proof.
  revert s. induction ticks as [|t ticks IH]; intros s; [done|].
  rewrite sampled_cons. destruct (cap_read t) eqn:Hc.
  - destruct (S (frame_count s) `mod` 2 =? 0) eqn:Hn.
    + rewrite !for_each_cons.
      destruct (loop_body names t s) as [[] s'|] eqn:E; [|done].
      apply loop_body_frame_count in E. rewrite Hc in E.
      by rewrite <- E, <- IH.
    + rewrite !for_each_cons.
      rewrite loop_body_blind by (right; by apply Nat.eqb_neq).
      destruct (loop_body names t s) as [[] s'|] eqn:E; [|done].
      apply loop_body_frame_count in E. rewrite Hc in E.
      by rewrite <- E, <- IH.
  - rewrite !for_each_cons. rewrite loop_body_blind by (by left).
    destruct (loop_body names t s) as [[] s'|] eqn:E; [|done].
    apply loop_body_frame_count in E. rewrite Hc in E.
    by rewrite <- E, <- IH.
Qed.

(** ** The active location *)

Lemma truthy_spec s : Py.truthy s = true ↔ s ≠ "".
Proof. destruct s; simpl; split; congruence. Qed.

Lemma read_current_location_update (text : string) (s : State) :
  Py.strip text ≠ "" →
  ∃ s', read_current_location (Contents text) s = Ok tt s'
        ∧ CAMERA_LOCATION_ID s' = Py.strip text
        ∧ console_only s s'
        ∧ trace s'
          = trace s ++
            (if decide (Py.strip text = CAMERA_LOCATION_ID s) then []
             else [Print (MsgLocationUpdated (CAMERA_LOCATION_ID s)
                            (Py.strip text))]).
Proof.
  intros Hn. apply truthy_spec in Hn as Ht.
  unfold read_current_location, try_except, mbind, M_bind, open_read, print,
    emit, modify, get, mret, M_ret. simpl. rewrite Ht. simpl.
  destruct (decide (Py.strip text = CAMERA_LOCATION_ID s)) as [E|E].
  - rewrite (proj2 (String.eqb_eq _ _) E). simpl. rewrite <- E, Ht. simpl.
    exists s. split; [done|]. split; [done|].
    split; [apply console_only_refl | by rewrite app_nil_r].
  - rewrite (proj2 (String.eqb_neq _ _) E). simpl. rewrite Ht. simpl.
    eexists. split; [reflexivity|]. split; [done|]. split; [|done].
    repeat split. by eexists [_].
Qed.


(** X5. When the location file holds a text that is not blank, the poll
    makes the stripped text the active location; it prints the transition
    exactly when the location changes, and touches nothing else. *)
Theorem location_follows_the_file (text : string) (s : State) :
  Py.strip text ≠ "" →
  ∃ s', read_current_location (Contents text) s = Ok tt s'
        ∧ CAMERA_LOCATION_ID s' = Py.strip text
        ∧ console_only s s'
        ∧ trace s'
          = trace s ++
            (if decide (Py.strip text = CAMERA_LOCATION_ID s) then []
             else [Print (MsgLocationUpdated (CAMERA_LOCATION_ID s)
                            (Py.strip text))]).
Proof. apply read_current_location_update. Qed.

Lemma location_follows_the_file_witness :
  ∃ s', read_current_location (Contents "  Shastri Nagar
")
          (module_init false []) = Ok tt s'
        ∧ CAMERA_LOCATION_ID s' = "Shastri Nagar"
        ∧ trace s' = [Print (MsgLocationUpdated "jodhpur" "Shastri Nagar")].
Proof.
  destruct (location_follows_the_file "  Shastri Nagar
" (module_init false []))
    as (s' & E & Hl & _ & Ht); [by vm_compute|].
  exists s'. split; [exact E|]. split; [exact Hl | exact Ht].
Defined.

Lemma read_current_location_nonempty f s :
  CAMERA_LOCATION_ID (final_state (read_current_location f s)) ≠ "".
Proof.
  assert (D : no_update f ∨ ∃ text, f = Contents text ∧ Py.strip text ≠ "").
  { destruct f as [| |text]; [left; by left | left; right; by left |].
    destruct (decide (Py.strip text = "")); [left|right]; eauto.
    right. right. eauto. }
  destruct D as [Hf|(text & -> & Hn)].
  - rewrite read_current_location_no_update by done. unfold resolved.
    destruct (Py.truthy (CAMERA_LOCATION_ID s)) eqn:E; [|done].
    by apply truthy_spec.
  - destruct (read_current_location_update text s Hn) as (s' & E & Hl & _).
    rewrite E. simpl. by rewrite Hl.
Qed.

Lemma inv_final {A} (P : State → Prop) (m : M A) :
  (∀ s, P s → P (final_state (m s))) → inv P (λ _, P) m.
Proof. intros H s Hs. specialize (H s Hs). by destruct (m s). Qed.

(** One detection leaves the location alone and adds at most its own row
    to the events of either sink. *)
Lemma handle_detection_events names d w s :
  CAMERA_LOCATION_ID (final_state (handle_detection names (d, w) s))
  = CAMERA_LOCATION_ID s
  ∧ (emitted (final_state (handle_detection names (d, w) s)) = emitted s
     ∨ emitted (final_state (handle_detection names (d, w) s))
       = emitted s ++ [row_of names d w s])
  ∧ (inserted (final_state (handle_detection names (d, w) s)) = inserted s
     ∨ inserted (final_state (handle_detection names (d, w) s))
       = inserted s ++ [row_of names d w s]).
Proof.
  destruct (passes_filter names d
            && in_zone count_line_position offset (center_y d)
            && bool_decide (box_id d ∉ counted_ids s)) eqn:E.
  - apply andb_true_iff in E as [[E1 E2]%andb_true_iff E3%bool_decide_eq_true].
    rewrite handle_accepted by done. cbv zeta.
    destruct (fault w) as [[]|]; simpl final_state.
    + split; [done|]. split; left; by writes_unfolded.
    + split; [done|]. split; [right|left]; by writes_unfolded.
    + split; [done|]. split; [right|left]; by writes_unfolded.
    + split; [done|]. split; right; by writes_unfolded.
    + destruct (counted_as_counted_state names d w s)
        as (_ & He & Hi & _ & _).
      split; [|split; by right].
      unfold counted_state.
      by destruct (bump_keeps (names (cls d))
        (log_effect (Print (MsgCounted (row_of names d w s)))
           (db_committed
              (db_executed (row_of names d w s)
                 (csv_flushed (csv_written (row_of names d w s)
                    (committed names d s))))))) as (-> & _).
  - destruct (passes_filter names d) eqn:E1.
    + rewrite handle_outside_or_counted by done. simpl.
      split; [done|]. split; left; by writes_unfolded.
    + rewrite handle_filtered by done. simpl. by repeat split; left.
Qed.

Lemma located_same l before s s' :
  CAMERA_LOCATION_ID s' = CAMERA_LOCATION_ID s → emitted s' = emitted s →
  located l before s → located l before s'.
Proof. unfold located. by intros -> ->. Qed.

Lemma located_quiet l before e s :
  emitted_of e = None → located l before s → located l before (log_effect e s).
Proof.
  intros E. apply located_same; [done|]. unfold emitted. simpl.
  rewrite omap_app. simpl. rewrite E. simpl. by rewrite app_nil_r.
Qed.

Lemma located_handle_detection l before names dw :
  inv (located l before) (λ _, located l before) (handle_detection names dw).
Proof.
  destruct dw as [d w]. apply inv_final. intros s [Hl (new & He & Hn)].
  destruct (handle_detection_events names d w s) as (Hl' & [He'|He'] & _).
  - apply (located_same l before s); [done|done|]. split; [done|]. eauto.
  - split; [by rewrite Hl'|]. exists (new ++ [row_of names d w s]).
    split; [by rewrite He', He, app_assoc|].
    apply Forall_app. split; [done|]. by apply Forall_singleton.
Qed.

Lemma located_look l before names t :
  inv (located l before) (λ _, located l before) (look names t).
Proof.
  unfold look. apply inv_bind.
  { destruct (boxes t); [|apply inv_ret].
    apply inv_for_each, located_handle_detection. }
  intros _. apply inv_bind; [apply inv_get|]. intros s2.
  apply inv_bind; [apply inv_emit; intros s; by apply located_quiet|].
  intros _. apply inv_if; [|apply inv_ret].
  intros s Hs. rewrite cleanup_closed. apply (located_same l before s); try done.
  unfold closed. by writes_unfolded.
Qed.

Lemma located_frame_step l before names t :
  inv (located l before) (λ _, located l before) (frame_step names t).
Proof.
  unfold frame_step, print. apply inv_if.
  { apply inv_emit. intros s. by apply located_quiet. }
  apply inv_bind; [apply inv_modify; intros s; by apply located_same|].
  intros _. apply inv_bind; [apply inv_get|]. intros s1.
  apply inv_if; [apply inv_ret | apply located_look].
Qed.

(** X6. A pass of the loop consults the location file only when the
    interval has elapsed: before that the location stays what it was,
    whatever the file holds.  After the poll nothing in the pass changes the
    location, and every event emitted in the pass carries the location that
    the poll resolved. *)
Theorem events_carry_the_polled_location (names : Z → string) (t : Tick)
    (s : State) :
  ∃ sp,
    poll_location t s = Ok tt sp
    ∧ (Qle_bool LOCATION_CHECK_INTERVAL
         (time_time t - last_location_check_time s) = false → sp = s)
    ∧ CAMERA_LOCATION_ID (final_state (loop_body names t s))
      = CAMERA_LOCATION_ID sp
    ∧ ∃ new,
        emitted (final_state (loop_body names t s)) = emitted s ++ new
        ∧ Forall (λ r, location_id r = CAMERA_LOCATION_ID sp) new.
Proof.
  destruct (poll_location_console t s) as (sp & Hp & _ & _ & He & _ & Hs).
  exists sp. split; [done|]. split; [done|].
  rewrite loop_body_steps. unfold mbind, M_bind. rewrite Hp.
  assert (L : located (CAMERA_LOCATION_ID sp) (emitted s) sp).
  { split; [done|]. exists []. by rewrite app_nil_r. }
  pose proof (located_frame_step _ _ names t sp L) as H.
  by destruct (frame_step names t sp).
Qed.

Lemma nonempty_main names f0 t0 ticks :
  inv (λ s, CAMERA_LOCATION_ID s ≠ ""
            ∧ Forall (λ r, location_id r ≠ "") (emitted s)
            ∧ Forall (λ r, location_id r ≠ "") (inserted s))
      (λ _ s, CAMERA_LOCATION_ID s ≠ ""
              ∧ Forall (λ r, location_id r ≠ "") (emitted s)
              ∧ Forall (λ r, location_id r ≠ "") (inserted s))
      (main names f0 t0 ticks).
Proof.
  assert (Q : ∀ e s, emitted_of e = None → inserted_of e = None →
                     emitted (log_effect e s) = emitted s
                     ∧ inserted (log_effect e s) = inserted s).
  { intros e s E1 E2. unfold emitted, inserted. simpl. rewrite !omap_app.
    simpl. rewrite E1, E2. simpl. by rewrite !app_nil_r. }
  apply inv_main.
  - intros f. apply inv_final. intros s (Hl & He & Hi).
    split; [apply read_current_location_nonempty|].
    destruct (read_current_location_ok f s)
      as (s' & -> & (_ & _ & _ & _ & _ & _ & _ & _ & ms & Et)).
    simpl. by destruct (emitted_print s ms s' Et) as [-> ->].
  - by intros s q.
  - intros s (Hl & He & Hi).
    by destruct (Q (Print MsgGrabFailed) s) as [-> ->].
  - by intros s n.
  - intros [d w]. apply inv_final. intros s (Hl & He & Hi).
    destruct (handle_detection_events names d w s) as (-> & He' & Hi').
    split; [done|]. split.
    + destruct He' as [-> | ->]; [done|]. apply Forall_app. split; [done|].
      by apply Forall_singleton.
    + destruct Hi' as [-> | ->]; [done|]. apply Forall_app. split; [done|].
      by apply Forall_singleton.
  - intros s a b c (Hl & He & Hi).
    by destruct (Q (ShowFrame a b c) s) as [-> ->].
  - intros s (Hl & He & Hi). rewrite cleanup_closed.
    assert (E : emitted (closed s) = emitted s ∧ inserted (closed s) = inserted s)
      by (unfold closed; split; by writes_unfolded).
    destruct E as [-> ->]. by split.
Qed.

(** X7. The active location is never the empty text: not after a poll,
    whatever the file holds and whatever the location was, and not during a
    run; no event that a run writes to the log or sends to the table has an
    empty location. *)
Theorem location_is_never_empty (names : Z → string) :
  (∀ f s, CAMERA_LOCATION_ID (final_state (read_current_location f s)) ≠ "")
  ∧ ∀ csv_new db0 f0 t0 ticks,
      CAMERA_LOCATION_ID
        (final_state (main names f0 t0 ticks (module_init csv_new db0))) ≠ ""
      ∧ Forall (λ r, location_id r ≠ "")
          (emitted (final_state
                      (main names f0 t0 ticks (module_init csv_new db0))))
      ∧ Forall (λ r, location_id r ≠ "")
          (inserted (final_state
                       (main names f0 t0 ticks (module_init csv_new db0)))).
Proof.
  split; [apply read_current_location_nonempty|].
  intros csv_new db0 f0 t0 ticks.
  assert (I : CAMERA_LOCATION_ID (module_init csv_new db0) ≠ ""
              ∧ Forall (λ r, location_id r ≠ "")
                  (emitted (module_init csv_new db0))
              ∧ Forall (λ r, location_id r ≠ "")
                  (inserted (module_init csv_new db0))).
  { unfold emitted, inserted. by destruct csv_new. }
  pose proof (nonempty_main names f0 t0 ticks _ I) as H.
  by destruct (main names f0 t0 ticks (module_init csv_new db0)).
Qed.

(** ** From the selection page to the counter *)

(** The keys of [LOCATIONS] have no blank at either end. *)
Lemma strip_location l : is_Some (LOCATIONS !! l) → Py.strip l = l ∧ l ≠ "".
Proof.
  intros [i Hi]. unfold LOCATIONS in Hi.
  apply lookup_insert_Some in Hi as [[<- _]|[_ Hi]]; [by vm_compute|].
  apply lookup_insert_Some in Hi as [[<- _]|[_ Hi]]; [by vm_compute|].
  apply lookup_singleton_Some in Hi as [<- _]. by vm_compute.
Qed.

Lemma set_active_location_known writing l file :
  is_Some (LOCATIONS !! l) →
  set_active_location writing l file
  = (match left_by writing l with Some text => Some text | None => file end,
     {| status := 302; body := Redirect "dashboard" l |}).
Proof.
  intros [i Hi]. unfold set_active_location, write_current_location_to_file.
  rewrite bool_decide_eq_false_2 by (by rewrite Hi). by destruct writing.
Qed.

(** X8. Selecting a known location on the web page reaches the counter
    through the location file: the file then holds the identifier, and a
    pass of the counter's loop for which the poll is due and that reads
    this file continues under that location; every event it emits carries
    it.  Whatever happens to the write, the page answers with the same
    redirect.  When the file cannot be opened it is as before.  When the
    write fails after the file was opened, the file holds the part of the
    identifier that was written, and when that is nothing a counter that
    reads the file keeps the location that it had. *)
Theorem selection_reaches_the_counter (names : Z → string) (l : string)
    (file : option string) (t : Tick) (s : State) :
  is_Some (LOCATIONS !! l) →
  location_file t = file_seen (set_active_location Written l file).1 →
  Qle_bool LOCATION_CHECK_INTERVAL
    (time_time t - last_location_check_time s) = true →
  set_active_location Written l file
  = (Some l, {| status := 302; body := Redirect "dashboard" l |})
  ∧ CAMERA_LOCATION_ID (final_state (loop_body names t s)) = l
  ∧ (∃ new,
       emitted (final_state (loop_body names t s)) = emitted s ++ new
       ∧ Forall (λ r, location_id r = l) new)
  ∧ set_active_location OpenFails l file
    = (file, {| status := 302; body := Redirect "dashboard" l |})
  ∧ (∀ kept,
       set_active_location (WriteFails kept) l file
       = (Some (substring 0 kept l),
          {| status := 302; body := Redirect "dashboard" l |}))
  ∧ ∀ s0,
      CAMERA_LOCATION_ID
        (final_state
           (read_current_location
              (file_seen (set_active_location (WriteFails 0) l file).1) s0))
      = resolved (CAMERA_LOCATION_ID s0).
Proof.
  intros Hl Hf Hd. rewrite !set_active_location_known in * by done.
  split; [done|]. simpl in Hf.
  destruct (strip_location l Hl) as [Hs Hn].
  assert (Hp : ∃ sp, poll_location t s = Ok tt sp
                     ∧ CAMERA_LOCATION_ID sp = l ∧ emitted sp = emitted s).
  { unfold poll_location, mbind, M_bind, get. rewrite Hd, Hf.
    destruct (read_current_location_update l s) as (s' & -> & Hl' & _ & Ht);
      [by rewrite Hs|].
    rewrite Hs in Hl', Ht. eexists. split; [reflexivity|]. split; [done|].
    unfold emitted. simpl. rewrite Ht, omap_app.
    destruct (decide _); simpl; by rewrite app_nil_r. }
  destruct Hp as (sp & Hp & Hl' & He).
  rewrite loop_body_steps. unfold mbind, M_bind. rewrite Hp.
  assert (L : located l (emitted s) sp).
  { split; [done|]. exists []. by rewrite app_nil_r. }
  pose proof (located_frame_step _ _ names t sp L) as H.
  assert (Loc : located l (emitted s) (final_state (frame_step names t sp)))
    by (by destruct (frame_step names t sp)).
  destruct Loc as [L1 L2].
  split; [done|]. split; [done|]. split; [done|]. split.
  - intros kept. by rewrite ?set_active_location_known by done.
  - intros s0. rewrite ?set_active_location_known by done. simpl.
    apply read_current_location_no_update. right. right.
    exists (substring 0 0 l). split; [done|]. by destruct l.
Qed.

Lemma selection_reaches_the_counter_witness :
  set_active_location Written "Ratanada" None
  = (Some "Ratanada",
     {| status := 302; body := Redirect "dashboard" "Ratanada" |})
  ∧ CAMERA_LOCATION_ID
      (final_state (loop_body coco_names frame_after_selection
                      (set_frame_count 1 (module_init false []))))
    = "Ratanada"
  ∧ ∃ new,
      emitted (final_state (loop_body coco_names frame_after_selection
                              (set_frame_count 1 (module_init false []))))
      = emitted (set_frame_count 1 (module_init false [])) ++ new
      ∧ Forall (λ r, location_id r = "Ratanada") new.
Proof.
  destruct (selection_reaches_the_counter coco_names "Ratanada" None
              frame_after_selection
              (set_frame_count 1 (module_init false [])))
    as (E1 & E2 & E3 & _);
    [by exists {| name := "Ratanada, Jodhpur" |} | reflexivity | reflexivity |].
  split; [exact E1|]. split; [exact E2 | exact E3].
Defined.

(** ** What the queries can see *)

Lemma filter_filter_implies {A} (p q : A → bool) (l : list A) :
  (∀ x, p x = true → q x = true) →
  List.filter p (List.filter q l) = List.filter p l.
Proof.
  intros Hpq. induction l as [|x l IH]; [done|]. simpl.
  destruct (q x) eqn:Eq; simpl.
  - destruct (p x); by rewrite IH.
  - destruct (p x) eqn:Ep; [|done]. apply Hpq in Ep. congruence.
Qed.

Section Visible.

Context `{SQLiteDate}.

Lemma on_day_visible date location r :
  on_day date location r = true → visible location r = true.
Proof.
  unfold on_day, visible.
  intros [[E1%bool_decide_eq_true ->]%andb_true_iff ->]%andb_true_iff.
  rewrite E1. by rewrite bool_decide_eq_true_2 by eauto.
Qed.

Lemma since_day_visible start location r :
  since_day start location r = true → visible location r = true.
Proof.
  unfold since_day, visible.
  intros [[E1 ->]%andb_true_iff ->]%andb_true_iff.
  destruct (sql_date (timestamp r)); [|done].
  by rewrite bool_decide_eq_true_2 by eauto.
Qed.

Lemma in_hour_visible hour date location r :
  in_hour hour date location r = true → visible location r = true.
Proof.
  unfold in_hour. intros [_ E]%andb_true_iff. by eapply on_day_visible.
Qed.

Lemma filter_on_day_visible date location db :
  List.filter (on_day date location) (List.filter (visible location) db)
  = List.filter (on_day date location) db.
Proof. apply filter_filter_implies, on_day_visible. Qed.

Lemma filter_since_day_visible start location db :
  List.filter (since_day start location) (List.filter (visible location) db)
  = List.filter (since_day start location) db.
Proof. apply filter_filter_implies, since_day_visible. Qed.

Lemma filter_in_hour_visible hour date location db :
  List.filter (in_hour hour date location) (List.filter (visible location) db)
  = List.filter (in_hour hour date location) db.
Proof. apply filter_filter_implies, in_hour_visible. Qed.

End Visible.

(** X9. No answer of the web process depends on rows of another location,
    on rows of type bus, or on rows whose timestamp is no time value: every
    request is answered from the table as from the table without them. *)
Theorem answers_depend_on_visible_rows `{SQLiteDate} (c : Clock)
    (writing : FileWrite) (db : list Row) (file : option string)
    (q : Request) (l : string) :
  url_location q = Some l →
  serve c writing (List.filter (visible l) db) file q
  = serve c writing db file q.
Proof.
  destruct q; simpl; intros [= ->]; try done.
  - unfold summary_data.
    by rewrite !filter_on_day_visible, filter_since_day_visible,
      filter_in_hour_visible.
  - unfold vehicle_types_data, vehicle_counts.
    by rewrite filter_on_day_visible.
  - unfold hourly, hourly_data. by rewrite filter_on_day_visible.
  - unfold daily. by rewrite filter_since_day_visible.
Qed.

Lemma answers_depend_on_visible_rows_witness :
  List.filter (visible (H := iso_timestamps) "Kudi")
    (foreign_events ++ morning_events) = morning_events
  ∧ serve (H := iso_timestamps) new_year_clock Written
      (List.filter (visible (H := iso_timestamps) "Kudi")
         (foreign_events ++ morning_events))
      None (GetSummary "Kudi")
    = serve (H := iso_timestamps) new_year_clock Written
        (foreign_events ++ morning_events) None (GetSummary "Kudi").
Proof.
  split; [by vm_compute|].
  by apply (answers_depend_on_visible_rows (H := iso_timestamps)).
Defined.

(** ** The summary *)

Lemma largest_None {K} (groups : list (K * nat)) :
  largest groups = None → groups = [].
Proof.
  destruct groups as [|g groups]; [done|]. simpl.
  destruct (largest groups) as [g'|]; [|done]. by destruct (g.2 <? g'.2).
Qed.

Lemma largest_max {K} (groups : list (K * nat)) g :
  largest groups = Some g → ∀ g', g' ∈ groups → g'.2 ≤ g.2.
Proof.
  revert g. induction groups as [|g0 groups IH]; [done|]. simpl. intros g Hg g' Hin.
  destruct (largest groups) as [g1|] eqn:E.
  - specialize (IH g1 eq_refl).
    destruct (g0.2 <? g1.2) eqn:Hlt; injection Hg as <-.
    + apply Nat.ltb_lt in Hlt. apply elem_of_cons in Hin as [->|Hin]; [lia|].
      by apply IH.
    + apply Nat.ltb_ge in Hlt. apply elem_of_cons in Hin as [->|Hin]; [lia|].
      specialize (IH g' Hin). lia.
  - apply largest_None in E as ->. injection Hg as <-.
    apply elem_of_cons in Hin as [->|Hin]; [lia|]. by apply elem_of_nil in Hin.
Qed.

Lemma occurrences_fmap {A K} `{EqDecision K} (f : A → K) (k : K) (l : list A) :
  occurrences k (f <$> l)
  = length (List.filter (λ x, bool_decide (f x = k)) l).
Proof.
  induction l as [|x l IH]; [done|].
  rewrite fmap_cons, occurrences_cons, IH. simpl.
  destruct (decide (f x = k)) as [E|E].
  - by rewrite bool_decide_eq_true_2.
  - by rewrite bool_decide_eq_false_2.
Qed.

Lemma filter_and {A} (p q : A → bool) (l : list A) :
  List.filter (λ x, p x && q x) l = List.filter p (List.filter q l).
Proof.
  induction l as [|x l IH]; [done|]. simpl.
  destruct (q x); simpl; [|by rewrite andb_false_r].
  rewrite andb_true_r. destruct (p x); by rewrite IH.
Qed.

Lemma filter_length_le {A} (p q : A → bool) (l : list A) :
  (∀ x, p x = true → q x = true) →
  length (List.filter p l) ≤ length (List.filter q l).
Proof.
  intros Hpq. induction l as [|x l IH]; [done|]. simpl.
  destruct (p x) eqn:Ep.
  - rewrite (Hpq x Ep). simpl. lia.
  - destruct (q x); simpl; lia.
Qed.

Section SummaryProperties.

Context `{SQLiteDate}.

Lemma hour_count_occurrences h date location db :
  hour_count h date location db
  = occurrences (Some (fmt02d h))
      (strftime_H ∘ timestamp <$> List.filter (on_day date location) db).
Proof.
  unfold hour_count. rewrite occurrences_fmap.
  by rewrite <- filter_and.
Qed.

Lemma group_count_elem_of {K} `{EqDecision K} (keys : list K) k n :
  (k, n) ∈ group_count keys ↔ k ∈ keys ∧ n = occurrences k keys.
Proof.
  unfold group_count. rewrite list_elem_of_fmap. split.
  - intros (k' & [= -> ->] & Hk). by rewrite elem_of_remove_dups in Hk.
  - intros [Hk ->]. exists k. by rewrite elem_of_remove_dups.
Qed.

Lemma occurrences_present {K} `{EqDecision K} (k : K) keys :
  k ∈ keys → 0 < occurrences k keys.
Proof.
  induction keys as [|k' keys IH]; [by intros ?%elem_of_nil|].
  rewrite occurrences_cons. intros [->|Hk]%elem_of_cons.
  - rewrite decide_True by done. lia.
  - specialize (IH Hk). lia.
Qed.

(** The group that the peak-hour query returns. *)
Lemma peak_group date location db :
  match largest (group_count (strftime_H ∘ timestamp
                                <$> List.filter (on_day date location) db)) with
  | None => List.filter (on_day date location) db = []
  | Some (hour, n) =>
      ∃ h, h < 24 ∧ hour = Some (fmt02d h)
           ∧ n = hour_count h date location db ∧ 0 < n
           ∧ ∀ h', hour_count h' date location db ≤ n
  end.
Proof.
  set (keys := strftime_H ∘ timestamp <$> List.filter (on_day date location) db).
  destruct (largest (group_count keys)) as [[hour n]|] eqn:E.
  - pose proof (largest_elem_of _ _ E) as Hin.
    apply group_count_elem_of in Hin as [Hk Hn].
    pose proof (selected_hours date location db) as Hsel.
    rewrite Forall_forall in Hsel. destruct (Hsel hour Hk) as (h & Hh & ->).
    exists h. split; [done|]. split; [done|].
    rewrite hour_count_occurrences. fold keys. split; [done|].
    split; [rewrite Hn; by apply occurrences_present|].
    intros h'. rewrite hour_count_occurrences. fold keys.
    destruct (decide (Some (fmt02d h') ∈ keys)) as [Hin|Hout].
    + apply (largest_max _ _ E (Some (fmt02d h'), occurrences (Some (fmt02d h')) keys)).
      by apply group_count_elem_of.
    + rewrite occurrences_absent by done. lia.
  - apply largest_None in E. unfold group_count in E.
    apply fmap_nil_inv in E.
    assert (Ek : keys = []).
    { destruct keys as [|k ks]; [done|].
      assert (Hk : k ∈ remove_dups (k :: ks))
        by (rewrite elem_of_remove_dups; by left).
      rewrite E in Hk. by apply elem_of_nil in Hk. }
    subst keys. by apply fmap_nil_inv in Ek.
Qed.

End SummaryProperties.

Lemma summary_data_spec `{SQLiteDate} (c : Clock)
    (location : string) (db : list Row) :
  ∃ h,
    h < 24
    ∧ summary_data c location db
      = {| status := 200;
           body := Json
             {[ "total_today" :=
                  JInt (length (List.filter (on_day (today c) location) db));
                "total_week" :=
                  JInt (length (List.filter
                                  (since_day (week_start c) location) db));
                "peak_hour" := JStr (hour_key h);
                "current_hour" :=
                  JInt (length (List.filter
                                  (in_hour (current_hour c) (today c) location)
                                  db)) ]} |}
    ∧ (∀ h', hour_count h' (today c) location db
             ≤ hour_count h (today c) location db)
    ∧ (if decide (List.filter (on_day (today c) location) db = [])
       then h = 0
       else 0 < hour_count h (today c) location db)
    ∧ length (List.filter (in_hour (current_hour c) (today c) location) db)
      ≤ length (List.filter (on_day (today c) location) db).
Proof.
  pose proof (peak_group (today c) location db) as P.
  assert (C : length (List.filter (in_hour (current_hour c) (today c) location) db)
              ≤ length (List.filter (on_day (today c) location) db)).
  { apply filter_length_le. unfold in_hour. by intros r [_ ?]%andb_true_iff. }
  unfold summary_data.
  destruct (largest _) as [[hour n]|].
  - destruct P as (h & Hh & -> & Hn & Hpos & Hmax). exists h.
    split; [done|]. simpl. rewrite int_of_str_fmt02d by done.
    split; [done|]. rewrite <- Hn. split; [done|]. split; [|done].
    destruct (decide _) as [E|]; [|done].
    rewrite hour_count_occurrences, E in Hn. simpl in Hn.
    rewrite occurrences_nil in Hn. lia.
  - exists 0. split; [lia|]. split; [done|].
    assert (Z : ∀ h', hour_count h' (today c) location db = 0).
    { intros h'. by rewrite hour_count_occurrences, P. }
    split; [intros h'; rewrite !Z; lia|]. split; [|done].
    by rewrite decide_True.
Qed.

(** X10. The summary is always answered, with the four keys: the number of
    rows selected for today, for the week, and for the current hour of
    today, which never exceeds today's number; and as peak hour an hour of
    the day for which today's number of selected rows is largest.  The
    peak hour is 00:00 when no row is selected for today, and otherwise an
    hour that has a row. *)
Theorem summary_names_a_busiest_hour `{SQLiteDate} (c : Clock)
    (location : string) (db : list Row) :
  ∃ h,
    h < 24
    ∧ summary_data c location db
      = {| status := 200;
           body := Json
             {[ "total_today" :=
                  JInt (length (List.filter (on_day (today c) location) db));
                "total_week" :=
                  JInt (length (List.filter
                                  (since_day (week_start c) location) db));
                "peak_hour" := JStr (hour_key h);
                "current_hour" :=
                  JInt (length (List.filter
                                  (in_hour (current_hour c) (today c) location)
                                  db)) ]} |}
    ∧ (∀ h', hour_count h' (today c) location db
             ≤ hour_count h (today c) location db)
    ∧ (if decide (List.filter (on_day (today c) location) db = [])
       then h = 0
       else 0 < hour_count h (today c) location db)
    ∧ length (List.filter (in_hour (current_hour c) (today c) location) db)
      ≤ length (List.filter (on_day (today c) location) db).
Proof. apply summary_data_spec. Qed.

Lemma on_day_since_day `{SQLiteDate} start date location r :
  str_le start date →
  on_day date location r = true → since_day start location r = true.
Proof.
  unfold on_day, since_day, str_le.
  intros Hle [[E%bool_decide_eq_true ->]%andb_true_iff ->]%andb_true_iff.
  by rewrite E, Hle.
Qed.

(** X11. When the first day of the week is not after today, in the order
    of texts in which the query compares dates, the summary's total of
    today is at most its total of the week. *)
Theorem today_is_within_the_week `{SQLiteDate} (c : Clock)
    (location : string) (db : list Row) :
  str_le (week_start c) (today c) →
  ∃ (j : gmap string JValue) (t w : nat),
    summary_data c location db = {| status := 200; body := Json j |}
    ∧ j !! "total_today" = Some (JInt t)
    ∧ j !! "total_week" = Some (JInt w)
    ∧ t ≤ w.
Proof.
  intros Hle. destruct (summary_data_spec c location db) as (h & _ & -> & _).
  eexists _, _, _. split; [reflexivity|]. split; [done|]. split; [done|].
  apply filter_length_le. intros r. by apply on_day_since_day.
Qed.

Lemma today_is_within_the_week_witness :
  ∃ (j : gmap string JValue) (t w : nat),
    summary_data (H := iso_timestamps) new_year_clock "Kudi"
      (foreign_events ++ morning_events)
    = {| status := 200; body := Json j |}
    ∧ j !! "total_today" = Some (JInt t)
    ∧ j !! "total_week" = Some (JInt w)
    ∧ t ≤ w.
Proof.
  apply (today_is_within_the_week (H := iso_timestamps)). reflexivity.
Defined.

(** ** The seven days *)

(** [for i in range(7): daily_data[date] = 0] *)
Lemma fold_zero_days (g : nat → string) (l : list nat) (m : gmap string nat) d :
  foldl (λ data i, <[g i := 0]> data) m l !! d
  = if decide (d ∈ g <$> l) then Some 0 else m !! d.
Proof.
  revert m. induction l as [|i l IH]; intros m.
  - rewrite fmap_nil. cbn [foldl]. case_decide as Hd; [|done].
    by apply elem_of_nil in Hd.
  - rewrite fmap_cons. cbn [foldl]. rewrite IH.
    destruct (decide (d ∈ g <$> l)) as [Hin|Hout].
    + case_decide as Hd; [done|]. exfalso. apply Hd. by right.
    + destruct (decide (g i = d)) as [<-|Hne].
      * rewrite lookup_insert_eq. case_decide as Hd; [done|].
        exfalso. apply Hd. by left.
      * rewrite lookup_insert_ne by done. case_decide as Hd; [|done].
        by apply elem_of_cons in Hd as [?|?].
Qed.

(** [for date, count in cursor.fetchall(): if date in daily_data:
    daily_data[date] = count] over groups of distinct keys. *)
Lemma fold_day_groups (keys : list (option string))
    (cnt : option string → nat) (m : gmap string nat) d :
  NoDup keys →
  foldl (λ (data : gmap string nat) '(date, count),
           match date with
           | Some date =>
               if bool_decide (is_Some (data !! date))
               then <[date := count]> data
               else data
           | None => data
           end)
        m ((λ k, (k, cnt k)) <$> keys) !! d
  = if decide (Some d ∈ keys)
    then (match m !! d with Some _ => Some (cnt (Some d)) | None => None end)
    else m !! d.
Proof.
  intros Hnd. revert m. induction Hnd as [|k keys Hk Hnd IH]; intros m.
  - rewrite fmap_nil. cbn [foldl]. case_decide as Hd; [|done].
    by apply elem_of_nil in Hd.
  - rewrite fmap_cons. cbn [foldl]. rewrite IH. destruct k as [date|].
    + destruct (decide (date = d)) as [->|Hne].
      * rewrite (decide_False (P := Some d ∈ keys)) by done.
        rewrite (decide_True (P := Some d ∈ Some d :: keys)) by left.
        destruct (m !! d) as [v|] eqn:E.
        -- rewrite bool_decide_eq_true_2 by eauto. by rewrite lookup_insert_eq.
        -- rewrite bool_decide_eq_false_2; [done|]. by intros [? ?].
      * assert (L : (if bool_decide (is_Some (m !! date))
                     then <[date := cnt (Some date)]> m else m) !! d = m !! d).
        { destruct (bool_decide _); [|done]. by rewrite lookup_insert_ne. }
        rewrite L. destruct (decide (Some d ∈ keys)) as [Hin|Hout].
        -- rewrite (decide_True (P := Some d ∈ Some date :: keys)); [done|].
           by right.
        -- rewrite (decide_False (P := Some d ∈ Some date :: keys)); [done|].
           intros [[= ?]|?]%elem_of_cons; congruence.
    + destruct (decide (Some d ∈ keys)) as [Hin|Hout].
      * rewrite (decide_True (P := Some d ∈ None :: keys)); [done|]. by right.
      * rewrite (decide_False (P := Some d ∈ None :: keys)); [done|].
        by intros [?|?]%elem_of_cons.
Qed.

(** [for date in sorted_dates: day_names[day_name] = daily_data[date]] over
    dates whose day names are distinct. *)
Lemma fold_day_names (abbr : string → string) (data : gmap string nat)
    (l : list string) (m : gmap string nat) k :
  NoDup (abbr <$> l) →
  foldl (λ names date, <[abbr date := data !!! date]> names) m l !! k
  = match list_find (λ d, abbr d = k) l with
    | Some (_, d) => Some (data !!! d)
    | None => m !! k
    end.
Proof.
  revert m. induction l as [|d l IH]; intros m Hnd; [done|].
  rewrite fmap_cons in Hnd. apply NoDup_cons in Hnd as [Hd Hnd].
  simpl. rewrite IH by done. destruct (decide (abbr d = k)) as [<-|Hne].
  - destruct (list_find _ l) as [[i d']|] eqn:E; simpl.
    + apply list_find_Some in E as (Hi & E & _). exfalso. apply Hd.
      rewrite <- E. apply list_elem_of_fmap. exists d'. split; [done|].
      by eapply list_elem_of_lookup_2.
    + by rewrite lookup_insert_eq.
  - destruct (list_find _ l) as [[i d']|] eqn:E; simpl; [done|].
    by rewrite lookup_insert_ne.
Qed.

Section DailyProperties.

Context `{SQLiteDate}.

Lemma day_count_occurrences c date location db :
  day_count c date location db
  = occurrences (Some date)
      (sql_date ∘ timestamp
         <$> List.filter (since_day (sqlite_week_ago c) location) db).
Proof. unfold day_count. by rewrite occurrences_fmap, <- filter_and. Qed.

End DailyProperties.

(** X12. When the last seven days have seven different day names, the
    daily query answers with exactly these seven names, each with the
    number of rows that the query selects for that date: rows of the
    location, not of type bus, dated that day and not before SQLite's date
    of a week ago. *)
Theorem daily_histogram `{SQLiteDate} (c : Clock) (location : string)
    (db : list Row) :
  NoDup (weekday_abbr c ∘ days_ago c <$> seq 0 7) →
  daily c location db
  = {| status := 200;
       body := Json (JInt <$>
                 list_to_map
                   ((λ i, (weekday_abbr c (days_ago c i),
                           day_count c (days_ago c i) location db))
                      <$> seq 0 7)) |}.
Proof.
  intros Hnd. unfold daily, jsonify. do 3 f_equal.
  set (keys := sql_date ∘ timestamp
                 <$> List.filter (since_day (sqlite_week_ago c) location) db).
  set (m0 := foldl (λ data i, <[days_ago c i := 0]> data) ∅ (seq 0 7)).
  unfold group_count.
  set (m1 := foldl _ m0 _).
  assert (L1 : ∀ d, m1 !! d
                    = if decide (d ∈ days_ago c <$> seq 0 7)
                      then Some (day_count c d location db) else None).
  { intros d. subst m1.
    rewrite (fold_day_groups (remove_dups keys) (λ k, occurrences k keys))
      by apply NoDup_remove_dups.
    subst m0. rewrite fold_zero_days, lookup_empty.
    rewrite day_count_occurrences. fold keys.
    destruct (decide (d ∈ _)); destruct (decide (Some d ∈ _)) as [Hin|Hout];
      try done.
    rewrite elem_of_remove_dups in Hout. by rewrite occurrences_absent. }
  assert (D : dom m1 = list_to_set (days_ago c <$> seq 0 7)).
  { apply set_eq. intros d. rewrite elem_of_dom, L1, elem_of_list_to_set.
    destruct (decide _); split; try done; by intros [? ?]. }
  assert (Hnd' : NoDup (days_ago c <$> seq 0 7)).
  { rewrite list_fmap_compose in Hnd. by apply NoDup_fmap_1 in Hnd. }
  assert (P : merge_sort str_le (elements (dom m1)) ≡ₚ days_ago c <$> seq 0 7).
  { rewrite merge_sort_Permutation, D. by apply elements_list_to_set. }
  apply map_eq. intros k.
  rewrite fold_day_names; last first.
  { rewrite P. by rewrite <- list_fmap_compose. }
  rewrite lookup_empty.
  destruct (list_find _ _) as [[i d]|] eqn:E.
  - apply list_find_Some in E as (Hi & <- & _).
    apply list_elem_of_lookup_2 in Hi. rewrite P in Hi.
    pose proof Hi as Hi'.
    apply list_elem_of_fmap in Hi as (n & -> & Hn).
    symmetry. apply elem_of_list_to_map_1.
    { by rewrite <- list_fmap_compose. }
    apply list_elem_of_fmap. exists n. split; [|done]. f_equal.
    unfold lookup_total, map_lookup_total. rewrite L1.
    by rewrite decide_True.
  - symmetry. apply not_elem_of_list_to_map_1.
    rewrite <- list_fmap_compose. intros Hk.
    apply list_elem_of_fmap in Hk as (n & Hk & Hn). simpl in Hk.
    apply list_find_None in E. rewrite Forall_forall in E.
    apply (E (days_ago c n)); [|done].
    rewrite P. apply list_elem_of_fmap. by exists n.
Qed.

Lemma daily_histogram_witness :
  daily (H := iso_timestamps) new_year_clock "Kudi"
    (foreign_events ++ morning_events)
  = {| status := 200;
       body := Json (JInt <$>
                 {[ "Mon" := 3; "Sun" := 0; "Sat" := 0; "Fri" := 0;
                    "Thu" := 0; "Wed" := 0; "Tue" := 0 ]}) |}.
Proof.
  rewrite (daily_histogram (H := iso_timestamps)).
  - by vm_compute.
  - apply (bool_decide_unpack _). by vm_compute.
Defined.

(** ** What is on disk *)

Lemma flushed_same h s s' :
  csv_file s' = csv_file s → emitted s' = emitted s →
  flushed h s → flushed h s'.
Proof. unfold flushed. by intros -> ->. Qed.

Lemma flushed_quiet h e s :
  emitted_of e = None → flushed h s → flushed h (log_effect e s).
Proof.
  intros E. apply flushed_same; [done|]. unfold emitted. simpl.
  rewrite omap_app. simpl. rewrite E. simpl. by rewrite app_nil_r.
Qed.

Lemma flushed_next h s r :
  flushed h s →
  csv_flush (csv_writerow (Event r) (csv_file s))
  = {| csv_disk := log_header h ++ (Event <$> emitted s ++ [r]);
       csv_buffer := [] |}.
Proof.
  unfold flushed, csv_flush, csv_writerow. intros ->.
  destruct (decide (emitted s = [])) as [->|_]; simpl;
    by rewrite ?fmap_app, ?app_nil_r, <- ?app_assoc.
Qed.

Lemma flushed_counted h s s' r :
  emitted s' = emitted s ++ [r] →
  csv_file s' = csv_flush (csv_writerow (Event r) (csv_file s)) →
  flushed h s → flushed h s'.
Proof.
  intros He Hc Hs. unfold flushed. rewrite Hc, He, (flushed_next h s r Hs).
  rewrite decide_False; [done|]. by intros ?%app_eq_nil%proj2.
Qed.

Lemma flushed_handle_detection h names dw :
  inv (flushed h) (left_behind h) (handle_detection names dw).
Proof.
  destruct dw as [d w]. intros s Hs.
  destruct (passes_filter names d
            && in_zone count_line_position offset (center_y d)
            && bool_decide (box_id d ∉ counted_ids s)) eqn:E.
  - apply andb_true_iff in E as [[E1 E2]%andb_true_iff E3%bool_decide_eq_true].
    rewrite handle_accepted by done. cbv zeta.
    set (r := row_of names d w s).
    assert (Hc : flushed h (committed names d s)).
    { apply (flushed_same h s); [done| |done]. by writes_unfolded. }
    destruct (fault w) as [[]|]; simpl.
    + done.
    + exists (emitted s), r. split; [by writes_unfolded|].
      unfold flushed in Hs. split.
      * unfold csv_written, committed, annotated, emitted. simpl.
        rewrite !omap_app. simpl. rewrite !app_nil_r. fold (emitted s).
        rewrite Hs. destruct (decide (emitted s = [])) as [->|_]; simpl.
        -- done.
        -- by rewrite fmap_app, app_assoc.
      * unfold csv_written, committed, annotated. simpl. rewrite Hs.
        by destruct (decide (emitted s = [])).
    + apply (flushed_counted h s _ r); [by writes_unfolded|done|done].
    + apply (flushed_counted h s _ r); [by writes_unfolded|done|done].
    + destruct (counted_as_counted_state names d w s)
        as (_ & He & _ & Hcsv & _).
      by apply (flushed_counted h s _ r).
  - destruct (handle_rejected names d w s E) as (s' & -> & Hn).
    destruct Hn as (_ & He & _ & Hc & _). by apply (flushed_same h s).
Qed.

Lemma flushed_main h names f0 t0 ticks :
  inv (flushed h) (left_behind h) (main names f0 t0 ticks).
Proof.
  apply inv_main.
  - intros f. apply inv_read_current_location.
    intros s s' (_ & _ & _ & _ & Hcsv & _ & _ & _ & ms & Et).
    destruct (emitted_print s ms s' Et) as [Ee _]. by apply flushed_same.
  - intros s q. by apply flushed_same.
  - intros s. by apply flushed_quiet.
  - intros s n. by apply flushed_same.
  - apply flushed_handle_detection.
  - intros s a b c. by apply flushed_quiet.
  - intros s Hs. rewrite cleanup_closed. unfold left_behind, flushed in *.
    assert (Ee : emitted (closed s) = emitted s)
      by (unfold closed; by writes_unfolded).
    rewrite Ee. unfold closed. simpl. rewrite Hs.
    destruct (decide (emitted s = [])) as [->|_]; unfold csv_flush; simpl.
    + by rewrite app_nil_r.
    + by rewrite app_nil_r.
Qed.

(** X13. Every event is on disk in the log as soon as it is counted: while
    the counter runs, the file on disk holds the header, if this process
    wrote it, and all events, and the buffer is empty; only before the
    first event the header waits in the buffer and nothing is on disk.
    [cleanup] puts everything on disk.  A failing flush leaves the last
    event in the buffer; any other failing write leaves the file as it is
    while the counter runs. *)
Theorem events_are_flushed_at_once (names : Z → string) (csv_new : bool)
    (db0 : list Row) (f0 : FileRead) (t0 : Q) (ticks : list Tick) :
  match main names f0 t0 ticks (module_init csv_new db0) with
  | Ok _ s => flushed csv_new s
  | Raised e s => left_behind csv_new e s
  end.
Proof.
  apply (flushed_main csv_new names f0 t0 ticks (module_init csv_new db0)).
  unfold flushed, emitted. by destruct csv_new.
Qed.

(** ** From the counter to the dashboard *)

Lemma counted_rows_main names f0 t0 ticks csv_new db0 s :
  main names f0 t0 ticks (module_init csv_new db0) = Ok tt s →
  in_sync csv_new db0 s ∧ tallied (emitted s) s ∧ counted_rows (emitted s).
Proof.
  intros E.
  pose proof (in_sync_main csv_new db0 names f0 t0 ticks
                (module_init csv_new db0) (in_sync_module_init csv_new db0))
    as H1.
  assert (I : tallied (emitted (module_init csv_new db0))
                (module_init csv_new db0)
              ∧ counted_rows (emitted (module_init csv_new db0))).
  { unfold tallied, counted_rows, emitted. by destruct csv_new. }
  pose proof (tallied_main names f0 t0 ticks (module_init csv_new db0) I) as H2.
  rewrite E in H1, H2. by destruct H2.
Qed.

Lemma counted_rows_on_day `{SQLiteDate} date location es :
  counted_rows es →
  Forall (λ r, location_id r = location
               ∧ sql_date (timestamp r) = Some date) es →
  List.filter (on_day date location) es = es.
Proof.
  intros Hc Hd. induction es as [|r es IH]; [done|].
  apply Forall_cons in Hc as [Hr Hc]. apply Forall_cons in Hd as [[Hl Ht] Hd].
  simpl. rewrite IH by done.
  assert (E : on_day date location r = true); [|by rewrite E].
  unfold on_day. rewrite bool_decide_eq_true_2 by done.
  rewrite Hl, String.eqb_refl. simpl.
  by apply counted_label_spec in Hr as [-> | [-> | ->]].
Qed.

Lemma filter_none {A} (p : A → bool) (l : list A) :
  Forall (λ x, p x = false) l → List.filter p l = [].
Proof.
  induction 1 as [|x l Hx _ IH]; [done|]. simpl. by rewrite Hx.
Qed.

(** X14. At any moment between two passes of a counter that has run without
    exception, the dashboard of the counter's location shows what the
    counter draws on the frame: when the table held no row of this location
    and day at the start, and the events of the run are of this location
    and day, the vehicle-type query answers with the counter's three
    totals, and the summary's total of today is their sum. *)
Theorem dashboard_shows_the_counters `{SQLiteDate} (names : Z → string)
    (c : Clock) (location : string) (csv_new : bool) (db0 : list Row)
    (f0 : FileRead) (t0 : Q) (ticks : list Tick) (s : State) :
  main names f0 t0 ticks (module_init csv_new db0) = Ok tt s →
  Forall (λ r, ¬ day_event (today c) location r) db0 →
  Forall (λ r, location_id r = location
               ∧ sql_date (timestamp r) = Some (today c)) (emitted s) →
  vehicle_types_data c location (db_table (db_conn s))
  = {| status := 200;
       body := Json (JInt <$> {[ "car" := count_cars s;
                                 "truck" := count_trucks s;
                                 "motorcycle" := count_bikes s ]}) |}
  ∧ ∃ j,
      summary_data c location (db_table (db_conn s))
      = {| status := 200; body := Json j |}
      ∧ j !! "total_today"
        = Some (JInt (count_cars s + count_bikes s + count_trucks s)).
Proof.
  intros E H0 He.
  destruct (counted_rows_main _ _ _ _ _ _ _ E) as ([_ Hdb] & Ht & Hc).
  rewrite Hdb. simpl. destruct Ht as (Hcar & Hbike & Htruck).
  assert (F : List.filter (on_day (today c) location) (db0 ++ emitted s)
              = emitted s).
  { rewrite List.filter_app, (counted_rows_on_day _ _ _ Hc He).
    rewrite filter_none; [done|].
    eapply Forall_impl; [exact H0|]. intros r Hr. simpl in Hr.
    destruct (on_day (today c) location r) eqn:Er; [|done].
    by apply on_day_spec in Er. }
  split.
  - unfold vehicle_types_data. rewrite vehicle_counts_spec, F.
    by rewrite Hcar, Hbike, Htruck.
  - destruct (summary_data_spec c location (db0 ++ emitted s))
      as (h & _ & -> & _).
    eexists. split; [reflexivity|]. rewrite F.
    rewrite Hcar, Hbike, Htruck, (counted_rows_total _ Hc). done.
Qed.

Lemma dashboard_shows_the_counters_witness :
  ∃ s,
    main coco_names NoFile 0 two_on_the_line (module_init true []) = Ok tt s
    ∧ count_cars s = 1 ∧ count_trucks s = 1 ∧ count_bikes s = 0
    ∧ vehicle_types_data (H := iso_timestamps) new_year_clock "jodhpur"
        (db_table (db_conn s))
      = {| status := 200;
           body := Json (JInt <$> {[ "car" := 1; "truck" := 1;
                                     "motorcycle" := 0 ]}) |}.
Proof.
  exists (final_state
            (main coco_names NoFile 0 two_on_the_line (module_init true []))).
  assert (E : main coco_names NoFile 0 two_on_the_line (module_init true [])
              = Ok tt (final_state
                         (main coco_names NoFile 0 two_on_the_line
                            (module_init true []))))
    by (by vm_compute).
  split; [exact E|].
  split; [by vm_compute|]. split; [by vm_compute|]. split; [by vm_compute|].
  destruct (dashboard_shows_the_counters (H := iso_timestamps) coco_names
              new_year_clock "jodhpur" true [] NoFile 0 two_on_the_line _ E)
    as [V _].
  - by apply Forall_nil.
  - apply (bool_decide_unpack _). by vm_compute.
  - exact V.
Defined.

(** ** The location file under the web process *)

Lemma set_active_location_unknown writing l file :
  LOCATIONS !! l = None →
  set_active_location writing l file
  = (file, {| status := 404; body := Text "Location not found" |}).
Proof.
  intros E. unfold set_active_location. by rewrite bool_decide_eq_true_2.
Qed.

Lemma serve_file `{SQLiteDate} c writing db file q :
  (serve c writing db file q).1
  = match q with
    | GetSetLocation l =>
        match (if bool_decide (is_Some (LOCATIONS !! l))
               then left_by writing l else None) with
        | Some text => Some text
        | None => file
        end
    | _ => file
    end.
Proof.
  destruct q as [|l|l|l|l|l date|l]; try done. simpl.
  destruct (LOCATIONS !! l) as [i|] eqn:E.
  - rewrite set_active_location_known by eauto.
    by rewrite bool_decide_eq_true_2 by eauto.
  - rewrite set_active_location_unknown by done.
    rewrite bool_decide_eq_false_2; [done|]. by intros [? ?].
Qed.

Lemma app_run_file `{SQLiteDate} hits file :
  (app_run hits file).1
  = match last (file_texts hits) with Some l => Some l | None => file end.
Proof.
  revert file. induction hits as [|h hits IH]; intros file; [done|].
  cbn [app_run].
  pose proof (serve_file (hit_clock h) (hit_write h) (hit_table h) file
                (hit_request h)) as F.
  destruct (serve _ _ _ _ _) as [file' r]. simpl in F.
  specialize (IH file'). destruct (app_run hits file') as [file'' rs].
  simpl in *. rewrite IH. unfold file_texts. cbn [omap list_omap].
  fold (file_texts hits).
  destruct (hit_request h) as [|l|l|l|l|l date|l]; subst file'; try done.
  destruct (if bool_decide (is_Some (LOCATIONS !! l))
            then left_by (hit_write h) l else None) as [text|]; [|done].
  rewrite last_cons. by destruct (last (file_texts hits)).
Qed.

Lemma app_run_answers `{SQLiteDate} hits file :
  length (app_run hits file).2 = length hits.
Proof.
  revert file. induction hits as [|h hits IH]; intros file; [done|].
  cbn [app_run]. destruct (serve _ _ _ _ _) as [file' r].
  specialize (IH file'). destruct (app_run hits file') as [file'' rs].
  simpl in *. by rewrite IH.
Qed.

Lemma substring_all (text : string) :
  substring 0 (String.length text) text = text.
Proof. induction text as [|c text IH]; [done|]. simpl. by rewrite IH. Qed.

Lemma file_texts_known hits text :
  text ∈ file_texts hits →
  ∃ l kept, is_Some (LOCATIONS !! l) ∧ text = substring 0 kept l.
Proof.
  unfold file_texts. rewrite list_elem_of_omap. intros (h & _ & Hh).
  destruct (hit_request h) as [|l|l|l|l|l date|l]; try done.
  destruct (bool_decide (is_Some (LOCATIONS !! l))) eqn:E; [|done].
  apply bool_decide_eq_true in E.
  destruct (hit_write h) as [|kept|]; [done| |]; injection Hh as <-.
  - by exists l, kept.
  - exists l, (String.length l). by rewrite substring_all.
Qed.

(** X15. The web process cannot start without the location file: it ends
    with [KeyError] before it serves a request, however a write of the
    file would go.  Started with the file, it answers every request, and
    the file holds in the end what the last request left that opened it
    for a known location: the identifier, or the part of it that was
    written when the write failed; when no request opened it, the text
    that it held at the start.  When the file holds a key of [LOCATIONS]
    in the end, a counter that reads it works under that key. *)
Theorem location_file_holds_the_last_write `{SQLiteDate}
    (writing : FileWrite) (file : option string) (hits : list Hit) :
  match app_main writing file hits with
  | inr e => file = None ∧ e = KeyError "jodhpur"
  | inl (file', answers) =>
      is_Some file
      ∧ length answers = length hits
      ∧ file' = match last (file_texts hits) with
                | Some text => Some text
                | None => file
                end
      ∧ Forall (λ text, ∃ l kept, is_Some (LOCATIONS !! l)
                                  ∧ text = substring 0 kept l)
          (file_texts hits)
      ∧ ∀ l s,
          is_Some (LOCATIONS !! l) → file' = Some l →
          CAMERA_LOCATION_ID
            (final_state (read_current_location (file_seen file') s))
          = l
  end.
Proof.
  destruct file as [text|]; [|done]. unfold app_main.
  pose proof (app_run_file hits (Some text)) as F.
  pose proof (app_run_answers hits (Some text)) as L.
  destruct (app_run hits (Some text)) as [file' answers]. simpl in F, L.
  split; [by eauto|]. split; [done|]. split; [done|]. split.
  - apply Forall_forall. intros t. apply file_texts_known.
  - intros l s K ->. simpl.
    destruct (strip_location l K) as [Hs Hn].
    destruct (read_current_location_update l s) as (s' & -> & Hl & _);
      [by rewrite Hs|].
    simpl. by rewrite Hl.
Qed.

(** ** The answers agree with each other *)

Lemma three_types_at_most rs :
  count_type "car" rs + count_type "truck" rs + count_type "motorcycle" rs
  ≤ length rs.
Proof.
  induction rs as [|r rs IH]; [done|].
  unfold count_type in *. rewrite !filter_cons. simpl.
  destruct (decide (vehicle_type r = "car")) as [->|];
    destruct (decide (vehicle_type r = "truck")) as [E|]; try done;
    destruct (decide (vehicle_type r = "motorcycle")) as [E'|]; try done;
    simpl; try lia.
  rewrite E in E'. done.
Qed.

Lemma map_sum_three (a b c : string) (x y z : nat) :
  a ≠ b → a ≠ c → b ≠ c →
  map_sum {[ a := x; b := y; c := z ]} = x + y + z.
Proof.
  intros Hab Hac Hbc.
  change ({[ a := x; b := y; c := z ]} : gmap string nat)
    with (<[a := x]> (<[b := y]> ({[c := z]} : gmap string nat))).
  rewrite <- insert_empty.
  change (<[a:=x]> (<[b:=y]> (<[c:=z]> (∅ : gmap string nat))))
    with (list_to_map [(a, x); (b, y); (c, z)] : gmap string nat).
  rewrite map_sum_list_to_map; [simpl; lia|]. simpl.
  apply NoDup_cons. split; [|apply NoDup_cons; split; [|apply NoDup_singleton]].
  - by intros [?|[?|?]%elem_of_cons]%elem_of_cons; [..|eapply elem_of_nil].
  - by intros ?%list_elem_of_singleton.
Qed.

Section Agreement.

Context `{SQLiteDate}.

Lemma hourly_sum date location db :
  map_sum (list_to_map
             ((λ h, (hour_key h, hour_count h date location db)) <$> seq 0 24))
  = length (List.filter (on_day date location) db).
Proof.
  rewrite map_sum_list_to_map
    by (rewrite hour_rows_fst; apply hour_keys_NoDup).
  rewrite <- list_fmap_compose.
  rewrite <- (length_fmap (strftime_H ∘ timestamp)).
  rewrite <- (hour_groups_total
                (strftime_H ∘ timestamp
                   <$> List.filter (on_day date location) db))
    by apply selected_hours.
  f_equal. apply list_fmap_ext. intros _ h _. simpl.
  apply hour_count_occurrences.
Qed.

Lemma hourly_counts date location db :
  hourly_data date location db
  = Some (list_to_map
            ((λ h, (hour_key h, hour_count h date location db)) <$> seq 0 24)).
Proof.
  rewrite hourly_data_spec. do 2 f_equal. apply list_fmap_ext.
  intros _ h _. by rewrite hour_count_occurrences.
Qed.

End Agreement.

(** X16. The answers of one moment agree with each other.  The bars of
    today's hourly histogram add up to the summary's total of today; the
    summary's peak hour is a highest bar of that histogram; and the three
    vehicle types add up to at most that total. *)
Theorem summary_agrees_with_the_histogram `{SQLiteDate} (c : Clock)
    (location : string) (db : list Row) :
  ∃ (j : gmap string JValue) (data types : gmap string nat) (h top : nat),
    summary_data c location db = {| status := 200; body := Json j |}
    ∧ hourly c None location db
      = {| status := 200; body := Json (JInt <$> data) |}
    ∧ vehicle_types_data c location db
      = {| status := 200; body := Json (JInt <$> types) |}
    ∧ j !! "total_today" = Some (JInt (map_sum data))
    ∧ j !! "peak_hour" = Some (JStr (hour_key h))
    ∧ data !! hour_key h = Some top
    ∧ (∀ k v, data !! k = Some v → v ≤ top)
    ∧ map_sum types ≤ map_sum data.
Proof.
  destruct (summary_data_spec c location db) as (h & Hh & -> & Hmax & _).
  unfold hourly, vehicle_types_data. simpl.
  rewrite hourly_counts, vehicle_counts_spec.
  eexists _, _, _, h, (hour_count h (today c) location db).
  split; [reflexivity|]. split; [reflexivity|]. split; [reflexivity|].
  rewrite hourly_sum. split; [done|]. split; [done|].
  split; [by apply (hour_rows_lookup (λ h, hour_count h (today c) location db))|].
  split.
  - intros k v Hk. apply elem_of_list_to_map_2 in Hk.
    apply list_elem_of_fmap in Hk as (h' & [= -> ->] & _). apply Hmax.
  - rewrite map_sum_three by done. apply three_types_at_most.
Qed.

(** ** The counted set and the log *)

Lemma logged_ids_same s s' :
  counted_ids s' = counted_ids s → emitted s' = emitted s →
  logged_ids s → logged_ids s'.
Proof. unfold logged_ids. by intros -> ->. Qed.

Lemma logged_ids_quiet e s :
  emitted_of e = None → logged_ids s → logged_ids (log_effect e s).
Proof.
  intros E. apply logged_ids_same; [done|]. unfold emitted. simpl.
  rewrite omap_app. simpl. rewrite E. simpl. by rewrite app_nil_r.
Qed.

Lemma logged_ids_next s s' r :
  vehicle_id r ∉ counted_ids s →
  counted_ids s' = {[vehicle_id r]} ∪ counted_ids s →
  emitted s' = emitted s ++ [r] →
  logged_ids s → logged_ids s'.
Proof.
  intros Hn Hc He [Hs Hnd]. unfold logged_ids.
  rewrite Hc, He, fmap_app, Hs. simpl. split.
  - rewrite list_to_set_app_L. simpl. apply set_eq. intros x.
    rewrite !elem_of_union, elem_of_empty. tauto.
  - apply NoDup_app. split; [done|]. split; [|apply NoDup_singleton].
    intros i Hi ->%list_elem_of_singleton. apply Hn. rewrite Hs.
    by apply elem_of_list_to_set.
Qed.

Lemma logged_ids_handle_detection names dw :
  inv logged_ids (λ _, logged_ids_but_one) (handle_detection names dw).
Proof.
  destruct dw as [d w]. intros s Hs.
  destruct (passes_filter names d
            && in_zone count_line_position offset (center_y d)
            && bool_decide (box_id d ∉ counted_ids s)) eqn:E.
  - apply andb_true_iff in E as [[E1 E2]%andb_true_iff E3%bool_decide_eq_true].
    rewrite handle_accepted by done. cbv zeta.
    set (r := row_of names d w s).
    assert (N : ∀ s', counted_ids s' = {[vehicle_id r]} ∪ counted_ids s →
                      emitted s' = emitted s ++ [r] →
                      logged_ids_but_one s').
    { intros s' Hc He.
      destruct (logged_ids_next s s' r E3 Hc He Hs) as [H1 H2].
      split; [done|]. by left. }
    destruct (fault w) as [[]|].
    + destruct Hs as [Hs Hnd]. split.
      * assert (Ee : emitted (committed names d s) = emitted s)
          by (by writes_unfolded).
        by rewrite Ee.
      * right. exists (box_id d).
        assert (Ee : emitted (committed names d s) = emitted s)
          by (by writes_unfolded).
        rewrite Ee. split.
        -- intros Hi. apply E3. rewrite Hs. by apply elem_of_list_to_set.
        -- simpl. by rewrite Hs.
    + apply N; [done|by writes_unfolded].
    + apply N; [done|by writes_unfolded].
    + apply N; [done|by writes_unfolded].
    + destruct (counted_as_counted_state names d w s) as (Hc & He & _).
      by apply (logged_ids_next s _ r).
  - destruct (handle_rejected names d w s E) as (s' & -> & Hn).
    destruct Hn as (Hc & He & _). by apply (logged_ids_same s).
Qed.

Lemma logged_ids_main names f0 t0 ticks :
  inv logged_ids (λ _, logged_ids_but_one) (main names f0 t0 ticks).
Proof.
  apply inv_main.
  - intros f. apply inv_read_current_location.
    intros s s' (Hc & _ & _ & _ & _ & _ & _ & _ & ms & Et).
    destruct (emitted_print s ms s' Et) as [Ee _]. by apply logged_ids_same.
  - intros s q. by apply logged_ids_same.
  - intros s. by apply logged_ids_quiet.
  - intros s n. by apply logged_ids_same.
  - apply logged_ids_handle_detection.
  - intros s a b c. by apply logged_ids_quiet.
  - intros s Hs. rewrite cleanup_closed.
    assert (H : logged_ids (closed s)).
    { apply (logged_ids_same s); [done| |done].
      unfold closed. by writes_unfolded. }
    destruct H. split; [done|]. by left.
Qed.

(** X17. While the counter runs, a track identity is in the counted set
    exactly when the log holds an event of it, and then it holds one: the
    counted set has as many members as the log has events.  When the
    process has ended by an exception, at most one identity is counted
    without an event: that of the detection whose log write failed. *)
Theorem counted_means_logged (names : Z → string) (csv_new : bool)
    (db0 : list Row) (f0 : FileRead) (t0 : Q) (ticks : list Tick) :
  match main names f0 t0 ticks (module_init csv_new db0) with
  | Ok _ s =>
      (∀ i, i ∈ counted_ids s ↔ i ∈ vehicle_id <$> emitted s)
      ∧ NoDup (vehicle_id <$> emitted s)
      ∧ size (counted_ids s) = length (emitted s)
  | Raised _ s =>
      NoDup (vehicle_id <$> emitted s)
      ∧ ∃ extra,
          length extra ≤ 1
          ∧ ∀ i, i ∈ counted_ids s ↔ i ∈ extra ++ (vehicle_id <$> emitted s)
  end.
Proof.
  assert (I : logged_ids (module_init csv_new db0)).
  { unfold logged_ids, emitted. destruct csv_new; simpl; split;
      try done; apply NoDup_nil_2. }
  pose proof (logged_ids_main names f0 t0 ticks _ I) as H.
  destruct (main names f0 t0 ticks (module_init csv_new db0)) as [[] s|e s].
  - destruct H as [Hc Hnd]. split; [|split; [done|]].
    + intros i. by rewrite Hc, elem_of_list_to_set.
    + by rewrite Hc, size_list_to_set, length_fmap.
  - destruct H as [Hnd [Hc|(i & Hi & Hc)]]; (split; [done|]).
    + exists []. split; [simpl; lia|]. intros i.
      by rewrite Hc, elem_of_list_to_set.
    + exists [i]. split; [done|]. intros k. rewrite Hc. simpl.
      rewrite elem_of_union, elem_of_singleton, elem_of_list_to_set,
        elem_of_cons. done.
Qed.

(** ** Which vehicles are logged *)

Lemma handle_detection_ids names d w sA sB :
  handle_detection names (d, w) sA = Ok tt sB →
  logged_ids sA →
  logged_ids sB
  ∧ ∀ i, i ∈ vehicle_id <$> emitted sB
         ↔ i ∈ vehicle_id <$> emitted sA
           ∨ (qualifies names d = true ∧ i = box_id d).
Proof.
  intros E Hs.
  pose proof (logged_ids_handle_detection names (d, w) sA Hs) as L.
  rewrite E in L. split; [done|]. clear L. revert E.
  destruct (passes_filter names d
            && in_zone count_line_position offset (center_y d)
            && bool_decide (box_id d ∉ counted_ids sA)) eqn:T.
  - apply andb_true_iff in T as [[E1 E2]%andb_true_iff E3%bool_decide_eq_true].
    rewrite handle_accepted by done. cbv zeta.
    destruct (fault w) as [[]|]; try done. intros [= <-].
    destruct (counted_as_counted_state names d w sA) as (_ & -> & _).
    intros i. rewrite fmap_app, elem_of_app. simpl.
    rewrite list_elem_of_singleton. unfold qualifies. rewrite E1, E2. simpl.
    tauto.
  - destruct (handle_rejected names d w sA T) as (s' & -> & Hn).
    intros [= <-]. destruct Hn as (_ & -> & _). intros i.
    split; [by left|]. intros [Hi|[Hq ->]]; [done|].
    unfold qualifies in Hq. rewrite Hq in T. simpl in T.
    apply bool_decide_eq_false in T. destruct Hs as [Hc _].
    rewrite Hc in T. apply dec_stable in T.
    by apply elem_of_list_to_set in T.
Qed.

Lemma for_each_handle_detection_ids names bs sA sB :
  for_each (handle_detection names) bs sA = Ok tt sB →
  logged_ids sA →
  logged_ids sB
  ∧ ∀ i, i ∈ vehicle_id <$> emitted sB
         ↔ i ∈ vehicle_id <$> emitted sA
           ∨ i ∈ box_id <$> List.filter (qualifies names) (fst <$> bs).
Proof.
  revert sA. induction bs as [|[d w] bs IH]; intros sA E Hs.
  - rewrite for_each_nil in E. injection E as <-. split; [done|].
    intros i. split; [by left|]. intros [?|Hi]; [done|].
    by apply elem_of_nil in Hi.
  - rewrite for_each_cons in E.
    destruct (handle_detection names (d, w) sA) as [[] s1|] eqn:E1; [|done].
    destruct (handle_detection_ids names d w sA s1 E1 Hs) as [H1 I1].
    destruct (IH s1 E H1) as [H2 I2]. split; [done|]. intros i.
    rewrite I2, I1. rewrite fmap_cons. cbn [List.filter fst].
    destruct (qualifies names d).
    + rewrite fmap_cons, elem_of_cons. intuition.
    + intuition. discriminate.
Qed.

Lemma look_ids names t sA sB :
  look names t sA = Ok tt sB →
  logged_ids sA →
  logged_ids sB
  ∧ ∀ i, i ∈ vehicle_id <$> emitted sB
         ↔ i ∈ vehicle_id <$> emitted sA ∨ i ∈ in_zone_ids names t.
Proof.
  unfold look, in_zone_ids, mbind, M_bind, get, emit, modify. intros E Hs.
  assert (Q : ∀ s a b c, emitted (log_effect (ShowFrame a b c) s) = emitted s).
  { intros s a b c. unfold emitted. simpl. rewrite omap_app. simpl.
    by rewrite app_nil_r. }
  destruct (boxes t) as [bs|].
  - destruct (for_each (handle_detection names) bs sA) as [[] s1|] eqn:E1;
      [|done].
    destruct (for_each_handle_detection_ids names bs sA s1 E1 Hs) as [H1 I1].
    destruct (waitKey t =? 27)%Z; [by rewrite cleanup_closed in E|].
    injection E as <-. split.
    + by apply logged_ids_quiet.
    + intros i. by rewrite Q, I1.
  - unfold mret, M_ret in E.
    destruct (waitKey t =? 27)%Z; [by rewrite cleanup_closed in E|].
    injection E as <-. split.
    + by apply logged_ids_quiet.
    + intros i. rewrite Q. split; [by left|]. intros [?|Hi]; [done|].
      by apply elem_of_nil in Hi.
Qed.

Lemma loop_body_ids names t s1 s2 :
  loop_body names t s1 = Ok tt s2 →
  logged_ids s1 →
  logged_ids s2
  ∧ ∀ i, i ∈ vehicle_id <$> emitted s2
         ↔ i ∈ vehicle_id <$> emitted s1
           ∨ (cap_read t = true ∧ S (frame_count s1) `mod` 2 = 0
              ∧ i ∈ in_zone_ids names t).
Proof.
  rewrite loop_body_steps. unfold mbind, M_bind.
  destruct (poll_location_console t s1) as (sp & -> & Hf & Hc & He & _).
  intros E Hs.
  assert (Hp : logged_ids sp) by (by apply (logged_ids_same s1)).
  rewrite <- He, <- Hf. clear Hs He Hf Hc s1.
  destruct (cap_read t) eqn:Hc.
  - destruct (decide (S (frame_count sp) `mod` 2 = 0)) as [Hn|Hn].
    + rewrite frame_step_looked in E by done.
      destruct (look_ids names t _ s2 E) as [H2 I2].
      { by apply (logged_ids_same sp). }
      split; [done|]. intros i. rewrite I2.
      change (emitted (set_frame_count (S (frame_count sp)) sp))
        with (emitted sp). tauto.
    + rewrite frame_step_skipped in E by done. injection E as <-.
      split; [by apply (logged_ids_same sp)|]. intros i.
      change (emitted (set_frame_count (S (frame_count sp)) sp))
        with (emitted sp). tauto.
  - rewrite frame_step_no_frame in E by done. injection E as <-.
    split; [by apply logged_ids_quiet|]. intros i.
    assert (Q : emitted (log_effect (Print MsgGrabFailed) sp) = emitted sp).
    { unfold emitted. simpl. rewrite omap_app. simpl. by rewrite app_nil_r. }
    rewrite Q. intuition. discriminate.
Qed.

Lemma run_ids names ticks s1 s2 :
  for_each (loop_body names) ticks s1 = Ok tt s2 →
  logged_ids s1 →
  logged_ids s2
  ∧ ∀ i, i ∈ vehicle_id <$> emitted s2
         ↔ i ∈ vehicle_id <$> emitted s1
           ∨ ∃ t, t ∈ sampled (frame_count s1) ticks
                  ∧ i ∈ in_zone_ids names t.
Proof.
  revert s1. induction ticks as [|t ticks IH]; intros s1 E Hs.
  - rewrite for_each_nil in E. injection E as <-. split; [done|].
    intros i. split; [by left|]. intros [?|(t & Ht & _)]; [done|].
    by apply elem_of_nil in Ht.
  - rewrite for_each_cons in E.
    destruct (loop_body names t s1) as [[] s'|] eqn:E1; [|done].
    destruct (loop_body_ids names t s1 s' E1 Hs) as [H1 I1].
    destruct (IH s' E H1) as [H2 I2]. split; [done|]. intros i.
    rewrite I2, I1. rewrite (loop_body_frame_count names t s1 s' E1).
    rewrite sampled_cons.
    assert (B : in_zone_ids names (blind t) = []) by done.
    destruct (cap_read t) eqn:Hc.
    + destruct (S (frame_count s1) `mod` 2 =? 0) eqn:Hn.
      * apply Nat.eqb_eq in Hn. split.
        -- intros [[Hi|(_ & _ & Hi)]|(t' & Ht' & Hi)]; [by left| |].
           ++ right. exists t. split; [by left|done].
           ++ right. exists t'. split; [by right|done].
        -- intros [Hi|(t' & [->|Ht']%elem_of_cons & Hi)]; [by left; left| |].
           ++ left. right. done.
           ++ right. by exists t'.
      * apply Nat.eqb_neq in Hn. split.
        -- intros [[Hi|(_ & Hn' & _)]|(t' & Ht' & Hi)]; [by left|done|].
           right. exists t'. split; [by right|done].
        -- intros [Hi|(t' & [->|Ht']%elem_of_cons & Hi)]; [by left; left| |].
           ++ rewrite B in Hi. by apply elem_of_nil in Hi.
           ++ right. by exists t'.
    + split.
      * intros [[Hi|(Hc' & _)]|(t' & Ht' & Hi)]; [by left|done|].
        right. exists t'. split; [by right|done].
      * intros [Hi|(t' & [->|Ht']%elem_of_cons & Hi)]; [by left; left| |].
        -- rewrite B in Hi. by apply elem_of_nil in Hi.
        -- right. by exists t'.
Qed.

(** X18. In a run without exception the log holds an event of a track
    identity exactly when some pass that the counter looked at showed a
    detection of that identity with a counted label, a confidence above
    one half and its centre in the zone.  Nothing else is logged, and no
    such vehicle is missed. *)
Theorem logged_are_the_vehicles_seen_in_the_zone (names : Z → string)
    (csv_new : bool) (db0 : list Row) (f0 : FileRead) (t0 : Q)
    (ticks : list Tick) (s : State) :
  main names f0 t0 ticks (module_init csv_new db0) = Ok tt s →
  ∀ i, i ∈ vehicle_id <$> emitted s
       ↔ ∃ t, t ∈ sampled 0 ticks ∧ i ∈ in_zone_ids names t.
Proof.
  unfold main, mbind, M_bind, modify.
  destruct (read_current_location_ok f0 (module_init csv_new db0))
    as (s0 & -> & (Hc & _ & _ & _ & _ & _ & Hf & _ & ms & Et)).
  destruct (emitted_print _ ms s0 Et) as [He _].
  intros E.
  assert (I : logged_ids (set_last_check t0 s0)).
  { unfold logged_ids.
    change (emitted (set_last_check t0 s0)) with (emitted s0).
    change (counted_ids (set_last_check t0 s0)) with (counted_ids s0).
    rewrite He, Hc. unfold emitted. destruct csv_new; simpl; split;
      try done; apply NoDup_nil_2. }
  destruct (run_ids names ticks _ s E I) as [_ R]. intros i. rewrite R.
  change (emitted (set_last_check t0 s0)) with (emitted s0).
  change (frame_count (set_last_check t0 s0)) with (frame_count s0).
  rewrite He, Hf.
  assert (N : emitted (module_init csv_new db0) = [])
    by (unfold emitted; by destruct csv_new).
  rewrite N. simpl. split; [|by right]. intros [Hi|?]; [|done].
  by apply elem_of_nil in Hi.
Qed.

Lemma logged_are_the_vehicles_seen_in_the_zone_witness :
  7%Z ∈ vehicle_id
          <$> emitted
                (final_state
                   (main coco_names NoFile 0 two_on_the_line
                      (module_init true [])))
  ↔ ∃ t, t ∈ sampled 0 two_on_the_line ∧ 7%Z ∈ in_zone_ids coco_names t.
Proof.
  apply (logged_are_the_vehicles_seen_in_the_zone coco_names true [] NoFile 0
           two_on_the_line).
  by vm_compute.
Defined.
